(** * Observation masking (packages/core/src/services/observationMaskingService.ts)

    A shallow embedding of [ObservationMaskingService] and the proofs of its
    specification.  The conversation history lives in a store of arrays and
    turn records, so that what the service allocates and what it overwrites
    is explicit; the file system, the clock, the random source and the
    telemetry sink are recorded as a trace of events. *)

From Stdlib Require Import ZArith String Ascii List DecimalString Lia.
From stdpp Require Import base option list gmap strings.

Local Open Scope Z_scope.

(** ** Strings

    A JavaScript string is a sequence of code units; the embedding uses
    [string], whose characters stand for the code units below 256.  For
    these, [Buffer.byteLength(_, 'utf8')] is one byte below 128 and two
    bytes from 128 on. *)

Module JsString.

Definition newline : ascii := ascii_of_nat 10.
Definition dquote : string := String (ascii_of_nat 34) EmptyString.
Definition nl : string := String newline EmptyString.

(** [s.length] *)
Definition length (s : string) : Z := Z.of_nat (String.length s).

(** The index a relative argument of [slice] denotes in a string of
    length [len]: negative arguments count from the end. *)
Definition clamp (len k : Z) : Z :=
  if k <? 0 then Z.max (len + k) 0 else Z.min k len.

(** [s.slice(start, stop)]; [stop = None] is the one-argument form. *)
Definition slice (s : string) (start : Z) (stop : option Z) : string :=
  let len := length s in
  let from := clamp len start in
  let to := match stop with Some e => clamp len e | None => len end in
  substring (Z.to_nat from) (Z.to_nat (to - from)) s.

(** [s.includes(pat)]: [pat] occurs somewhere in [s]. *)
Fixpoint includes (s pat : string) : bool :=
  String.prefix pat s ||
  match s with
  | EmptyString => false
  | String _ s' => includes s' pat
  end.

(** [s.split(sep)] for a one-character separator. *)
Fixpoint split (s : string) (sep : ascii) : list string :=
  match s with
  | EmptyString => [EmptyString]
  | String c s' =>
      if Ascii.eqb c sep then EmptyString :: split s' sep
      else match split s' sep with
           | l :: ls => String c l :: ls
           | [] => [String c EmptyString]
           end
  end.

(** [Buffer.byteLength(s, 'utf8')] *)
Fixpoint byteLength (s : string) : Z :=
  match s with
  | EmptyString => 0
  | String c s' => (if (nat_of_ascii c <? 128)%nat then 1 else 2) + byteLength s'
  end.

(** Decimal digits of a non-negative integer. *)
Definition digits (n : Z) : string := NilZero.string_of_uint (N.to_uint (Z.to_N n)).

(** [n.toString()] for an integer. *)
Definition toString (n : Z) : string :=
  if n <? 0 then "-" +:+ digits (- n) else digits n.

(** Grouping of a digit string in threes from the right, on the reversed
    list of characters: [k] characters are still to come before the next
    separator. *)
Fixpoint group_rev (l : list ascii) (k : nat) : list ascii :=
  match l with
  | [] => []
  | c :: l' =>
      match k with
      | O => ascii_of_nat 44 :: c :: group_rev l' 2
      | S k' => c :: group_rev l' k'
      end
  end.

Definition group_thousands (ds : string) : string :=
  string_of_list_ascii (rev (group_rev (rev (list_ascii_of_string ds)) 3)).

(** [n.toLocaleString()] for an integer, in the en-US locale the test
    suite expects ([60,000]). *)
Definition toLocaleString (n : Z) : string :=
  if n <? 0 then "-" +:+ group_thousands (digits (- n))
  else group_thousands (digits n).

(** The integer [n] with [n / 100] nearest to [num / den], the larger one
    on a tie: what [toFixed(2)] prints of the number [num / den]. *)
Definition hundredths (num den : Z) : Z := (200 * num + den) / (2 * den).

Definition two_digits (n : Z) : string :=
  if n <? 10 then "0" +:+ digits n else digits n.

(** [(num / den).toFixed(2)] for [0 <= num] and [0 < den]. *)
Definition toFixed2 (num den : Z) : string :=
  let n := hundredths num den in
  digits (n / 100) +:+ "." +:+ two_digits (n mod 100).

End JsString.

(** ** Constants of the service *)

Definition TOOL_PROTECTION_THRESHOLD : Z := 50000.
Definition HYSTERESIS_THRESHOLD : Z := 30000.
Definition SMART_TRUNCATION_TOKENS : Z := 5000.
Definition OBSERVATION_DIR : string := "observations".
Definition MASKED_MARKER : string := "[Observation Masked]".

(** ** formatMaskedSnippet *)

Section Snippet.

Import JsString.

Definition charLimit : Z := SMART_TRUNCATION_TOKENS * 4.

(** The line between head and tail of a truncated observation. *)
Definition banner (totalLines fileSizeMB totalTokens : string) : string :=
  "... [TRUNCATED " +:+ totalLines +:+ " LINES | " +:+ fileSizeMB +:+ "MB | ~"
  +:+ totalTokens +:+ " TOKENS] ...".

(** The block that follows the tail. *)
Definition guidance (toolName filePath totalLines fileSizeMB totalTokens : string) : string :=
  "<observation_masked_guidance tool_name=" +:+ dquote +:+ toolName +:+ dquote +:+ ">" +:+ nl +:+
  "  <summary>" +:+ nl +:+
  "    Data from tool " +:+ dquote +:+ toolName +:+ dquote +:+ " was offloaded to save context space." +:+ nl +:+
  "  </summary>" +:+ nl +:+
  "  <details>" +:+ nl +:+
  "    <file_path>" +:+ filePath +:+ "</file_path>" +:+ nl +:+
  "    <line_count>" +:+ totalLines +:+ "</line_count>" +:+ nl +:+
  "    <file_size>" +:+ fileSizeMB +:+ "MB</file_size>" +:+ nl +:+
  "    <estimated_total_tokens>" +:+ totalTokens +:+ "</estimated_total_tokens>" +:+ nl +:+
  "  </details>" +:+ nl +:+
  "  <instructions>" +:+ nl +:+
  "    The full output is available at the path above. " +:+ nl +:+
  "    You can inspect it using tools like 'search_file_content' or 'read_file'." +:+ nl +:+
  "    Note: Reading the full file will use approximately " +:+ totalTokens +:+ " tokens." +:+ nl +:+
  "  </instructions>" +:+ nl +:+
  "</observation_masked_guidance>".

Definition formatMaskedSnippet
  (content filePath toolName : string) (totalTokens : Z) : string :=
  let lines := split content newline in
  let totalLines := Z.of_nat (List.length lines) in
  let fileSizeMB := toFixed2 (byteLength content) (1024 * 1024) in
  (* charLimit * 2.5 = 50000, an integer *)
  if length content <=? charLimit * 5 / 2 then content
  else
    let head := slice content 0 (Some charLimit) in
    let tail := slice content (- charLimit) None in
    MASKED_MARKER +:+ nl +:+
    head +:+ nl +:+
    banner (toLocaleString totalLines) fileSizeMB (toLocaleString totalTokens) +:+ nl +:+
    tail +:+ nl +:+
    nl +:+
    guidance toolName filePath (toLocaleString totalLines) fileSizeMB
      (toLocaleString totalTokens).

End Snippet.

(** ** Data model

    The values the service meets in a response payload
    ([Record<string, unknown>]): what matters of a value is whether it is a
    string, whether it is [undefined] or [null], and what its [toString()]
    gives. *)

Inductive jsval :=
| JUndefined
| JNull
| JBool (b : bool)
| JNumber (n : Z)
| JString (s : string)
| JObject (repr : string).   (* any other object; [repr] is its [toString()] *)

(** [functionResponse.response]: absent, a bare string, or a record. *)
Inductive payload :=
| PAbsent
| PString (s : string)
| PRecord (m : gmap string jsval).

(** The fields of a function response and of a part that the service never
    looks at are kept in [fr_rest] and [part_rest]. *)
Record FunctionResponse := {
  fr_name : option string;
  fr_response : payload;
  fr_rest : gmap string jsval;
}.

Record Part := {
  functionResponse : option FunctionResponse;
  part_rest : gmap string jsval;
}.

(** ** The store

    Arrays and turn records are objects with an identity: a [Content[]]
    array holds references to turns, a turn holds a reference to its parts
    array.  A location is an index in the store; allocation appends. *)

Abbreviation loc := nat.

Record Content := {
  role : option string;
  parts : option loc;
}.

Inductive cell :=
| CHistory (turns : list loc)    (* a Content[] array *)
| CContent (c : Content)         (* a turn *)
| CParts (ps : list Part).       (* a Part[] array *)

Abbreviation heap := (list cell).

(** What the service does to the outside world, in order. *)
Inductive event :=
| EvEstimate (ps : list Part)                      (* estimateTokenCountSync(ps) *)
| EvDebugLog (msg : string)                        (* debugLogger.log *)
| EvMkdir (dir : string) (ok : bool)               (* fsPromises.mkdir *)
| EvWriteFile (path content : string) (ok : bool)  (* fsPromises.writeFile *)
| EvTelemetry (tokens_before tokens_after masked_count total_prunable_tokens : Z).

Record state := {
  st_heap : heap;
  st_trace : list event;
  st_tick : nat;     (* how many times the outside world has been asked *)
}.

Inductive error := TypeError | IOError.

Inductive outcome (A : Type) :=
| Ok (a : A)
| Throw (e : error).
Arguments Ok {A} a.
Arguments Throw {A} e.

(** A computation of the service: it reads and changes the state and
    returns or throws. *)
Definition M (A : Type) : Type := state -> outcome A * state.

#[global] Instance M_ret : MRet M := fun A a s => (Ok a, s).
#[global] Instance M_bind : MBind M := fun A B f m s =>
  match m s with
  | (Ok a, s') => f a s'
  | (Throw e, s') => (Throw e, s')
  end.

Definition throw {A} (e : error) : M A := fun s => (Throw e, s).

Definition emit (e : event) : M unit := fun s =>
  (Ok tt, {| st_heap := st_heap s; st_trace := st_trace s ++ [e]; st_tick := st_tick s |}).

Definition tick : M nat := fun s =>
  (Ok (st_tick s), {| st_heap := st_heap s; st_trace := st_trace s; st_tick := S (st_tick s) |}).

(** *** Store access *)

Definition read (l : loc) : M cell := fun s =>
  match st_heap s !! l with
  | Some c => (Ok c, s)
  | None => (Throw TypeError, s)
  end.

Definition alloc (c : cell) : M loc := fun s =>
  (Ok (List.length (st_heap s)),
   {| st_heap := st_heap s ++ [c]; st_trace := st_trace s; st_tick := st_tick s |}).

Definition store (l : loc) (c : cell) : M unit := fun s =>
  (Ok tt, {| st_heap := <[l := c]> (st_heap s); st_trace := st_trace s; st_tick := st_tick s |}).

Definition read_history (l : loc) : M (list loc) :=
  c ← read l; match c with CHistory ts => mret ts | _ => throw TypeError end.

Definition read_content (l : loc) : M Content :=
  c ← read l; match c with CContent t => mret t | _ => throw TypeError end.

Definition read_parts (l : loc) : M (list Part) :=
  c ← read l; match c with CParts ps => mret ps | _ => throw TypeError end.

(** [xs[i]] followed by a property access: reading a property of
    [undefined] throws. *)
Definition index {A} (xs : list A) (i : nat) : M A :=
  match xs !! i with
  | Some x => mret x
  | None => throw TypeError
  end.

(** [x!] followed by a property access. *)
Definition nonnull {A} (x : option A) : M A :=
  match x with
  | Some a => mret a
  | None => throw TypeError
  end.

(** [for (let i = n - 1; i >= 0; i--) body] over a loop state. *)
Fixpoint for_down {S} (n : nat) (body : nat -> S -> M S) (st : S) : M S :=
  match n with
  | O => mret st
  | S i => st' ← body i st; for_down i body st'
  end.

(** [for (const x of xs) body] over a loop state. *)
Fixpoint for_each {A S} (xs : list A) (body : A -> S -> M S) (st : S) : M S :=
  match xs with
  | [] => mret st
  | x :: xs' => st' ← body x st; for_each xs' body st'
  end.

(** ** getObservationContent, isAlreadyMasked *)

Definition is_string (v : jsval) : option string :=
  match v with
  | JString s => Some s
  | _ => None
  end.

(** [k in m && typeof m[k] === 'string'], with the string. *)
Definition string_at (m : gmap string jsval) (k : string) : option string :=
  m !! k ≫= is_string.

Definition getObservationContent (part : Part) : option string :=
  match functionResponse part with
  | None => None
  | Some fr =>
      match fr_response fr with
      | PAbsent => None
      | PString s => if decide (s = EmptyString) then None else Some s
      | PRecord m =>
          match string_at m "output" with
          | Some s => Some s
          | None =>
          match string_at m "result" with
          | Some s => Some s
          | None =>
          match string_at m "stdout" with
          | Some s => Some s
          | None => string_at m "content"
          end end end
      end
  end.

Definition isAlreadyMasked (content : string) : bool :=
  JsString.includes content MASKED_MARKER.

(** ** The service *)

Record PrunablePart := {
  contentIndex : nat;
  partIndex : nat;
  tokens : Z;
  content : string;
}.

(** The variables of the backward scan. *)
Record scan_state := {
  cumulativeToolTokens : Z;
  protectionBoundaryReached : bool;
  totalPrunableTokens : Z;
  prunableParts : list PrunablePart;
}.

Definition scan_init : scan_state :=
  {| cumulativeToolTokens := 0; protectionBoundaryReached := false;
     totalPrunableTokens := 0; prunableParts := [] |}.

Record MaskingResult := {
  newHistory : loc;
  maskedCount : Z;
  tokensSaved : Z;
}.

(** [config.storage.getHistoryDir()] *)
Record Config := {
  historyDir : string;
}.

(** The accounting of one qualifying part (lines 71 to 92). *)
Definition account (i j : nat) (observationContent : string) (partTokens : Z)
  (st : scan_state) : scan_state :=
  let item := {| contentIndex := i; partIndex := j; tokens := partTokens;
                 content := observationContent |} in
  if negb (protectionBoundaryReached st) then
    let cumulative := cumulativeToolTokens st + partTokens in
    if cumulative >? TOOL_PROTECTION_THRESHOLD then
      {| cumulativeToolTokens := cumulative;
         protectionBoundaryReached := true;
         totalPrunableTokens := totalPrunableTokens st + partTokens;
         prunableParts := prunableParts st ++ [item] |}
    else
      {| cumulativeToolTokens := cumulative;
         protectionBoundaryReached := false;
         totalPrunableTokens := totalPrunableTokens st;
         prunableParts := prunableParts st |}
  else
    {| cumulativeToolTokens := cumulativeToolTokens st;
       protectionBoundaryReached := true;
       totalPrunableTokens := totalPrunableTokens st + partTokens;
       prunableParts := prunableParts st ++ [item] |}.

(** [(part.functionResponse.response as Record<string, unknown>) || {}] *)
Definition response_or_empty (r : payload) : payload :=
  match r with
  | PAbsent => PRecord ∅
  | PString s => if decide (s = EmptyString) then PRecord ∅ else PString s
  | PRecord m => PRecord m
  end.

(** [response[k]]: a missing property reads as [undefined], and so does
    any property of a string that is not an index or [length]. *)
Definition payload_get (r : payload) (k : string) : jsval :=
  match r with
  | PRecord m => default JUndefined (m !! k)
  | _ => JUndefined
  end.

(** [v?.toString()] *)
Definition opt_toString (v : jsval) : option string :=
  match v with
  | JUndefined | JNull => None
  | JBool b => Some (if b then "true" else "false")
  | JNumber n => Some (JsString.toString n)
  | JString s => Some s
  | JObject repr => Some repr
  end.

(** The payload of the rewritten part (lines 146 to 162). *)
Definition newResponse (originalResponse : payload) (maskedSnippet : string) : payload :=
  match originalResponse with
  | PString _ => PString maskedSnippet
  | PAbsent => PRecord (<["output" := JString maskedSnippet]> ∅)
  | PRecord m =>
      if decide (is_Some (m !! "output")) then PRecord (<["output" := JString maskedSnippet]> m)
      else if decide (is_Some (m !! "result")) then PRecord (<["result" := JString maskedSnippet]> m)
      else if decide (is_Some (m !! "stdout")) then PRecord (<["stdout" := JString maskedSnippet]> m)
      else if decide (is_Some (m !! "content")) then PRecord (<["content" := JString maskedSnippet]> m)
      else PRecord (<["output" := JString maskedSnippet]> m)
  end.

(** [{ ...part, functionResponse: { ...part.functionResponse, response } }] *)
Definition with_response (part : Part) (fr : FunctionResponse) (response : payload) : Part :=
  {| functionResponse :=
       Some {| fr_name := fr_name fr; fr_response := response; fr_rest := fr_rest fr |};
     part_rest := part_rest part |}.

(** The collaborators of the service: the token estimator of
    [utils/tokenCalculation], [path.join], and the outside world, asked for
    the time, for a random suffix
    ([Math.random().toString(36).substring(7)]) and for the success of a
    file-system call; the argument is the number of earlier questions. *)
Record World := {
  estimateTokenCountSync : list Part -> Z;
  path_join : string -> string -> string;
  Date_now : nat -> Z;
  Math_random_suffix : nat -> string;
  fs_succeeds : nat -> bool;
}.

Section Service.

Variable W : World.

Definition estimate (ps : list Part) : M Z :=
  emit (EvEstimate ps);; mret (estimateTokenCountSync W ps).

(** [await fsPromises.mkdir(dir, { recursive: true })] *)
Definition mkdir (dir : string) : M unit :=
  t ← tick;
  emit (EvMkdir dir (fs_succeeds W t));;
  if fs_succeeds W t then mret tt else throw IOError.

(** [await fsPromises.writeFile(path, content, 'utf-8')] *)
Definition writeFile (path content : string) : M unit :=
  t ← tick;
  emit (EvWriteFile path content (fs_succeeds W t));;
  if fs_succeeds W t then mret tt else throw IOError.

(** The body of the inner loop of the scan (lines 59 to 92). *)
Definition scan_part (i j : nat) (part : Part) (st : scan_state) : M scan_state :=
  match functionResponse part with
  | None => mret st
  | Some _ =>
      match getObservationContent part with
      | None => mret st
      | Some observationContent =>
          if decide (observationContent = EmptyString) then mret st
          else if isAlreadyMasked observationContent then mret st
          else
            partTokens ← estimate [part];
            mret (account i j observationContent partTokens st)
      end
  end.

(** Step 1: the backward scan (lines 54 to 94). *)
Definition scan (history : loc) (len : nat) : M scan_state :=
  for_down len (fun i st =>
    turns ← read_history history;
    c ← index turns i;
    content ← read_content c;
    ps ← match parts content with
         | Some pl => read_parts pl
         | None => mret []
         end;
    for_down (List.length ps) (fun j st =>
      part ← index ps j;
      scan_part i j part st) st) scan_init.

(** [arr[i] = x] on a parts array and on a history array.  Both are used
    on an index that was read just before, so the array never grows. *)
Definition set_part (arr : loc) (i : nat) (x : Part) : M unit :=
  ps ← read_parts arr; store arr (CParts (<[i := x]> ps)).

Definition set_turn (arr : loc) (i : nat) (x : loc) : M unit :=
  ts ← read_history arr; store arr (CHistory (<[i := x]> ts)).

(** [`${toolName}`] and [toolName ?? 'unknown_tool'] *)
Definition template (toolName : option string) : string := default "undefined" toolName.
Definition tool_or_unknown (toolName : option string) : string := default "unknown_tool" toolName.

(** The path of the offload file (lines 121 to 129). *)
Definition offload_path (observationDir : string) (fr : FunctionResponse) : M string :=
  let toolName := fr_name fr in
  let response := response_or_empty (fr_response fr) in
  callId ← match opt_toString (payload_get response "callId") with
           | Some id => if decide (id = EmptyString)
                        then (t ← tick; mret (JsString.toString (Date_now W t)))
                        else mret id
           | None => t ← tick; mret (JsString.toString (Date_now W t))
           end;
  t ← tick;
  let fileName := template toolName +:+ "_" +:+ callId +:+ "_"
                  +:+ Math_random_suffix W t +:+ ".txt" in
  mret (path_join W observationDir fileName).

(** The body of the masking loop (lines 115 to 174). *)
Definition mask_item (observationDir : string) (newHistory : loc)
  (item : PrunablePart) (actualTokensSaved : Z) : M Z :=
  turns ← read_history newHistory;
  c ← index turns (contentIndex item);
  contentRecord ← read_content c;
  pl ← nonnull (parts contentRecord);
  ps ← read_parts pl;
  part ← index ps (partIndex item);
  match functionResponse part with
  | None => mret actualTokensSaved
  | Some fr =>
      let toolName := fr_name fr in
      filePath ← offload_path observationDir fr;
      writeFile filePath (content item);;
      let maskedSnippet :=
        formatMaskedSnippet (content item) filePath (tool_or_unknown toolName) (tokens item) in
      ps' ← read_parts pl;
      newParts ← alloc (CParts ps');
      let originalResponse := response_or_empty (fr_response fr) in
      set_part newParts (partIndex item)
        (with_response part fr (newResponse originalResponse maskedSnippet));;
      c' ← alloc (CContent {| role := role contentRecord; parts := Some newParts |});
      set_turn newHistory (contentIndex item) c';;
      ps'' ← read_parts newParts;
      p ← index ps'' (partIndex item);
      newTaskTokens ← estimate [p];
      mret (actualTokensSaved + (tokens item - newTaskTokens))
  end.

Definition trigger_message (totalPrunable : Z) : string :=
  "[ObservationMasking] Triggering masking. Prunable tool tokens: "
  +:+ JsString.toLocaleString totalPrunable +:+ " (> "
  +:+ JsString.toLocaleString HYSTERESIS_THRESHOLD +:+ ")".

Definition summary_message (n saved : Z) : string :=
  "[ObservationMasking] Masked " +:+ JsString.toString n +:+ " tool outputs. Saved ~"
  +:+ JsString.toLocaleString saved +:+ " tokens.".

(** [ObservationMaskingService.mask] *)
Definition mask (history : loc) (config : Config) : M MaskingResult :=
  ts ← read_history history;
  if decide (List.length ts = 0%nat) then
    mret {| newHistory := history; maskedCount := 0; tokensSaved := 0 |}
  else
    sc ← scan history (List.length ts);
    if totalPrunableTokens sc <? HYSTERESIS_THRESHOLD then
      mret {| newHistory := history; maskedCount := 0; tokensSaved := 0 |}
    else
      emit (EvDebugLog (trigger_message (totalPrunableTokens sc)));;
      ts' ← read_history history;
      newHistory ← alloc (CHistory ts');
      let observationDir := path_join W (historyDir config) OBSERVATION_DIR in
      mkdir observationDir;;
      actualTokensSaved ← for_each (prunableParts sc) (mask_item observationDir newHistory) 0;
      let n := Z.of_nat (List.length (prunableParts sc)) in
      emit (EvDebugLog (summary_message n actualTokensSaved));;
      emit (EvTelemetry (totalPrunableTokens sc)
              (totalPrunableTokens sc - actualTokensSaved) n (totalPrunableTokens sc));;
      mret {| newHistory := newHistory; maskedCount := n; tokensSaved := actualTokensSaved |}.

End Service.

(** * Vocabulary of the specification *)

(** [c] does not occur in [s]. *)
Fixpoint free_of (c : ascii) (s : string) : bool :=
  match s with
  | EmptyString => true
  | String a s' => negb (Ascii.eqb a c) && free_of c s'
  end.

(** The number of occurrences of [c] in [s]. *)
Fixpoint count_char (c : ascii) (s : string) : nat :=
  match s with
  | EmptyString => O
  | String a s' => ((if Ascii.eqb a c then 1 else 0) + count_char c s')%nat
  end.

(** A string that is one line: splitting it at line ends gives it back. *)
Definition single_line (s : string) : Prop := JsString.split s JsString.newline = [s].

(** The three figures of the banner and of the guidance block. *)
Definition line_count (content : string) : string :=
  JsString.toLocaleString (Z.of_nat (S (count_char JsString.newline content))).
Definition file_size (content : string) : string :=
  JsString.toFixed2 (JsString.byteLength content) (1024 * 1024).
Definition token_count (totalTokens : Z) : string :=
  JsString.toLocaleString totalTokens.

(** The history as the service reads it through the store: the parts of
    every turn, oldest turn first ([content.parts || []] for a turn without
    parts).  [None] when the store does not hold a history at [history]. *)
Definition turn_view (h : heap) (c : loc) : option (list Part) :=
  match h !! c with
  | Some (CContent t) =>
      match parts t with
      | None => Some []
      | Some pl =>
          match h !! pl with
          | Some (CParts ps) => Some ps
          | _ => None
          end
      end
  | _ => None
  end.

Definition history_view (h : heap) (history : loc) : option (list (list Part)) :=
  match h !! history with
  | Some (CHistory ts) => mapM (turn_view h) ts
  | _ => None
  end.

(** The text the scan accounts for in a part: the part is a tool
    observation, its text is not empty and does not carry the marker. *)
Definition observation (p : Part) : option string :=
  match getObservationContent p with
  | Some oc =>
      if decide (oc = EmptyString) then None
      else if isAlreadyMasked oc then None
      else Some oc
  | None => None
  end.

(** The elements of an array with their indices, last first. *)
Definition backwards {A} (xs : list A) : list (nat * A) := reverse (imap pair xs).

(** The parts of a history in the order of the scan: turns last to first,
    the parts of a turn last to first. *)
Definition scan_order (v : list (list Part)) : list (nat * nat * Part) :=
  '(i, ps) ← backwards v; '(j, p) ← backwards ps; [(i, j, p)].

(** The qualifying parts in the order of the scan, each as the record the
    scan would make of it. *)
Definition record_of (W : World) (x : nat * nat * Part) : option PrunablePart :=
  let '(i, j, p) := x in
  oc ← observation p;
  Some {| contentIndex := i; partIndex := j;
          tokens := estimateTokenCountSync W [p]; content := oc |}.

Definition observations (W : World) (v : list (list Part)) : list PrunablePart :=
  omap (record_of W) (scan_order v).

Definition total_tokens (rs : list PrunablePart) : Z :=
  foldr (fun r acc => tokens r + acc) 0 rs.

Definition position (r : PrunablePart) : nat * nat := (contentIndex r, partIndex r).

Definition position_of (x : nat * nat * Part) : nat * nat := (x.1.1, x.1.2).

(** The part of a history at a position. *)
Definition part_at (v : list (list Part)) (pos : nat * nat) : option Part :=
  ps ← v !! pos.1; ps !! pos.2.

(** The state with more events in its trace. *)
Definition log (evs : list event) (s : state) : state :=
  {| st_heap := st_heap s; st_trace := st_trace s ++ evs; st_tick := st_tick s |}.

(** The accounting of a record, and the scan of a list of records. *)
Definition account_record (st : scan_state) (r : PrunablePart) : scan_state :=
  account (contentIndex r) (partIndex r) (content r) (tokens r) st.

Definition scan_step (W : World) (x : nat * nat * Part) (st : scan_state) : scan_state :=
  match record_of W x with
  | Some r => account_record st r
  | None => st
  end.

Definition scan_records (rs : list PrunablePart) : scan_state :=
  foldl account_record scan_init rs.

(** The calls of the estimator the scan makes: one for every qualifying
    part, in the order of the scan. *)
Definition scan_events (x : nat * nat * Part) : list event :=
  match observation x.2 with
  | Some _ => [EvEstimate [x.2]]
  | None => []
  end.

Definition estimates (v : list (list Part)) : list event :=
  scan_order v ≫= scan_events.

(** The prunable total the scan arrives at on a history. *)
Definition prunable_total (W : World) (v : list (list Part)) : Z :=
  totalPrunableTokens (scan_records (observations W v)).

(** The result of a run that masks nothing. *)
Definition untouched (history : loc) : MaskingResult :=
  {| newHistory := history; maskedCount := 0; tokensSaved := 0 |}.

Definition is_estimate (e : event) : Prop := ∃ ps, e = EvEstimate ps.

Definition is_telemetry (e : event) : Prop :=
  ∃ before after count total, e = EvTelemetry before after count total.

(** The part that replaces [part] when the record [r] is offloaded to
    [filePath]. *)
Definition masked_part (part : Part) (r : PrunablePart) (filePath : string) : Part :=
  match functionResponse part with
  | Some fr =>
      with_response part fr
        (newResponse (response_or_empty (fr_response fr))
           (formatMaskedSnippet (content r) filePath (tool_or_unknown (fr_name fr))
              (tokens r)))
  | None => part
  end.

(** A history with one part replaced, and with the parts of a list of
    records, each with its offload path, masked one after the other. *)
Definition set_part_at (v : list (list Part)) (pos : nat * nat) (p : Part)
  : list (list Part) :=
  match v !! pos.1 with
  | Some ps => <[pos.1 := <[pos.2 := p]> ps]> v
  | None => v
  end.

Definition mask_at (v : list (list Part)) (rp : PrunablePart * string) : list (list Part) :=
  match part_at v (position rp.1) with
  | Some p => set_part_at v (position rp.1) (masked_part p rp.1 rp.2)
  | None => v
  end.

Definition masked_view (v : list (list Part)) (done : list (PrunablePart * string))
  : list (list Part) :=
  foldl mask_at v done.

(** What the masking of a list of records does to the outside world when
    every write succeeds, and the tokens it saves: for every record the
    file is written and the estimator is asked about the new part. *)
Fixpoint masking_events (v : list (list Part)) (done : list (PrunablePart * string))
  : list event :=
  match done with
  | [] => []
  | rp :: done' =>
      match part_at v (position rp.1) with
      | Some p => [EvWriteFile rp.2 (content rp.1) true;
                   EvEstimate [masked_part p rp.1 rp.2]]
      | None => []
      end ++ masking_events (mask_at v rp) done'
  end.

Fixpoint savings (W : World) (v : list (list Part)) (done : list (PrunablePart * string))
  : Z :=
  match done with
  | [] => 0
  | rp :: done' =>
      match part_at v (position rp.1) with
      | Some p => tokens rp.1 - estimateTokenCountSync W [masked_part p rp.1 rp.2]
      | None => 0
      end + savings W (mask_at v rp) done'
  end.

(** A record that points at a tool observation of a history. *)
Definition points_at_observation (v : list (list Part)) (r : PrunablePart) : Prop :=
  ∃ p, part_at v (position r) = Some p ∧ is_Some (functionResponse p).

(** The prunable list of a history, and the directory of the offload
    files. *)
Definition prunable_records (W : World) (v : list (list Part)) : list PrunablePart :=
  prunableParts (scan_records (observations W v)).

Definition observation_dir (W : World) (cfg : Config) : string :=
  path_join W (historyDir cfg) OBSERVATION_DIR.

(** The events of a run that masks the prunable records of [v], each
    offloaded to its path, and the result it returns. *)
Definition masking_run_events (W : World) (cfg : Config) (v : list (list Part))
  (paths : list string) : list event :=
  let done := zip (prunable_records W v) paths in
  let n := Z.of_nat (List.length (prunable_records W v)) in
  estimates v
  ++ [EvDebugLog (trigger_message (prunable_total W v));
      EvMkdir (observation_dir W cfg) true]
  ++ masking_events v done
  ++ [EvDebugLog (summary_message n (savings W v done));
      EvTelemetry (prunable_total W v) (prunable_total W v - savings W v done) n
        (prunable_total W v)].

Definition masking_result (W : World) (v : list (list Part)) (paths : list string)
  (nh : loc) : MaskingResult :=
  {| newHistory := nh;
     maskedCount := Z.of_nat (List.length (prunable_records W v));
     tokensSaved := savings W v (zip (prunable_records W v) paths) |}.

(** The key of a record payload that [getObservationContent] takes the
    text from: the first of the four that holds a string. *)
Definition text_key (m : gmap string jsval) : option string :=
  if decide (is_Some (string_at m "output")) then Some "output"
  else if decide (is_Some (string_at m "result")) then Some "result"
  else if decide (is_Some (string_at m "stdout")) then Some "stdout"
  else if decide (is_Some (string_at m "content")) then Some "content"
  else None.

(** The key that the masking step overwrites: the first of the four that
    is present, [output] when none is. *)
Definition replaced_key (m : gmap string jsval) : string :=
  if decide (is_Some (m !! "output")) then "output"
  else if decide (is_Some (m !! "result")) then "result"
  else if decide (is_Some (m !! "stdout")) then "stdout"
  else if decide (is_Some (m !! "content")) then "content"
  else "output".

(** The payload is a string, or a record whose text is under the key that
    the masking step overwrites. *)
Definition text_under_replaced_key (p : Part) : Prop :=
  match functionResponse p with
  | Some fr =>
      match fr_response fr with
      | PString _ => True
      | PRecord m => text_key m = Some (replaced_key m)
      | PAbsent => False
      end
  | None => False
  end.

(** What a record adds to [tokensSaved]: its tokens less the estimate of
    the part that stands at its position in the returned history. *)
Definition contribution (W : World) (v' : list (list Part)) (r : PrunablePart) : Z :=
  match part_at v' (position r) with
  | Some p' => tokens r - estimateTokenCountSync W [p']
  | None => 0
  end.

Definition sumZ (l : list Z) : Z := foldr Z.add 0 l.

(** The state with another store, and with the outside world asked [k]
    more times. *)
Definition with_heap (h : heap) (s : state) : state :=
  {| st_heap := h; st_trace := st_trace s; st_tick := st_tick s |}.

Definition bump (k : nat) (s : state) : state :=
  {| st_heap := st_heap s; st_trace := st_trace s; st_tick := (st_tick s + k)%nat |}.

(** The cells below [n] are the same in two stores. *)
Definition agree_below (n : nat) (h h' : heap) : Prop :=
  ∀ l, (l < n)%nat → h' !! l = h !! l.

(** A failed call of the file system among the events. *)
Definition io_failed (evs : list event) : Prop :=
  (∃ dir, EvMkdir dir false ∈ evs) ∨ (∃ path text, EvWriteFile path text false ∈ evs).

(** The files written, with their contents, in order. *)
Definition written (evs : list event) : list (string * string) :=
  omap (fun e => match e with
                 | EvWriteFile path text true => Some (path, text)
                 | _ => None
                 end) evs.

(** ** The rounds of the masking loop *)

(** [response['callId']?.toString()], when it is not the empty string: the
    call id that goes into the name of the offload file.  Without it the
    clock is asked. *)
Definition call_id_of (response : payload) : option string :=
  match opt_toString (payload_get (response_or_empty response) "callId") with
  | Some id => if decide (id = EmptyString) then None else Some id
  | None => None
  end.

(** [`${toolName}_${callId}_${suffix}.txt`] *)
Definition file_name (toolName : option string) (callId suffix : string) : string :=
  template toolName +:+ "_" +:+ callId +:+ "_" +:+ suffix +:+ ".txt".

(** The path of the offload file of a function response when the outside
    world has been asked [t] times, and the number of the question that the
    write of the file is. *)
Definition path_at (W : World) (dir : string) (fr : FunctionResponse) (t : nat) : string :=
  path_join W dir
    match call_id_of (fr_response fr) with
    | Some id => file_name (fr_name fr) id (Math_random_suffix W t)
    | None =>
        file_name (fr_name fr) (JsString.toString (Date_now W t))
          (Math_random_suffix W (S t))
    end.

Definition write_tick (fr : FunctionResponse) (t : nat) : nat :=
  match call_id_of (fr_response fr) with
  | Some _ => S t
  | None => S (S t)
  end.

(** The rounds of the masking loop over records that point at tool
    observations of [v], from the [t]-th question on: every record the loop
    comes to, with the path of its file and whether the write succeeds.  The
    loop ends with the first write that fails. *)
Fixpoint rounds (W : World) (dir : string) (v : list (list Part))
    (items : list PrunablePart) (t : nat) : list (PrunablePart * string * bool) :=
  match items with
  | [] => []
  | r :: items' =>
      match part_at v (position r) ≫= functionResponse with
      | Some fr =>
          let tw := write_tick fr t in
          (r, path_at W dir fr t, fs_succeeds W tw)
          :: (if fs_succeeds W tw then rounds W dir v items' (S tw) else [])
      | None => []
      end
  end.

(** The records whose file was written, with the paths, and the event of
    the write that failed. *)
Definition offloaded (rs : list (PrunablePart * string * bool))
  : list (PrunablePart * string) :=
  omap (fun x : PrunablePart * string * bool => if x.2 then Some x.1 else None) rs.

Definition failed_writes (rs : list (PrunablePart * string * bool)) : list event :=
  omap (fun x : PrunablePart * string * bool =>
          if x.2 then None else Some (EvWriteFile x.1.2 (content x.1.1) false)) rs.

Definition round_events (v : list (list Part)) (rs : list (PrunablePart * string * bool))
  : list event :=
  masking_events v (offloaded rs) ++ failed_writes rs.

(** What the estimator says of the part at the position of a record. *)
Definition estimate_at (W : World) (v : list (list Part)) (r : PrunablePart) : Z :=
  match part_at v (position r) with
  | Some p => estimateTokenCountSync W [p]
  | None => 0
  end.

(** * Example histories *)

Module Examples.

(** An estimator for the examples: 10,000 tokens for every character of
    every string of the payload. *)
Definition payload_chars (r : payload) : Z :=
  match r with
  | PAbsent => 0
  | PString s => JsString.length s
  | PRecord m =>
      map_fold (fun _ v acc => acc + from_option JsString.length 0 (is_string v)) 0 m
  end.

Definition part_chars (p : Part) : Z :=
  from_option (fun fr => payload_chars (fr_response fr)) 0 (functionResponse p).

Definition world (fs : nat → bool) : World :=
  {| estimateTokenCountSync := fun ps => 10000 * foldr (fun p acc => part_chars p + acc) 0 ps;
     path_join := fun a b => a +:+ "/" +:+ b;
     Date_now := fun t => 1700000000000 + Z.of_nat t;
     Math_random_suffix := fun t => "r" +:+ JsString.toString (Z.of_nat t);
     fs_succeeds := fs |}.

Definition always : nat → bool := fun _ => true.

Definition tool_part (name : string) (r : payload) : Part :=
  {| functionResponse := Some {| fr_name := Some name; fr_response := r; fr_rest := ∅ |};
     part_rest := ∅ |}.

Definition output (s : string) : payload := PRecord {[ "output" := JString s ]}.

Definition text_part (s : string) : Part :=
  {| functionResponse := None; part_rest := {[ "text" := JString s ]} |}.

Definition user (pl : loc) : cell := CContent {| role := Some "user"; parts := Some pl |}.

Definition config : Config := {| historyDir := "/h" |}.

Definition start (h : heap) : state := {| st_heap := h; st_trace := []; st_tick := 0%nat |}.

(** Two turns: an older observation of 50,000 tokens and a newer one of
    20,000 tokens.  The history array is at location 4. *)
Definition older_crosses : heap :=
  [ CParts [tool_part "tool2" (output "BBBBB")]; user 0%nat;
    CParts [tool_part "tool1" (output "AA")]; user 2%nat;
    CHistory [1; 3]%nat ].

(** The second test of the repository: an older observation of 20,000
    tokens and a newer one of 50,000. *)
Definition below_hysteresis : heap :=
  [ CParts [tool_part "tool1" (output "AA")]; user 0%nat;
    CParts [tool_part "tool2" (output "BBBBB")]; user 2%nat;
    CHistory [1; 3]%nat ].

Definition below_hysteresis_view : list (list Part) :=
  [[tool_part "tool1" (output "AA")]; [tool_part "tool2" (output "BBBBB")]].

(** Two observations of 20,000 tokens each. *)
Definition within_budget : heap :=
  [ CParts [tool_part "tool1" (output "AA")]; user 0%nat;
    CParts [tool_part "tool2" (output "BB")]; user 2%nat;
    CHistory [1; 3]%nat ].

Definition within_budget_view : list (list Part) :=
  [[tool_part "tool1" (output "AA")]; [tool_part "tool2" (output "BB")]].

(** A tool output that quotes the marker. *)
Definition quoting_part : Part :=
  tool_part "grep" (output "see [Observation Masked] x").

(** The first test of the repository in small: two older observations of
    60,000 tokens each and a newer one of 20,000.  The history array is at
    location 6. *)
Definition three_turns : heap :=
  [ CParts [tool_part "tool1" (output "AAAAAA")]; user 0%nat;
    CParts [tool_part "tool2" (output "BBBBBB")]; user 2%nat;
    CParts [tool_part "tool3" (output "CC")]; user 4%nat;
    CHistory [1; 3; 5]%nat ].

Definition three_turns_view : list (list Part) :=
  [[tool_part "tool1" (output "AAAAAA")]; [tool_part "tool2" (output "BBBBBB")];
   [tool_part "tool3" (output "CC")]].

(** A file system whose third call fails: the directory is made, the first
    file is written, the second write fails.  The outside world is asked
    for the time and for a random suffix before each write, so the third
    call of the file system is the seventh question. *)
Definition second_write_fails : nat → bool := fun t => negb (t =? 6)%nat.

(** An older turn with two observations of 60,000 tokens each and a newer
    turn with one of 20,000.  The history array is at location 4. *)
Definition two_in_one_turn : heap :=
  [ CParts [tool_part "tool1" (output "AAAAAA"); tool_part "tool2" (output "BBBBBB")];
    user 0%nat;
    CParts [tool_part "tool3" (output "CC")]; user 2%nat;
    CHistory [1; 3]%nat ].

Definition two_in_one_turn_view : list (list Part) :=
  [[tool_part "tool1" (output "AAAAAA"); tool_part "tool2" (output "BBBBBB")];
   [tool_part "tool3" (output "CC")]].

(** A text of 60,000 characters, and a history with an older observation
    of that text and a newer one of 20,000 tokens. *)
Definition long_text : string := string_of_list_ascii (repeat "A"%char (Z.to_nat 60000)).

Definition long_observation : heap :=
  [ CParts [tool_part "big" (output long_text)]; user 0%nat;
    CParts [tool_part "tool3" (output "CC")]; user 2%nat;
    CHistory [1; 3]%nat ].

Definition long_observation_view : list (list Part) :=
  [[tool_part "big" (output long_text)]; [tool_part "tool3" (output "CC")]].

(** An older observation of six characters, an observation of the text of
    60,000 characters, and a newer one of 20,000 tokens.  The history array
    is at location 6. *)
Definition short_and_long : heap :=
  [ CParts [tool_part "tool1" (output "AAAAAA")]; user 0%nat;
    CParts [tool_part "big" (output long_text)]; user 2%nat;
    CParts [tool_part "tool3" (output "CC")]; user 4%nat;
    CHistory [1; 3; 5]%nat ].

Definition short_and_long_view : list (list Part) :=
  [[tool_part "tool1" (output "AAAAAA")]; [tool_part "big" (output long_text)];
   [tool_part "tool3" (output "CC")]].

(** A payload whose [output] is a number and whose text is under [result]:
    an older observation of 60,000 tokens, and a newer one of 20,000. *)
Definition numeric_output : payload :=
  PRecord {[ "output" := JNumber 42; "result" := JString "AAAAAA" ]}.

Definition text_under_result : heap :=
  [ CParts [tool_part "tool1" numeric_output]; user 0%nat;
    CParts [tool_part "tool3" (output "CC")]; user 2%nat;
    CHistory [1; 3]%nat ].

Definition text_under_result_view : list (list Part) :=
  [[tool_part "tool1" numeric_output]; [tool_part "tool3" (output "CC")]].

Definition older_crosses_view : list (list Part) :=
  [[tool_part "tool2" (output "BBBBB")]; [tool_part "tool1" (output "AA")]].

(** The record the scan makes of the observation [{ output: "AAAAAA" }]
    at position (0, 0). *)
Definition short_record : PrunablePart :=
  {| contentIndex := 0; partIndex := 0; tokens := 60000; content := "AAAAAA" |}.

(** Two runs on three turns, the second on what the first returned. *)
Definition first_run : outcome MaskingResult * state :=
  mask (world always) 6%nat config (start three_turns).

Definition second_run : outcome MaskingResult * state :=
  mask (world always) 7%nat config first_run.2.

(** The keys of the record payloads of a history, with their values. *)
Definition payloads (v : list (list Part)) : list (list (string * jsval)) :=
  omap (fun p => match functionResponse p with
                 | Some fr => match fr_response fr with
                              | PRecord m => Some (map_to_list m)
                              | _ => None
                              end
                 | None => None
                 end) (concat v).

End Examples.

(** * Proofs *)

(** ** Strings *)

Module StringFacts.

Lemma app_cons c s t : String c s +:+ t = String c (s +:+ t).
Proof. reflexivity. Qed.

Lemma app_nil_l s : EmptyString +:+ s = s.
Proof. reflexivity. Qed.

Lemma app_nil_r s : s +:+ EmptyString = s.
Proof. induction s as [|c s IH]; [done|]. by rewrite app_cons, IH. Qed.

Lemma app_assoc s t u : (s +:+ t) +:+ u = s +:+ (t +:+ u).
Proof. induction s as [|c s IH]; [done|]. by rewrite !app_cons, IH. Qed.

Lemma length_app s t :
  String.length (s +:+ t) = (String.length s + String.length t)%nat.
Proof. induction s as [|c s IH]; [done|]. rewrite app_cons. simpl. by rewrite IH. Qed.

Lemma substring_nil n m : substring n m EmptyString = EmptyString.
Proof. by destruct n, m. Qed.

Lemma length_substring s : ∀ n m,
  (n + m ≤ String.length s)%nat → String.length (substring n m s) = m.
Proof.
  induction s as [|c s IH]; intros n m Hle; simpl in Hle.
  - assert (m = 0%nat) as -> by lia. by rewrite substring_nil.
  - destruct n as [|n]; simpl.
    + destruct m as [|m]; [done|]. simpl. rewrite IH; [done|lia].
    + apply IH. lia.
Qed.

Lemma substring_all s : substring 0 (String.length s) s = s.
Proof. induction s as [|c s IH]; [done|]. simpl. by rewrite IH. Qed.

(** A string is its first [n] characters followed by the rest. *)
Lemma substring_take_drop s : ∀ n,
  (n ≤ String.length s)%nat →
  s = substring 0 n s +:+ substring n (String.length s - n) s.
Proof.
  induction s as [|c s IH]; intros n Hle; simpl in Hle.
  - by rewrite !substring_nil.
  - destruct n as [|n].
    + rewrite Nat.sub_0_r, substring_all. reflexivity.
    + simpl. rewrite app_cons. f_equal. apply IH. lia.
Qed.

(** A substring splits at any point. *)
Lemma substring_add s : ∀ n m k,
  substring n (m + k) s = substring n m s +:+ substring (n + m) k s.
Proof.
  induction s as [|c s IH]; intros n m k.
  - by rewrite !substring_nil.
  - destruct n as [|n]; simpl.
    + destruct m as [|m]; simpl; [done|].
      rewrite app_cons. f_equal. apply (IH 0%nat).
    + apply IH.
Qed.

Lemma prefix_app pat s : String.prefix pat (pat +:+ s) = true.
Proof.
  induction pat as [|c pat IH].
  - by destruct s.
  - rewrite app_cons. simpl. destruct (ascii_dec c c); [done|congruence].
Qed.

Lemma prefix_inv pat : ∀ s, String.prefix pat s = true → ∃ t, s = pat +:+ t.
Proof.
  induction pat as [|c pat IH]; intros s H.
  - by exists s.
  - destruct s as [|c' s]; simpl in H; [done|].
    destruct (ascii_dec c c') as [->|]; [|done].
    destruct (IH _ H) as [t ->]. by exists t.
Qed.

Lemma includes_nil pat :
  JsString.includes EmptyString pat = String.prefix pat EmptyString || false.
Proof. reflexivity. Qed.

Lemma includes_cons c s pat :
  JsString.includes (String c s) pat
  = String.prefix pat (String c s) || JsString.includes s pat.
Proof. reflexivity. Qed.

(** [includes] is containment as a substring. *)
Lemma includes_spec s pat :
  JsString.includes s pat = true ↔ ∃ a b, s = a +:+ pat +:+ b.
Proof.
  split.
  - induction s as [|c s IH]; intros H.
    + rewrite includes_nil in H. apply orb_true_iff in H as [H|]; [|done].
      destruct (prefix_inv _ _ H) as [t ->]. by exists EmptyString, t.
    + rewrite includes_cons in H. apply orb_true_iff in H as [H|H].
      * destruct (prefix_inv _ _ H) as [t ->]. by exists EmptyString, t.
      * destruct (IH H) as (a & b & ->). by exists (String c a), b.
  - intros (a & b & ->). induction a as [|c a IH].
    + rewrite app_nil_l. destruct (pat +:+ b) as [|c t] eqn:E.
      * rewrite includes_nil, <- E, prefix_app. done.
      * rewrite includes_cons, <- E, prefix_app. done.
    + rewrite app_cons, includes_cons, IH. apply orb_true_r.
Qed.

Lemma includes_prefix pat t : JsString.includes (pat +:+ t) pat = true.
Proof. apply includes_spec. by exists EmptyString, t. Qed.

Lemma includes_app_l s t pat :
  JsString.includes s pat = true → JsString.includes (s +:+ t) pat = true.
Proof.
  rewrite !includes_spec. intros (a & b & ->). exists a, (b +:+ t).
  by rewrite !app_assoc.
Qed.

Lemma includes_app_r s t pat :
  JsString.includes t pat = true → JsString.includes (s +:+ t) pat = true.
Proof.
  rewrite !includes_spec. intros (a & b & ->). exists (s +:+ a), b.
  by rewrite !app_assoc.
Qed.

End StringFacts.

Module SnippetFacts.
Import StringFacts.

Lemma free_of_app c s t : free_of c (s +:+ t) = free_of c s && free_of c t.
Proof.
  induction s as [|a s IH]; [done|].
  rewrite app_cons. simpl. by rewrite IH, andb_assoc.
Qed.

Lemma split_free_of sep s : free_of sep s = true → JsString.split s sep = [s].
Proof.
  induction s as [|a s IH]; [done|]. simpl.
  intros [Ha Hs]%andb_true_iff. apply negb_true_iff in Ha. rewrite Ha.
  by rewrite (IH Hs).
Qed.

Lemma split_length s sep :
  List.length (JsString.split s sep) = S (count_char sep s).
Proof.
  induction s as [|a s IH]; [done|]. simpl.
  destruct (Ascii.eqb a sep); simpl; [by rewrite IH|].
  destruct (JsString.split s sep) as [|l ls]; simpl in *; lia.
Qed.

Lemma free_of_list c l :
  free_of c (string_of_list_ascii l) = forallb (fun a => negb (Ascii.eqb a c)) l.
Proof. induction l as [|a l IH]; [done|]. simpl. by rewrite IH. Qed.

Lemma free_of_uint d : free_of JsString.newline (NilEmpty.string_of_uint d) = true.
Proof. induction d; simpl; auto. Qed.

Lemma free_of_digits n : free_of JsString.newline (JsString.digits n) = true.
Proof.
  unfold JsString.digits, NilZero.string_of_uint.
  destruct (N.to_uint (Z.to_N n)); try apply (free_of_uint (_ _)); done.
Qed.

Lemma forallb_group_rev (P : ascii → bool) l : ∀ k,
  P (ascii_of_nat 44) = true → forallb P l = true →
  forallb P (JsString.group_rev l k) = true.
Proof.
  induction l as [|a l IH]; intros k Hc Hl; [done|].
  simpl in Hl. apply andb_true_iff in Hl as [Ha Hl].
  destruct k; simpl; rewrite ?Hc, Ha; simpl; by apply IH.
Qed.

Lemma forallb_rev {A} (P : A → bool) l : forallb P (rev l) = forallb P l.
Proof.
  induction l as [|a l IH]; [done|]. simpl.
  rewrite forallb_app, IH. simpl. rewrite andb_true_r. apply andb_comm.
Qed.

Lemma free_of_group ds :
  free_of JsString.newline ds = true →
  free_of JsString.newline (JsString.group_thousands ds) = true.
Proof.
  intros H. unfold JsString.group_thousands.
  rewrite free_of_list, forallb_rev. apply forallb_group_rev; [done|].
  rewrite forallb_rev, <- free_of_list. by rewrite string_of_list_ascii_of_string.
Qed.

Lemma free_of_toLocaleString n :
  free_of JsString.newline (JsString.toLocaleString n) = true.
Proof.
  unfold JsString.toLocaleString. destruct (n <? 0).
  - rewrite free_of_app. simpl. apply free_of_group, free_of_digits.
  - apply free_of_group, free_of_digits.
Qed.

Lemma free_of_toFixed2 num den :
  free_of JsString.newline (JsString.toFixed2 num den) = true.
Proof.
  unfold JsString.toFixed2, JsString.two_digits.
  rewrite !free_of_app, free_of_digits. simpl.
  destruct (_ <? 10); rewrite ?free_of_app, free_of_digits; done.
Qed.

(** The banner is one line whatever the figures. *)
Lemma banner_single_line content totalTokens :
  single_line (banner (line_count content) (file_size content) (token_count totalTokens)).
Proof.
  apply split_free_of. unfold banner, line_count, file_size, token_count.
  rewrite !free_of_app, !free_of_toLocaleString, free_of_toFixed2. done.
Qed.

(** The banner gives the three figures, and the guidance block names the
    tool and the file and gives the figures too. *)
Lemma banner_figures lines size toks :
  Forall (fun x => JsString.includes (banner lines size toks) x = true)
    [lines; size; toks].
Proof.
  unfold banner. repeat constructor;
    repeat first [apply includes_prefix | apply includes_app_r].
Qed.

Lemma guidance_names toolName filePath lines size toks :
  Forall (fun x => JsString.includes (guidance toolName filePath lines size toks) x = true)
    [toolName; filePath; lines; size; toks].
Proof.
  unfold guidance. repeat constructor;
    repeat first [apply includes_prefix | apply includes_app_r].
Qed.

(** [toFixed2] prints the hundredths nearest to [num / den], the larger
    on a tie. *)
Lemma hundredths_nearest num den :
  0 < den →
  2 * den * JsString.hundredths num den ≤ 200 * num + den
  < 2 * den * (JsString.hundredths num den + 1).
Proof.
  intros Hden. unfold JsString.hundredths.
  pose proof (Z.div_mod (200 * num + den) (2 * den) ltac:(lia)) as Hdm.
  pose proof (Z.mod_pos_bound (200 * num + den) (2 * den) ltac:(lia)) as Hb.
  lia.
Qed.

End SnippetFacts.

Module SliceFacts.
Import StringFacts.

(** [s.slice(0, n)] is the first [n] characters. *)
Lemma slice_head s n :
  0 ≤ n ≤ JsString.length s →
  JsString.slice s 0 (Some n) = substring 0 (Z.to_nat n) s.
Proof.
  intros Hn. unfold JsString.slice, JsString.clamp.
  change (0 <? 0) with false. cbv iota.
  destruct (n <? 0) eqn:E; [lia|].
  rewrite Z.min_l, Z.min_l by lia. rewrite Z.sub_0_r. done.
Qed.

(** [s.slice(-n)] is the last [n] characters. *)
Lemma slice_tail s n :
  0 < n ≤ JsString.length s →
  JsString.slice s (- n) None
  = substring (Z.to_nat (JsString.length s - n)) (Z.to_nat n) s.
Proof.
  intros Hn. unfold JsString.slice, JsString.clamp.
  destruct (- n <? 0) eqn:E; [|lia].
  rewrite Z.max_l by lia. do 2 f_equal; lia.
Qed.

(** A string longer than [2 n] is its first [n] characters, a middle and
    its last [n] characters. *)
Lemma head_middle_tail s n :
  0 < n → 2 * n ≤ JsString.length s →
  ∃ middle,
    s = JsString.slice s 0 (Some n) +:+ middle +:+ JsString.slice s (- n) None ∧
    JsString.length (JsString.slice s 0 (Some n)) = n ∧
    JsString.length (JsString.slice s (- n) None) = n.
Proof.
  intros Hpos Hlen. unfold JsString.length in Hlen.
  rewrite slice_head, slice_tail by (unfold JsString.length; lia).
  unfold JsString.length.
  set (k := Z.to_nat n).
  set (len := String.length s) in *.
  assert (2 * k ≤ len)%nat as Hk by lia.
  replace (Z.to_nat (Z.of_nat len - n)) with (k + (len - 2 * k))%nat by lia.
  exists (substring k (len - 2 * k) s). split; [|split].
  - rewrite <- substring_add.
    replace (len - 2 * k + k)%nat with (len - k)%nat by lia.
    apply substring_take_drop. fold len. lia.
  - rewrite length_substring by (fold len; lia). lia.
  - rewrite length_substring by (fold len; lia). lia.
Qed.

End SliceFacts.

Lemma snippet_short content filePath toolName totalTokens :
  JsString.length content ≤ 50000 →
  formatMaskedSnippet content filePath toolName totalTokens = content.
Proof.
  intros Hlen. unfold formatMaskedSnippet. change (charLimit * 5 / 2) with 50000.
  by destruct (JsString.length content <=? 50000) eqn:E; [|lia].
Qed.

Lemma snippet_long content filePath toolName totalTokens :
  50000 < JsString.length content →
  formatMaskedSnippet content filePath toolName totalTokens
  = MASKED_MARKER +:+ JsString.nl +:+ JsString.slice content 0 (Some 20000)
    +:+ JsString.nl
    +:+ banner (line_count content) (file_size content) (token_count totalTokens)
    +:+ JsString.nl +:+ JsString.slice content (- 20000) None +:+ JsString.nl
    +:+ JsString.nl
    +:+ guidance toolName filePath
          (line_count content) (file_size content) (token_count totalTokens).
Proof.
  intros Hlen. unfold formatMaskedSnippet.
  change (charLimit * 5 / 2) with 50000. change charLimit with 20000.
  destruct (JsString.length content <=? 50000) eqn:E; [lia|].
  unfold line_count, file_size, token_count. by rewrite SnippetFacts.split_length.
Qed.

(** A truncated observation carries the marker. *)
Lemma snippet_marked content filePath toolName totalTokens :
  50000 < JsString.length content →
  isAlreadyMasked (formatMaskedSnippet content filePath toolName totalTokens) = true.
Proof.
  intros Hlen. rewrite snippet_long by done. apply StringFacts.includes_prefix.
Qed.

Lemma snippet_nonempty content filePath toolName totalTokens :
  content ≠ EmptyString →
  formatMaskedSnippet content filePath toolName totalTokens ≠ EmptyString.
Proof.
  intros Hne. destruct (decide (JsString.length content ≤ 50000)).
  - by rewrite snippet_short.
  - rewrite snippet_long by lia. done.
Qed.

(** C3. The replacement snippet is the original text when the content has
    at most 50,000 characters (2.5 times the limit of 20,000).  Otherwise it
    is the masked marker, the first 20,000 characters of the content, a
    banner of one line giving the line count, the file size in MiB with two
    decimals and the estimated tokens, the last 20,000 characters of the
    content, and the guidance block with the tool name, the file path and
    the same three figures. *)
Theorem formatMaskedSnippet_spec (content filePath toolName : string) (totalTokens : Z) :
  (JsString.length content ≤ 50000 →
     formatMaskedSnippet content filePath toolName totalTokens = content) ∧
  (50000 < JsString.length content →
     ∃ head middle tail b g,
       content = head +:+ middle +:+ tail ∧
       JsString.length head = 20000 ∧
       JsString.length tail = 20000 ∧
       b = banner (line_count content) (file_size content) (token_count totalTokens) ∧
       single_line b ∧
       Forall (fun x => JsString.includes b x = true)
         [line_count content; file_size content; token_count totalTokens] ∧
       g = guidance toolName filePath
             (line_count content) (file_size content) (token_count totalTokens) ∧
       Forall (fun x => JsString.includes g x = true)
         [toolName; filePath; line_count content; file_size content;
          token_count totalTokens] ∧
       formatMaskedSnippet content filePath toolName totalTokens
       = MASKED_MARKER +:+ JsString.nl +:+ head +:+ JsString.nl +:+ b +:+ JsString.nl
         +:+ tail +:+ JsString.nl +:+ JsString.nl +:+ g).
Proof.
  split; intros Hlen.
  - by apply snippet_short.
  - destruct (SliceFacts.head_middle_tail content 20000) as (middle & Hc & Hh & Ht);
      [lia..|].
    eexists _, middle, _, _, _.
    split; [exact Hc|]. split; [exact Hh|]. split; [exact Ht|].
    split; [reflexivity|]. split; [apply SnippetFacts.banner_single_line|].
    split; [apply SnippetFacts.banner_figures|].
    split; [reflexivity|]. split; [apply SnippetFacts.guidance_names|].
    by apply snippet_long.
Qed.

(** C3 at a text of four characters and at one of 60,000. *)
Lemma formatMaskedSnippet_spec_witness :
  formatMaskedSnippet "text" "/h/observations/t_1_x.txt" "t" 1 = "text" ∧
  JsString.includes
    (formatMaskedSnippet Examples.long_text "/h/observations/t_1_x.txt" "t" 60000)
    MASKED_MARKER = true.
Proof.
  split.
  - apply (proj1 (formatMaskedSnippet_spec "text" "/h/observations/t_1_x.txt" "t" 1)).
    vm_compute. discriminate.
  - destruct (proj2 (formatMaskedSnippet_spec Examples.long_text "/h/observations/t_1_x.txt" "t" 60000))
      as (head & middle & tail & b & g & _ & _ & _ & _ & _ & _ & _ & _ & ->).
    + vm_compute. reflexivity.
    + apply StringFacts.includes_prefix.
Defined.

(** ** The monad and the loops *)

Lemma bind_ok {A B} (m : M A) (f : A → M B) s a s' :
  m s = (Ok a, s') → (m ≫= f) s = f a s'.
Proof. intros H. unfold mbind, M_bind. by rewrite H. Qed.

Lemma bind_throw {A B} (m : M A) (f : A → M B) s e s' :
  m s = (Throw e, s') → (m ≫= f) s = (Throw e, s').
Proof. intros H. unfold mbind, M_bind. by rewrite H. Qed.

Lemma bind_inv {A B} (m : M A) (f : A → M B) s r s' :
  (m ≫= f) s = (r, s') →
  (∃ a s1, m s = (Ok a, s1) ∧ f a s1 = (r, s')) ∨
  (∃ e, m s = (Throw e, s') ∧ r = Throw e).
Proof.
  unfold mbind, M_bind. destruct (m s) as [[a|e] s1]; intros H.
  - left. eauto.
  - right. exists e. by simplify_eq.
Qed.

(** A run is its result and its final state. *)
Lemma run_returns {A} (m : M A) s a : (m s).1 = Ok a → m s = (Ok a, (m s).2).
Proof. destruct (m s) as [r s']. simpl. by intros ->. Qed.

Lemma log_nil s : log [] s = s.
Proof. destruct s. unfold log. simpl. by rewrite app_nil_r. Qed.

Lemma log_log a b s : log b (log a s) = log (a ++ b) s.
Proof. unfold log. simpl. by rewrite app_assoc. Qed.

Lemma emit_log e s : emit e s = (Ok tt, log [e] s).
Proof. reflexivity. Qed.

Lemma index_ok {A} (xs : list A) i x s : xs !! i = Some x → index xs i s = (Ok x, s).
Proof. intros H. unfold index. by rewrite H. Qed.

Lemma read_history_ok s l ts :
  st_heap s !! l = Some (CHistory ts) → read_history l s = (Ok ts, s).
Proof. intros H. unfold read_history, read, mbind, M_bind. by rewrite H. Qed.

Lemma read_content_ok s l t :
  st_heap s !! l = Some (CContent t) → read_content l s = (Ok t, s).
Proof. intros H. unfold read_content, read, mbind, M_bind. by rewrite H. Qed.

Lemma read_parts_ok s l ps :
  st_heap s !! l = Some (CParts ps) → read_parts l s = (Ok ps, s).
Proof. intros H. unfold read_parts, read, mbind, M_bind. by rewrite H. Qed.

Lemma backwards_snoc {A} (xs : list A) x :
  backwards (xs ++ [x]) = (List.length xs, x) :: backwards xs.
Proof.
  unfold backwards. rewrite imap_app, reverse_app. simpl.
  by rewrite Nat.add_0_r.
Qed.

Lemma backwards_take_S {A} (xs : list A) n x :
  xs !! n = Some x → backwards (take (S n) xs) = (n, x) :: backwards (take n xs).
Proof.
  intros H. rewrite (take_S_r _ _ _ H), backwards_snoc.
  rewrite length_take_le; [done|]. apply lookup_lt_Some in H. lia.
Qed.

(** A backward loop over an array whose body, at every element, returns a
    function of the loop state and only adds events: the loop folds these
    functions over the array, last element first. *)
Lemma for_down_array {A S} (xs : list A) (body : nat → S → M S)
    (g : nat * A → S → S) (ev : nat * A → list event) (h : heap) :
  (∀ i x st s, xs !! i = Some x → st_heap s = h →
     body i st s = (Ok (g (i, x) st), log (ev (i, x)) s)) →
  ∀ n st s, (n ≤ List.length xs)%nat → st_heap s = h →
    for_down n body st s
    = (Ok (foldl (fun st ix => g ix st) st (backwards (take n xs))),
       log (backwards (take n xs) ≫= ev) s).
Proof.
  intros Hbody. induction n as [|n IH]; intros st s Hn Hs.
  - rewrite take_0. simpl. by rewrite log_nil.
  - destruct (lookup_lt_is_Some_2 xs n ltac:(lia)) as [x Hx].
    rewrite (backwards_take_S _ _ _ Hx). simpl.
    rewrite (bind_ok _ _ _ _ _ (Hbody n x st s Hx Hs)).
    rewrite IH by (done || lia). by rewrite log_log.
Qed.

(** ** The backward scan *)

Section ScanFacts.

Variable W : World.

Lemma scan_part_spec i j p st s :
  scan_part W i j p st s = (Ok (scan_step W (i, j, p) st), log (scan_events (i, j, p)) s).
Proof.
  unfold scan_part, scan_step, scan_events, record_of, observation,
    getObservationContent. simpl.
  destruct (functionResponse p) as [fr|]; [|by rewrite log_nil].
  match goal with |- context [match ?o with Some _ => _ | None => mret st end] =>
    destruct o as [oc|] end; [|by rewrite log_nil].
  destruct (decide (oc = EmptyString)); [by rewrite log_nil|].
  destruct (isAlreadyMasked oc); [by rewrite log_nil|].
  simpl. unfold estimate.
  unfold mbind at 1, M_bind.
  unfold mbind at 1, M_bind. rewrite emit_log. reflexivity.
Qed.

Lemma foldl_ext {A S} (f g : S → A → S) l :
  (∀ st x, f st x = g st x) → ∀ st, foldl f st l = foldl g st l.
Proof.
  intros H. induction l as [|x l IH]; intros st; [done|].
  simpl. by rewrite H, IH.
Qed.

Lemma foldl_bind {A B S} (f : S → B → S) (k : A → list B) l : ∀ st,
  foldl f st (l ≫= k) = foldl (fun st x => foldl f st (k x)) st l.
Proof.
  induction l as [|x l IH]; intros st; [done|].
  simpl. change (mbind k (x :: l)) with (k x ++ (l ≫= k)).
  by rewrite foldl_app, IH.
Qed.

Lemma foldl_omap {A S} (f : S → PrunablePart → S) (k : A → option PrunablePart) l :
  ∀ st,
  foldl f st (omap k l)
  = foldl (fun st x => match k x with Some r => f st r | None => st end) st l.
Proof.
  induction l as [|x l IH]; intros st; [done|].
  simpl. destruct (k x); simpl; apply IH.
Qed.

Lemma bind_bind_list {A B C} (f : A → list B) (g : B → list C) (l : list A) :
  (l ≫= f) ≫= g = l ≫= (fun x => f x ≫= g).
Proof.
  induction l as [|x l IH]; [done|].
  change (mbind f (x :: l)) with (f x ++ (l ≫= f)).
  rewrite bind_app. simpl. by rewrite IH.
Qed.

(** The scan of a turn. *)
Lemma scan_turn_spec i ps st s :
  for_down (List.length ps) (fun j st => part ← index ps j; scan_part W i j part st) st s
  = (Ok (foldl (fun st jp => scan_step W (i, jp.1, jp.2) st) st (backwards ps)),
     log (backwards ps ≫= (fun jp => scan_events (i, jp.1, jp.2))) s).
Proof.
  rewrite (for_down_array ps _ (fun jp st => scan_step W (i, jp.1, jp.2) st)
             (fun jp => scan_events (i, jp.1, jp.2)) (st_heap s));
    [by rewrite firstn_all| |done..].
  intros j p st' s' Hp _.
  rewrite (bind_ok _ _ _ _ _ (index_ok _ _ _ _ Hp)). apply scan_part_spec.
Qed.

Lemma turn_view_read h c ps s :
  turn_view h c = Some ps → st_heap s = h →
  ∃ t, read_content c s = (Ok t, s) ∧
       match parts t with Some pl => read_parts pl | None => mret [] end s = (Ok ps, s).
Proof.
  unfold turn_view. intros H <-.
  destruct (st_heap s !! c) as [[|t|]|] eqn:Hc; try done.
  exists t. split; [by apply read_content_ok|].
  destruct (parts t) as [pl|]; [|by simplify_eq].
  destruct (st_heap s !! pl) as [[| |ps']|] eqn:Hpl; try done.
  simplify_eq. by apply read_parts_ok.
Qed.

Lemma history_view_inv h history v :
  history_view h history = Some v →
  ∃ ts, h !! history = Some (CHistory ts) ∧
        Forall2 (fun c ps => turn_view h c = Some ps) ts v.
Proof.
  unfold history_view. destruct (h !! history) as [[ts| |]|]; try done.
  intros H. exists ts. split; [done|]. by apply mapM_Some.
Qed.

(** The scan of a history accounts for the qualifying parts in the order
    of the scan, and asks the estimator once for each of them. *)
Lemma scan_spec s history v :
  history_view (st_heap s) history = Some v →
  scan W history (List.length v) s
  = (Ok (scan_records (observations W v)), log (estimates v) s).
Proof.
  intros Hv. destruct (history_view_inv _ _ _ Hv) as (ts & Hts & Hall).
  unfold scan.
  rewrite (for_down_array v _
    (fun ips st => foldl (fun st jp => scan_step W (ips.1, jp.1, jp.2) st) st (backwards ips.2))
    (fun ips => backwards ips.2 ≫= (fun jp => scan_events (ips.1, jp.1, jp.2)))
    (st_heap s)); [|intros i ps st s' Hps Hs'|done..].
  - rewrite firstn_all. f_equal.
    + f_equal. unfold scan_records, observations, scan_order.
      rewrite foldl_omap, foldl_bind. apply foldl_ext. intros st [i ps]. simpl.
      rewrite foldl_bind. apply foldl_ext. intros st' [j p]. done.
    + f_equal. unfold estimates, scan_order. rewrite bind_bind_list.
      apply list_bind_ext; [|done]. intros [i ps]. simpl.
      rewrite bind_bind_list. apply list_bind_ext; [|done]. intros [j p]. simpl.
      by rewrite app_nil_r.
  - destruct (Forall2_lookup_r _ _ _ _ _ Hall Hps) as (c & Hc & Hview).
    rewrite <- Hs' in Hts, Hview.
    rewrite (bind_ok _ _ _ _ _ (read_history_ok _ _ _ Hts)).
    rewrite (bind_ok _ _ _ _ _ (index_ok _ _ _ _ Hc)).
    destruct (turn_view_read _ _ _ s' Hview eq_refl) as (t & Ht & Hps').
    rewrite (bind_ok _ _ _ _ _ Ht).
    rewrite (bind_ok _ _ _ _ _ Hps').
    apply scan_turn_spec.
Qed.

End ScanFacts.

(** ** The classification of the scanned records *)

Lemma total_tokens_app rs rs' :
  total_tokens (rs ++ rs') = total_tokens rs + total_tokens rs'.
Proof. induction rs as [|r rs IH]; simpl; lia. Qed.

Lemma account_record_past st r :
  protectionBoundaryReached st = true →
  account_record st r
  = {| cumulativeToolTokens := cumulativeToolTokens st;
       protectionBoundaryReached := true;
       totalPrunableTokens := totalPrunableTokens st + tokens r;
       prunableParts := prunableParts st ++ [r] |}.
Proof. intros H. destruct r. unfold account_record, account. by rewrite H. Qed.

Lemma account_record_over st r :
  protectionBoundaryReached st = false →
  TOOL_PROTECTION_THRESHOLD < cumulativeToolTokens st + tokens r →
  account_record st r
  = {| cumulativeToolTokens := cumulativeToolTokens st + tokens r;
       protectionBoundaryReached := true;
       totalPrunableTokens := totalPrunableTokens st + tokens r;
       prunableParts := prunableParts st ++ [r] |}.
Proof.
  intros H Hlt. destruct r. unfold account_record, account. rewrite H. simpl in *.
  by destruct (_ >? _) eqn:E; [|lia].
Qed.

Lemma account_record_under st r :
  protectionBoundaryReached st = false →
  cumulativeToolTokens st + tokens r ≤ TOOL_PROTECTION_THRESHOLD →
  account_record st r
  = {| cumulativeToolTokens := cumulativeToolTokens st + tokens r;
       protectionBoundaryReached := false;
       totalPrunableTokens := totalPrunableTokens st;
       prunableParts := prunableParts st |}.
Proof.
  intros H Hle. destruct r. unfold account_record, account. rewrite H. simpl in *.
  by destruct (_ >? _) eqn:E; [lia|].
Qed.

(** Past the boundary every record is prunable. *)
Lemma scan_past_boundary rs : ∀ st,
  protectionBoundaryReached st = true →
  foldl account_record st rs
  = {| cumulativeToolTokens := cumulativeToolTokens st;
       protectionBoundaryReached := true;
       totalPrunableTokens := totalPrunableTokens st + total_tokens rs;
       prunableParts := prunableParts st ++ rs |}.
Proof.
  induction rs as [|r rs IH]; intros st Hst.
  - simpl. rewrite Z.add_0_r, app_nil_r. destruct st; simpl in *; by subst.
  - simpl. rewrite (account_record_past _ _ Hst), IH by done. simpl.
    rewrite <- app_assoc. f_equal. lia.
Qed.

(** Before the boundary the records split at the first one that takes the
    running sum over the threshold. *)
Lemma scan_before_boundary rs : ∀ st,
  protectionBoundaryReached st = false →
  cumulativeToolTokens st ≤ TOOL_PROTECTION_THRESHOLD →
  ∃ protected prunable,
    rs = protected ++ prunable ∧
    (∀ k, cumulativeToolTokens st + total_tokens (take k protected)
          ≤ TOOL_PROTECTION_THRESHOLD) ∧
    prunableParts (foldl account_record st rs) = prunableParts st ++ prunable ∧
    totalPrunableTokens (foldl account_record st rs)
    = totalPrunableTokens st + total_tokens prunable ∧
    match prunable with
    | [] =>
        protectionBoundaryReached (foldl account_record st rs) = false ∧
        cumulativeToolTokens (foldl account_record st rs)
        = cumulativeToolTokens st + total_tokens protected
    | r :: _ =>
        protectionBoundaryReached (foldl account_record st rs) = true ∧
        cumulativeToolTokens (foldl account_record st rs)
        = cumulativeToolTokens st + total_tokens protected + tokens r ∧
        TOOL_PROTECTION_THRESHOLD
        < cumulativeToolTokens st + total_tokens protected + tokens r
    end.
Proof.
  induction rs as [|r rs IH]; intros st Hst Hcum.
  - exists [], []. simpl. rewrite app_nil_r.
    repeat split; try done; try lia. intros k. rewrite take_nil. simpl. lia.
  - simpl.
    destruct (decide (TOOL_PROTECTION_THRESHOLD < cumulativeToolTokens st + tokens r))
      as [Hover|Hunder].
    + exists [], (r :: rs).
      rewrite (account_record_over _ _ Hst Hover), scan_past_boundary by done.
      simpl. repeat split; try done; try lia.
      * intros k. rewrite take_nil. simpl. lia.
      * by rewrite <- app_assoc.
    + rewrite (account_record_under _ _ Hst) by lia.
      set (st' := {| cumulativeToolTokens := cumulativeToolTokens st + tokens r;
                     protectionBoundaryReached := false;
                     totalPrunableTokens := totalPrunableTokens st;
                     prunableParts := prunableParts st |}).
      destruct (IH st' eq_refl) as (protected & prunable & Hrs & Hpre & Hpp & Htp & Hlast);
        [simpl; lia|].
      simpl in *. exists (r :: protected), prunable.
      split; [by rewrite Hrs|]. split.
      { intros [|k]; simpl; [lia|]. specialize (Hpre k). lia. }
      split; [done|]. split; [done|].
      destruct prunable as [|r' prunable]; simpl.
      * destruct Hlast as [-> ->]. split; [done|lia].
      * destruct Hlast as (-> & -> & Hlt). repeat split; lia.
Qed.

(** ** The order of the scan *)

Lemma elem_of_backwards {A} (xs : list A) i x :
  (i, x) ∈ backwards xs ↔ xs !! i = Some x.
Proof.
  unfold backwards. rewrite elem_of_reverse, elem_of_lookup_imap. split.
  - intros (j & y & Heq & Hy). by simplify_eq.
  - intros H. by exists i, x.
Qed.

Lemma backwards_fst {A} (xs : list A) :
  (backwards xs).*1 = reverse (seq 0 (List.length xs)).
Proof.
  unfold backwards. rewrite fmap_reverse, fmap_imap. f_equal.
  rewrite <- (list_fmap_id (seq 0 _)). apply (imap_seq_0 xs (fun j => j)).
Qed.

Lemma NoDup_backwards_fst {A} (xs : list A) : NoDup (backwards xs).*1.
Proof. rewrite backwards_fst, reverse_Permutation. apply NoDup_seq. Qed.

Lemma elem_of_scan_order v i j p :
  (i, j, p) ∈ scan_order v ↔ part_at v (i, j) = Some p.
Proof.
  unfold scan_order, part_at. simpl. rewrite list_elem_of_bind. split.
  - intros ([i' ps] & Hin & Hps). apply elem_of_backwards in Hps.
    apply list_elem_of_bind in Hin as ([j' p'] & Hin & Hp).
    apply elem_of_backwards in Hp. apply list_elem_of_singleton in Hin.
    simplify_eq. by rewrite Hps.
  - intros H. destruct (v !! i) as [ps|] eqn:Hps; [|done]. simpl in H.
    exists (i, ps). split; [|by apply elem_of_backwards].
    apply list_elem_of_bind. exists (j, p). split; [|by apply elem_of_backwards].
    by apply list_elem_of_singleton.
Qed.

Lemma NoDup_turn_positions i (ps : list Part) :
  NoDup (position_of <$> (backwards ps ≫= fun '(j, p) => [(i, j, p)])).
Proof.
  pose proof (NoDup_backwards_fst ps) as Hnd.
  induction (backwards ps) as [|[j p] l IH]; [constructor|].
  simpl in *. apply NoDup_cons in Hnd as [Hj Hnd].
  apply NoDup_cons. split; [|by apply IH].
  intros Hin. apply Hj. apply list_elem_of_fmap in Hin as ([[i' j'] p'] & Heq & Hin).
  apply list_elem_of_bind in Hin as ([j'' p''] & Hin & Hl).
  apply list_elem_of_singleton in Hin. unfold position_of in Heq. simplify_eq/=.
  apply list_elem_of_fmap. by eexists (_, _).
Qed.

Lemma NoDup_scan_order v : NoDup (position_of <$> scan_order v).
Proof.
  unfold scan_order. pose proof (NoDup_backwards_fst v) as Hnd.
  induction (backwards v) as [|[i ps] l IH]; [constructor|].
  simpl in Hnd. apply NoDup_cons in Hnd as [Hi Hnd].
  change (mbind ?k ((i, ps) :: l)) with (k (i, ps) ++ (l ≫= k)).
  rewrite fmap_app. apply NoDup_app. split; [apply NoDup_turn_positions|].
  split; [|by apply IH].
  intros [i1 j1] Hin1 Hin2. apply Hi.
  apply list_elem_of_fmap in Hin1 as ([[i' j'] p'] & Heq & Hin1).
  apply list_elem_of_bind in Hin1 as ([j'' p''] & Hin1 & _).
  apply list_elem_of_singleton in Hin1. unfold position_of in Heq. simplify_eq/=.
  apply list_elem_of_fmap in Hin2 as ([[i2 j2] p2] & Heq & Hin2).
  apply list_elem_of_bind in Hin2 as ([i3 ps3] & Hin2 & Hl).
  apply list_elem_of_bind in Hin2 as ([j3 p3] & Hin2 & _).
  apply list_elem_of_singleton in Hin2. unfold position_of in Heq. simplify_eq/=.
  apply list_elem_of_fmap. by eexists (_, _).
Qed.

Section ObservationFacts.

Variable W : World.

Lemma record_of_position x r : record_of W x = Some r → position r = position_of x.
Proof.
  destruct x as [[i j] p]. unfold record_of. simpl.
  destruct (observation p); intros; by simplify_eq/=.
Qed.

(** The records of the scan are the qualifying parts of the history. *)
Lemma elem_of_observations v r :
  r ∈ observations W v ↔
  ∃ p, part_at v (position r) = Some p ∧ observation p = Some (content r) ∧
       tokens r = estimateTokenCountSync W [p].
Proof.
  unfold observations. rewrite list_elem_of_omap. split.
  - intros ([[i j] p] & Hin & Hr). apply elem_of_scan_order in Hin.
    unfold record_of in Hr. destruct (observation p) as [oc|] eqn:Ho; simplify_eq/=.
    by exists p.
  - intros (p & Hp & Ho & Ht). exists (contentIndex r, partIndex r, p).
    split; [by apply elem_of_scan_order|].
    unfold record_of. rewrite Ho. simpl. rewrite <- Ht. by destruct r.
Qed.

Lemma positions_omap (l : list (nat * nat * Part)) pos :
  pos ∈ position <$> omap (record_of W) l → pos ∈ position_of <$> l.
Proof.
  intros (r & -> & Hin)%list_elem_of_fmap.
  apply list_elem_of_omap in Hin as (x & Hx & Hr).
  apply list_elem_of_fmap. exists x. split; [|done]. by apply record_of_position.
Qed.

(** No two records of the scan are at the same position. *)
Lemma NoDup_observations v : NoDup (position <$> observations W v).
Proof.
  unfold observations. pose proof (NoDup_scan_order v) as Hnd.
  induction (scan_order v) as [|x l IH]; [constructor|].
  simpl in Hnd. apply NoDup_cons in Hnd as [Hx Hnd]. simpl.
  destruct (record_of W x) as [r|] eqn:Hr; [|by apply IH].
  simpl. apply NoDup_cons. split; [|by apply IH].
  rewrite (record_of_position _ _ Hr). intros Hin. by apply Hx, positions_omap.
Qed.

End ObservationFacts.

(** ** The scan finds the boundary *)

(** C1. The backward scan goes through the qualifying parts, turns last to
    first and parts last to first, with a running sum of their tokens.  The
    records split in two: the ones before the first record whose addition
    takes the sum over 50,000, none of which is prunable, and that record
    with all the records scanned after it, which are exactly the prunable
    list, in this order; the prunable total is the sum of their tokens. *)
Theorem scan_boundary (W : World) (s : state) (history : loc) (v : list (list Part)) :
  history_view (st_heap s) history = Some v →
  ∃ sc protected prunable,
    scan W history (List.length v) s = (Ok sc, log (estimates v) s) ∧
    observations W v = protected ++ prunable ∧
    (∀ k, total_tokens (take k protected) ≤ TOOL_PROTECTION_THRESHOLD) ∧
    prunableParts sc = prunable ∧
    totalPrunableTokens sc = total_tokens prunable ∧
    (∀ r, r ∈ protected → position r ∉ position <$> prunableParts sc) ∧
    match prunable with
    | [] =>
        protectionBoundaryReached sc = false ∧
        cumulativeToolTokens sc = total_tokens protected
    | r :: _ =>
        protectionBoundaryReached sc = true ∧
        cumulativeToolTokens sc = total_tokens protected + tokens r ∧
        TOOL_PROTECTION_THRESHOLD < total_tokens protected + tokens r
    end.
Proof.
  intros Hv.
  destruct (scan_before_boundary (observations W v) scan_init eq_refl)
    as (protected & prunable & Hsplit & Hpre & Hpp & Htp & Hlast); [done|].
  exists (scan_records (observations W v)), protected, prunable.
  simpl in *. fold (scan_records (observations W v)) in *.
  split; [by apply scan_spec|]. split; [done|]. split; [done|].
  split; [done|]. split; [lia|]. split; [|done].
  intros r Hr Hin. rewrite Hpp in Hin.
  pose proof (NoDup_observations W v) as Hnd.
  rewrite Hsplit, fmap_app in Hnd. apply NoDup_app in Hnd as (_ & Hdisj & _).
  apply (Hdisj (position r)); [|done]. by apply list_elem_of_fmap_2.
Qed.

(** C1 on two turns: the older observation of 50,000 tokens crosses the
    boundary after the newer one of 20,000. *)
Lemma scan_boundary_witness :
  history_view Examples.older_crosses 4%nat = Some Examples.older_crosses_view ∧
  ∃ sc protected prunable,
    scan (Examples.world Examples.always) 4%nat
      (List.length Examples.older_crosses_view) (Examples.start Examples.older_crosses)
    = (Ok sc, log (estimates Examples.older_crosses_view)
                (Examples.start Examples.older_crosses)) ∧
    observations (Examples.world Examples.always) Examples.older_crosses_view
    = protected ++ prunable ∧
    (∀ k, total_tokens (take k protected) ≤ TOOL_PROTECTION_THRESHOLD) ∧
    prunableParts sc = prunable ∧
    totalPrunableTokens sc = total_tokens prunable ∧
    (∀ r, r ∈ protected → position r ∉ position <$> prunableParts sc) ∧
    match prunable with
    | [] =>
        protectionBoundaryReached sc = false ∧
        cumulativeToolTokens sc = total_tokens protected
    | r :: _ =>
        protectionBoundaryReached sc = true ∧
        cumulativeToolTokens sc = total_tokens protected + tokens r ∧
        TOOL_PROTECTION_THRESHOLD < total_tokens protected + tokens r
    end.
Proof.
  split; [reflexivity|].
  apply (scan_boundary (Examples.world Examples.always)
           (Examples.start Examples.older_crosses) 4%nat Examples.older_crosses_view).
  reflexivity.
Defined.

(** ** Runs that mask nothing *)

Section Untouched.

Variable W : World.

Lemma estimates_only v : Forall is_estimate (estimates v).
Proof.
  unfold estimates. apply Forall_forall. intros e Hin.
  apply list_elem_of_bind in Hin as (x & Hin & _). unfold scan_events in Hin.
  destruct (observation x.2); [|by apply elem_of_nil in Hin].
  apply list_elem_of_singleton in Hin. by exists [x.2].
Qed.

(** Below the hysteresis threshold [mask] returns after the scan. *)
Lemma mask_no_trigger cfg s history v :
  history_view (st_heap s) history = Some v →
  prunable_total W v < HYSTERESIS_THRESHOLD →
  mask W history cfg s = (Ok (untouched history), log (estimates v) s).
Proof.
  intros Hv Hlt. destruct (history_view_inv _ _ _ Hv) as (ts & Hts & Hall).
  pose proof (Forall2_length _ _ _ Hall) as Hlen.
  unfold mask. rewrite (bind_ok _ _ _ _ _ (read_history_ok _ _ _ Hts)).
  destruct (decide (List.length ts = 0%nat)) as [Hz|Hnz].
  - destruct v; [|simpl in Hlen; lia]. by rewrite log_nil.
  - rewrite Hlen. rewrite (bind_ok _ _ _ _ _ (scan_spec W _ _ _ Hv)).
    unfold prunable_total in Hlt.
    by destruct (_ <? _) eqn:E; [|lia].
Qed.

End Untouched.

(** C2. When the prunable total is below 30,000, [mask] returns the history
    it was given, the same array, with [maskedCount] 0 and [tokensSaved] 0;
    the store is as before the call, and all the run has done to the outside
    world is to ask the estimator: no directory is made, no file written, no
    telemetry sent. *)
Theorem mask_below_hysteresis (W : World) (cfg : Config) (s : state) (history : loc)
    (v : list (list Part)) :
  history_view (st_heap s) history = Some v →
  prunable_total W v < HYSTERESIS_THRESHOLD →
  ∃ s' evs,
    mask W history cfg s
    = (Ok {| newHistory := history; maskedCount := 0; tokensSaved := 0 |}, s') ∧
    st_heap s' = st_heap s ∧
    st_tick s' = st_tick s ∧
    st_trace s' = st_trace s ++ evs ∧
    Forall is_estimate evs.
Proof.
  intros Hv Hlt. exists (log (estimates v) s), (estimates v).
  split; [by apply mask_no_trigger|].
  repeat split; try done. apply estimates_only.
Qed.

(** C2 on two turns of which only the older one, of 20,000 tokens, is
    prunable. *)
Lemma mask_below_hysteresis_witness :
  ∃ s' evs,
    mask (Examples.world Examples.always) 4%nat Examples.config
      (Examples.start Examples.below_hysteresis)
    = (Ok {| newHistory := 4%nat; maskedCount := 0; tokensSaved := 0 |}, s') ∧
    st_heap s' = Examples.below_hysteresis ∧
    st_tick s' = 0%nat ∧
    st_trace s' = [] ++ evs ∧
    Forall is_estimate evs.
Proof.
  apply (mask_below_hysteresis (Examples.world Examples.always) Examples.config
           (Examples.start Examples.below_hysteresis) 4%nat
           Examples.below_hysteresis_view).
  - reflexivity.
  - vm_compute. reflexivity.
Defined.

(** ** Histories within the protection budget *)

Lemma total_tokens_nonneg rs :
  Forall (fun r => 0 ≤ tokens r) rs → 0 ≤ total_tokens rs.
Proof. induction 1; simpl; lia. Qed.

Lemma observations_nonneg W v :
  (∀ ps, 0 ≤ estimateTokenCountSync W ps) →
  Forall (fun r => 0 ≤ tokens r) (observations W v).
Proof.
  intros Hest. apply Forall_forall. intros r Hr.
  apply elem_of_observations in Hr as (p & _ & _ & ->). apply Hest.
Qed.

(** With token counts that are never negative, a history whose qualifying
    parts add up to at most the threshold has nothing prunable. *)
Lemma nothing_prunable rs :
  Forall (fun r => 0 ≤ tokens r) rs →
  total_tokens rs ≤ TOOL_PROTECTION_THRESHOLD →
  prunableParts (scan_records rs) = [] ∧ totalPrunableTokens (scan_records rs) = 0.
Proof.
  intros Hnn Htot.
  destruct (scan_before_boundary rs scan_init eq_refl)
    as (protected & prunable & Hsplit & _ & Hpp & Htp & Hlast); [done|].
  fold (scan_records rs) in *. simpl in *.
  destruct prunable as [|r prunable]; [by rewrite Hpp, Htp|].
  destruct Hlast as (_ & _ & Hover). exfalso.
  rewrite Hsplit, total_tokens_app in Htot. simpl in Htot.
  rewrite Hsplit in Hnn. apply Forall_app in Hnn as [_ Hnn].
  apply Forall_cons in Hnn as [_ Hnn].
  pose proof (total_tokens_nonneg _ Hnn). lia.
Qed.

(** C8. When the qualifying tool observations of a history add up to at
    most 50,000 tokens, [mask] does not trigger: it returns the history it
    was given with [maskedCount] 0 and [tokensSaved] 0 and leaves the store
    as it was.  On an empty history it returns at once, and the state is
    the one before the call: the estimator was not asked.  Token counts are
    counts: the estimator never returns a negative number. *)
Theorem mask_within_budget (W : World) (cfg : Config) (s : state) (history : loc)
    (v : list (list Part)) :
  (∀ ps, 0 ≤ estimateTokenCountSync W ps) →
  history_view (st_heap s) history = Some v →
  total_tokens (observations W v) ≤ TOOL_PROTECTION_THRESHOLD →
  (∃ s',
     mask W history cfg s
     = (Ok {| newHistory := history; maskedCount := 0; tokensSaved := 0 |}, s') ∧
     st_heap s' = st_heap s ∧
     history_view (st_heap s') history = Some v) ∧
  (∀ s0 empty,
     st_heap s0 !! empty = Some (CHistory []) →
     mask W empty cfg s0
     = (Ok {| newHistory := empty; maskedCount := 0; tokensSaved := 0 |}, s0)).
Proof.
  intros Hest Hv Htot. split.
  - destruct (nothing_prunable (observations W v)) as [_ Hzero];
      [by apply observations_nonneg|done|].
    assert (prunable_total W v < HYSTERESIS_THRESHOLD) as Hlt.
    { unfold prunable_total. rewrite Hzero. done. }
    exists (log (estimates v) s). split; [by apply mask_no_trigger|]. by split.
  - intros s0 empty Hempty. unfold mask.
    by rewrite (bind_ok _ _ _ _ _ (read_history_ok _ _ _ Hempty)).
Qed.

Lemma payload_chars_nonneg r : 0 ≤ Examples.payload_chars r.
Proof.
  destruct r as [|t|m]; simpl; [lia|unfold JsString.length; lia|].
  apply (map_fold_weak_ind (fun acc _ => 0 ≤ acc)); [lia|].
  intros k x m' acc _ Hacc. destruct (is_string x); simpl;
    unfold JsString.length; lia.
Qed.

(** C8 on two turns of 20,000 tokens each. *)
Lemma mask_within_budget_witness :
  (∃ s',
     mask (Examples.world Examples.always) 4%nat Examples.config
       (Examples.start Examples.within_budget)
     = (Ok {| newHistory := 4%nat; maskedCount := 0; tokensSaved := 0 |}, s') ∧
     st_heap s' = Examples.within_budget ∧
     history_view (st_heap s') 4%nat = Some Examples.within_budget_view) ∧
  (∀ s0 empty,
     st_heap s0 !! empty = Some (CHistory []) →
     mask (Examples.world Examples.always) empty Examples.config s0
     = (Ok {| newHistory := empty; maskedCount := 0; tokensSaved := 0 |}, s0)).
Proof.
  apply (mask_within_budget (Examples.world Examples.always) Examples.config
           (Examples.start Examples.within_budget) 4%nat Examples.within_budget_view).
  - intros ps. simpl. induction ps as [|p ps IH]; simpl; [lia|].
    assert (0 ≤ Examples.part_chars p); [|lia].
    unfold Examples.part_chars. destruct (functionResponse p) as [fr|]; simpl; [|lia].
    apply payload_chars_nonneg.
  - reflexivity.
  - vm_compute. discriminate.
Defined.

(** ** The marker excludes a part *)

Lemma marked_not_observed p a b :
  getObservationContent p = Some (a +:+ MASKED_MARKER +:+ b) → observation p = None.
Proof.
  intros H. unfold observation. rewrite H.
  destruct (decide _); [done|].
  unfold isAlreadyMasked.
  assert (JsString.includes (a +:+ MASKED_MARKER +:+ b) MASKED_MARKER = true) as ->; [|done].
  apply StringFacts.includes_spec. by exists a, b.
Qed.

(** The prunable list is a final segment of the scanned records. *)
Lemma prunable_suffix rs : ∃ protected, rs = protected ++ prunableParts (scan_records rs).
Proof.
  destruct (scan_before_boundary rs scan_init eq_refl)
    as (protected & prunable & Hsplit & _ & Hpp & _); [done|].
  exists protected. fold (scan_records rs) in Hpp. by rewrite Hpp.
Qed.

(** C9. A tool observation whose text contains the marker anywhere, a text
    [a ++ "[Observation Masked]" ++ b], is passed over by the scan: the
    loop body leaves the running sum, the prunable total and the prunable
    list as they are and does not ask the estimator; so the part is not
    among the records the scan accounts for, and no prunable record of a
    history is at its position. *)
Theorem marker_excludes (W : World) (p : Part) (a b : string) :
  getObservationContent p = Some (a +:+ MASKED_MARKER +:+ b) →
  (∀ i j st s, scan_part W i j p st s = (Ok st, s)) ∧
  (∀ s history v pos,
     history_view (st_heap s) history = Some v →
     part_at v pos = Some p →
     (pos ∉ position <$> observations W v) ∧
     ∃ sc s', scan W history (List.length v) s = (Ok sc, s') ∧
              pos ∉ (position <$> prunableParts sc)).
Proof.
  intros Hp. pose proof (marked_not_observed _ _ _ Hp) as Hobs. split.
  - intros i j st s. rewrite scan_part_spec.
    unfold scan_step, scan_events, record_of. simpl. rewrite Hobs. simpl.
    by rewrite log_nil.
  - intros s history v pos Hv Hpos.
    assert (pos ∉ position <$> observations W v) as Hnot.
    { intros (r & -> & Hr)%list_elem_of_fmap.
      apply elem_of_observations in Hr as (p' & Hp' & Ho & _).
      rewrite Hpos in Hp'. injection Hp' as <-. by rewrite Hobs in Ho. }
    split; [done|].
    eexists _, _. split; [by apply scan_spec|].
    destruct (prunable_suffix (observations W v)) as [protected Hsplit].
    intros Hin. apply Hnot. rewrite Hsplit, fmap_app. apply elem_of_app. by right.
Qed.

(** C9 on a tool output of 70,000 tokens that happens to quote the marker,
    older than an observation of 60,000 tokens. *)
Lemma marker_excludes_witness :
  (∀ i j st s,
     scan_part (Examples.world Examples.always) i j Examples.quoting_part st s = (Ok st, s)) ∧
  (∀ s history v pos,
     history_view (st_heap s) history = Some v →
     part_at v pos = Some Examples.quoting_part →
     (pos ∉ position <$> observations (Examples.world Examples.always) v) ∧
     ∃ sc s', scan (Examples.world Examples.always) history (List.length v) s = (Ok sc, s') ∧
              pos ∉ (position <$> prunableParts sc)).
Proof.
  apply (marker_excludes (Examples.world Examples.always) Examples.quoting_part
           "see " " x").
  reflexivity.
Defined.

(** ** The masking loop *)

Section MaskItem.

Variable W : World.

Lemma tick_eq s : tick s = (Ok (st_tick s), bump 1 s).
Proof. unfold tick, bump. by rewrite Nat.add_1_r. Qed.

Lemma bump_bump j k s : bump k (bump j s) = bump (j + k) s.
Proof. unfold bump. simpl. by rewrite Nat.add_assoc. Qed.

Lemma alloc_eq c s :
  alloc c s = (Ok (List.length (st_heap s)), with_heap (st_heap s ++ [c]) s).
Proof. reflexivity. Qed.

Lemma set_part_eq l i x ps s :
  st_heap s !! l = Some (CParts ps) →
  set_part l i x s = (Ok tt, with_heap (<[l := CParts (<[i := x]> ps)]> (st_heap s)) s).
Proof.
  intros H. unfold set_part. by rewrite (bind_ok _ _ _ _ _ (read_parts_ok _ _ _ H)).
Qed.

Lemma set_turn_eq l i x ts s :
  st_heap s !! l = Some (CHistory ts) →
  set_turn l i x s = (Ok tt, with_heap (<[l := CHistory (<[i := x]> ts)]> (st_heap s)) s).
Proof.
  intros H. unfold set_turn. by rewrite (bind_ok _ _ _ _ _ (read_history_ok _ _ _ H)).
Qed.

Lemma ret_eq {A} (a : A) s : (mret a : M A) s = (Ok a, s).
Proof. reflexivity. Qed.

Lemma tick_then {A} (f : nat → A) s :
  (t ← tick; mret (f t)) s = (Ok (f (st_tick s)), bump 1 s).
Proof. by rewrite (bind_ok _ _ _ _ _ (tick_eq s)). Qed.

(** Choosing the name of the offload file only asks the outside world. *)
Lemma offload_path_spec dir fr s :
  ∃ path k, offload_path W dir fr s = (Ok path, bump k s).
Proof.
  unfold offload_path.
  destruct (opt_toString _) as [id|]; [destruct (decide (id = EmptyString))|].
  - eexists _, 2%nat. rewrite (bind_ok _ _ _ _ _ (tick_then _ s)).
    rewrite (tick_then _ (bump 1 s)). by rewrite bump_bump.
  - eexists _, 1%nat. rewrite (bind_ok _ _ _ _ _ (ret_eq id s)).
    by rewrite (tick_then _ s).
  - eexists _, 2%nat. rewrite (bind_ok _ _ _ _ _ (tick_then _ s)).
    rewrite (tick_then _ (bump 1 s)). by rewrite bump_bump.
Qed.

Lemma writeFile_spec path text s :
  writeFile W path text s
  = (if fs_succeeds W (st_tick s) then Ok tt else Throw IOError,
     log [EvWriteFile path text (fs_succeeds W (st_tick s))] (bump 1 s)).
Proof.
  unfold writeFile. rewrite (bind_ok _ _ _ _ _ (tick_eq s)).
  unfold mbind, M_bind. rewrite emit_log.
  by destruct (fs_succeeds W (st_tick s)).
Qed.

Lemma writeFile_ok path text s :
  fs_succeeds W (st_tick s) = true →
  writeFile W path text s = (Ok tt, log [EvWriteFile path text true] (bump 1 s)).
Proof. intros H. by rewrite writeFile_spec, H. Qed.

Lemma writeFile_fail path text s :
  fs_succeeds W (st_tick s) = false →
  writeFile W path text s = (Throw IOError, log [EvWriteFile path text false] (bump 1 s)).
Proof. intros H. by rewrite writeFile_spec, H. Qed.

Lemma mkdir_spec dir s :
  mkdir W dir s
  = (if fs_succeeds W (st_tick s) then Ok tt else Throw IOError,
     log [EvMkdir dir (fs_succeeds W (st_tick s))] (bump 1 s)).
Proof.
  unfold mkdir. rewrite (bind_ok _ _ _ _ _ (tick_eq s)).
  unfold mbind, M_bind. rewrite emit_log.
  by destruct (fs_succeeds W (st_tick s)).
Qed.

Lemma mkdir_ok dir s :
  fs_succeeds W (st_tick s) = true →
  mkdir W dir s = (Ok tt, log [EvMkdir dir true] (bump 1 s)).
Proof. intros H. by rewrite mkdir_spec, H. Qed.

Lemma mkdir_fail dir s :
  fs_succeeds W (st_tick s) = false →
  mkdir W dir s = (Throw IOError, log [EvMkdir dir false] (bump 1 s)).
Proof. intros H. by rewrite mkdir_spec, H. Qed.

Lemma estimate_spec ps s :
  estimate W ps s = (Ok (estimateTokenCountSync W ps), log [EvEstimate ps] s).
Proof. unfold estimate, mbind, M_bind. by rewrite emit_log. Qed.

End MaskItem.

Section MaskLoop.

Variable W : World.

Lemma turn_view_parts h c ps j p :
  turn_view h c = Some ps → ps !! j = Some p →
  ∃ t pl, h !! c = Some (CContent t) ∧ parts t = Some pl ∧ h !! pl = Some (CParts ps).
Proof.
  unfold turn_view. intros H Hp.
  destruct (h !! c) as [[|t|]|]; try done.
  destruct (parts t) as [pl|] eqn:Hpl; [|by simplify_eq].
  destruct (h !! pl) as [[| |ps']|] eqn:Hps; try done.
  simplify_eq. by exists t, pl.
Qed.

(** A turn reads the same in a store that kept every cell but the history
    arrays. *)
Lemma turn_view_stable (h h' : heap) c ps :
  (∀ l x, h !! l = Some x → (∀ ts, x ≠ CHistory ts) → h' !! l = Some x) →
  turn_view h c = Some ps → turn_view h' c = Some ps.
Proof.
  unfold turn_view. intros Hkeep H.
  destruct (h !! c) as [[|t|]|] eqn:Hc; try done.
  rewrite (Hkeep c _ Hc) by done.
  destruct (parts t) as [pl|]; [|done].
  destruct (h !! pl) as [[| |ps']|] eqn:Hpl; try done.
  by rewrite (Hkeep pl _ Hpl).
Qed.

(** A history reads the same in a store that kept the cells it had. *)
Lemma history_view_agree (h h' : heap) history v :
  agree_below (List.length h) h h' →
  history_view h history = Some v → history_view h' history = Some v.
Proof.
  intros Hagree Hv.
  assert (∀ l x, h !! l = Some x → h' !! l = Some x) as Hkeep.
  { intros l x Hx. rewrite Hagree; [done|]. by apply lookup_lt_Some in Hx. }
  destruct (history_view_inv _ _ _ Hv) as (ts & Hts & Hall).
  unfold history_view. rewrite (Hkeep _ _ Hts). apply mapM_Some.
  eapply Forall2_impl; [exact Hall|]. intros c ps Hc. simpl in Hc.
  apply (turn_view_stable h h'); [|done]. intros l x Hx _. by apply Hkeep.
Qed.

Lemma nonnull_ok {A} (x : A) s : nonnull (Some x) s = (Ok x, s).
Proof. reflexivity. Qed.

(** One round of the masking loop on a record that points at a tool
    observation of the working copy: either the write succeeds and the
    working copy has the part replaced, or the write fails and the store
    is as before. *)
Lemma mask_item_spec dir nh r saved s v p fr n0 :
  (n0 ≤ nh)%nat →
  history_view (st_heap s) nh = Some v →
  part_at v (position r) = Some p →
  functionResponse p = Some fr →
  ∃ path s',
    agree_below n0 (st_heap s) (st_heap s') ∧
    ((mask_item W dir nh r saved s
      = (Ok (saved + (tokens r - estimateTokenCountSync W [masked_part p r path])), s') ∧
      history_view (st_heap s') nh = Some (mask_at v (r, path)) ∧
      st_trace s' = st_trace s ++ [EvWriteFile path (content r) true;
                                   EvEstimate [masked_part p r path]])
     ∨
     (mask_item W dir nh r saved s = (Throw IOError, s') ∧
      st_heap s' = st_heap s ∧
      st_trace s' = st_trace s ++ [EvWriteFile path (content r) false])).
Proof.
  intros Hn0 Hv Hp Hfr.
  destruct (history_view_inv _ _ _ Hv) as (ts & Hts & Hall).
  unfold part_at, position in Hp. simpl in Hp.
  destruct (v !! contentIndex r) as [ps|] eqn:Hps; [|done]. simpl in Hp.
  destruct (Forall2_lookup_r _ _ _ _ _ Hall Hps) as (c & Hc & Hview).
  destruct (turn_view_parts _ _ _ _ _ Hview Hp) as (t & pl & Hct & Hpl & Hplps).
  destruct (offload_path_spec W dir fr s) as (path & k & Hpath).
  exists path.
  unfold mask_item.
  rewrite (bind_ok _ _ _ _ _ (read_history_ok _ _ _ Hts)).
  rewrite (bind_ok _ _ _ _ _ (index_ok _ _ _ _ Hc)).
  rewrite (bind_ok _ _ _ _ _ (read_content_ok _ _ _ Hct)).
  rewrite Hpl, (bind_ok _ _ _ _ _ (nonnull_ok _ _)).
  rewrite (bind_ok _ _ _ _ _ (read_parts_ok _ _ _ Hplps)).
  rewrite (bind_ok _ _ _ _ _ (index_ok _ _ _ _ Hp)).
  rewrite Hfr.
  rewrite (bind_ok _ _ _ _ _ Hpath).
  destruct (fs_succeeds W (st_tick (bump k s))) eqn:Hok.
  - rewrite (bind_ok _ _ _ _ _ (writeFile_ok W _ _ _ Hok)).
    set (s1 := log _ (bump 1 (bump k s))).
    assert (st_heap s1 = st_heap s) as Hs1 by done.
    rewrite (bind_ok _ _ s1 _ _ (read_parts_ok s1 _ _ Hplps)).
    rewrite (bind_ok _ _ _ _ _ (alloc_eq _ _)).
    rewrite Hs1. set (h := st_heap s) in *. set (n := List.length h).
    set (newp := with_response p fr _).
    assert (newp = masked_part p r path) as Hnewp.
    { unfold masked_part. by rewrite Hfr. }
    assert (nh < n)%nat as Hnh by (by apply lookup_lt_Some in Hts).
    assert (st_heap (with_heap (h ++ [CParts ps]) s1) !! n = Some (CParts ps)) as Hn1.
    { simpl. by apply list_lookup_middle. }
    rewrite (bind_ok _ _ _ _ _ (set_part_eq n (partIndex r) newp ps _ Hn1)).
    simpl st_heap. rewrite (insert_app_r_alt h _ n) by done.
    rewrite Nat.sub_diag. simpl (<[0%nat := _]> _).
    rewrite (bind_ok _ _ _ _ _ (alloc_eq _ _)).
    simpl st_heap. rewrite length_app. simpl List.length. fold n.
    rewrite Nat.add_1_r. rewrite <- app_assoc. simpl ([_] ++ [_]).
    set (h3 := h ++ [_; _]).
    assert (h3 !! nh = Some (CHistory ts)) as Hts3.
    { unfold h3. by rewrite lookup_app_l. }
    rewrite (bind_ok _ _ _ _ _ (set_turn_eq nh (contentIndex r) _ ts (with_heap h3 _) Hts3)).
    simpl st_heap.
    set (h4 := <[nh := _]> h3).
    assert (h4 !! n = Some (CParts (<[partIndex r := newp]> ps))) as Hn4.
    { unfold h4. rewrite list_lookup_insert_ne by lia.
      unfold h3. by rewrite (list_lookup_middle h _ _ n). }
    rewrite (bind_ok _ _ _ _ _ (read_parts_ok (with_heap h4 _) _ _ Hn4)).
    assert (<[partIndex r := newp]> ps !! partIndex r = Some newp) as Hread.
    { apply list_lookup_insert_eq. by apply lookup_lt_Some in Hp. }
    rewrite (bind_ok _ _ _ _ _ (index_ok _ _ _ _ Hread)).
    rewrite (bind_ok _ _ _ _ _ (estimate_spec W _ _)).
    rewrite <- Hnewp.
    assert (∀ l x, h !! l = Some x → (∀ ts, x ≠ CHistory ts) → h4 !! l = Some x) as Hkeep.
    { intros l x Hx Hnot. unfold h4, h3.
      rewrite list_lookup_insert_ne; [by apply lookup_app_l_Some|].
      intros <-. rewrite Hts in Hx. injection Hx as <-. by apply (Hnot ts). }
    eexists. split; [|left; split; [reflexivity|split]].
    + intros l Hl. simpl. unfold h4, h3.
      rewrite list_lookup_insert_ne by lia. apply lookup_app_l. lia.
    + simpl. unfold history_view.
      assert (h4 !! nh = Some (CHistory (<[contentIndex r := S n]> ts))) as ->.
      { unfold h4. apply list_lookup_insert_eq. unfold h3. rewrite length_app. lia. }
      apply mapM_Some. unfold mask_at, part_at, set_part_at, position. simpl.
      rewrite Hps. simpl. rewrite Hp, <- Hnewp.
      apply Forall2_insert.
      * eapply Forall2_impl; [exact Hall|]. intros c' ps' Hc'. simpl in Hc'.
        by apply (turn_view_stable h h4).
      * unfold turn_view.
        assert (h4 !! S n = Some (CContent {| role := role t; parts := Some n |})) as ->.
        { unfold h4, h3. rewrite list_lookup_insert_ne by lia.
          rewrite lookup_app_r by (fold n; lia). fold n.
          by replace (S n - n)%nat with 1%nat by lia. }
        simpl. by rewrite Hn4.
    + simpl. by rewrite <- app_assoc.
  - exists (log [EvWriteFile path (content r) false] (bump 1 (bump k s))).
    split; [|right].
    + intros l Hl. reflexivity.
    + rewrite (bind_throw _ _ _ _ _ (writeFile_fail W _ _ _ Hok)).
      split; [reflexivity|]. done.
Qed.

Lemma agree_below_trans n h1 h2 h3 :
  agree_below n h1 h2 → agree_below n h2 h3 → agree_below n h1 h3.
Proof. intros H12 H23 l Hl. by rewrite H23, H12. Qed.

Lemma part_at_set_other v pos pos' p :
  pos' ≠ pos → part_at (set_part_at v pos p) pos' = part_at v pos'.
Proof.
  intros Hne. unfold part_at, set_part_at.
  destruct (v !! pos.1) as [ps|] eqn:Hps; [|done].
  destruct (decide (pos'.1 = pos.1)) as [Heq|Hne1].
  - rewrite Heq, Hps. rewrite list_lookup_insert_eq by (by apply lookup_lt_Some in Hps).
    simpl. apply list_lookup_insert_ne. intros Heq2. apply Hne.
    destruct pos, pos'. simpl in *. congruence.
  - by rewrite list_lookup_insert_ne.
Qed.

Lemma part_at_set_same v pos p p' :
  part_at v pos = Some p → part_at (set_part_at v pos p') pos = Some p'.
Proof.
  unfold part_at, set_part_at. intros H.
  destruct (v !! pos.1) as [ps|] eqn:Hps; [|done]. simpl in H.
  rewrite list_lookup_insert_eq by (by apply lookup_lt_Some in Hps). simpl.
  apply list_lookup_insert_eq. by apply lookup_lt_Some in H.
Qed.

Lemma part_at_mask_other v rp pos :
  pos ≠ position rp.1 → part_at (mask_at v rp) pos = part_at v pos.
Proof.
  intros Hne. unfold mask_at. destruct (part_at v (position rp.1)); [|done].
  by apply part_at_set_other.
Qed.

(** The masking loop on records that point at distinct tool observations
    of the working copy: either every write succeeds and the working copy
    has all the parts replaced, or a write fails and the loop throws. *)
Lemma mask_items_spec dir nh n0 items : ∀ saved s v,
  (n0 ≤ nh)%nat →
  history_view (st_heap s) nh = Some v →
  NoDup (position <$> items) →
  Forall (points_at_observation v) items →
  ∃ s',
    agree_below n0 (st_heap s) (st_heap s') ∧
    ((∃ paths,
        List.length paths = List.length items ∧
        for_each items (mask_item W dir nh) saved s
        = (Ok (saved + savings W v (zip items paths)), s') ∧
        history_view (st_heap s') nh = Some (masked_view v (zip items paths)) ∧
        st_trace s' = st_trace s ++ masking_events v (zip items paths))
     ∨
     (∃ evs,
        for_each items (mask_item W dir nh) saved s = (Throw IOError, s') ∧
        st_trace s' = st_trace s ++ evs)).
Proof.
  induction items as [|r items IH]; intros saved s v Hn0 Hv Hnd Hvalid.
  - exists s. split; [done|]. left. exists []. simpl.
    rewrite Z.add_0_r, app_nil_r. done.
  - simpl in Hnd. apply NoDup_cons in Hnd as [Hr Hnd].
    apply Forall_cons in Hvalid as [(p & Hp & [fr Hfr]) Hvalid].
    destruct (mask_item_spec dir nh r saved s v p fr n0 Hn0 Hv Hp Hfr)
      as (path & s1 & Hagree & [(Hrun & Hv1 & Htr1)|(Hrun & _ & Htr1)]).
    + assert (Forall (points_at_observation (mask_at v (r, path))) items) as Hvalid1.
      { apply Forall_forall. intros r' Hr'.
        destruct (proj1 (Forall_forall _ _) Hvalid r' Hr') as (p' & Hp' & Hfr').
        exists p'. split; [|done]. rewrite part_at_mask_other; [done|].
        simpl. intros Heq. apply Hr. rewrite <- Heq. by apply list_elem_of_fmap_2. }
      destruct (IH (saved + (tokens r - estimateTokenCountSync W [masked_part p r path]))
                  s1 (mask_at v (r, path)) Hn0 Hv1 Hnd Hvalid1)
        as (s' & Hagree' & [(paths & Hlen & Hrun' & Hv' & Htr')|(evs & Hrun' & Htr')]).
      * exists s'. split; [by eapply agree_below_trans|]. left.
        exists (path :: paths). simpl. rewrite Hp.
        split; [by rewrite Hlen|].
        rewrite (bind_ok _ _ _ _ _ Hrun). rewrite Hrun'.
        split; [f_equal; f_equal; lia|]. split; [done|].
        rewrite Htr', Htr1. by rewrite <- app_assoc.
      * exists s'. split; [by eapply agree_below_trans|]. right.
        eexists. simpl. rewrite (bind_ok _ _ _ _ _ Hrun). split; [done|].
        rewrite Htr', Htr1. by rewrite <- app_assoc.
    + exists s1. split; [done|]. right. eexists. simpl.
      by rewrite (bind_throw _ _ _ _ _ Hrun).
Qed.

Lemma observation_functionResponse p oc :
  observation p = Some oc →
  getObservationContent p = Some oc ∧ is_Some (functionResponse p).
Proof.
  unfold observation. destruct (getObservationContent p) as [oc'|] eqn:H; [|done].
  destruct (decide _); [done|]. destruct (isAlreadyMasked oc'); [done|].
  intros [= ->]. split; [done|].
  unfold getObservationContent in H. by destruct (functionResponse p).
Qed.

Lemma elem_of_prunable_records v r :
  r ∈ prunable_records W v → r ∈ observations W v.
Proof.
  intros Hr. destruct (prunable_suffix (observations W v)) as [protected Hsplit].
  rewrite Hsplit. apply elem_of_app. by right.
Qed.

Lemma NoDup_prunable_records v : NoDup (position <$> prunable_records W v).
Proof.
  pose proof (NoDup_observations W v) as Hnd.
  destruct (prunable_suffix (observations W v)) as [protected Hsplit].
  rewrite Hsplit, fmap_app in Hnd. by apply NoDup_app in Hnd as (_ & _ & Hnd).
Qed.

Lemma prunable_records_valid v : Forall (points_at_observation v) (prunable_records W v).
Proof.
  apply Forall_forall. intros r Hr.
  apply elem_of_prunable_records, elem_of_observations in Hr as (p & Hp & Ho & _).
  exists p. split; [done|]. by apply observation_functionResponse in Ho as [_ ?].
Qed.

(** A run over the hysteresis threshold: either the directory is made and
    every file written, and [mask] returns the working copy with the
    prunable records masked, or a call of the file system fails and [mask]
    throws.  Either way the cells the store had before the call are kept. *)
Lemma mask_trigger cfg s history v :
  history_view (st_heap s) history = Some v →
  HYSTERESIS_THRESHOLD ≤ prunable_total W v →
  ∃ s',
    agree_below (List.length (st_heap s)) (st_heap s) (st_heap s') ∧
    ((∃ paths,
        List.length paths = List.length (prunable_records W v) ∧
        mask W history cfg s
        = (Ok (masking_result W v paths (List.length (st_heap s))), s') ∧
        history_view (st_heap s') (List.length (st_heap s))
        = Some (masked_view v (zip (prunable_records W v) paths)) ∧
        st_trace s' = st_trace s ++ masking_run_events W cfg v paths)
     ∨
     (∃ evs,
        mask W history cfg s = (Throw IOError, s') ∧
        st_trace s' = st_trace s ++ evs)).
Proof.
  intros Hv Hge. destruct (history_view_inv _ _ _ Hv) as (ts & Hts & Hall).
  pose proof (Forall2_length _ _ _ Hall) as Hlen.
  unfold mask. rewrite (bind_ok _ _ _ _ _ (read_history_ok _ _ _ Hts)).
  destruct (decide (List.length ts = 0%nat)) as [Hz|Hnz].
  { destruct v; [|simpl in Hlen; lia]. by vm_compute in Hge. }
  rewrite Hlen. rewrite (bind_ok _ _ _ _ _ (scan_spec W _ _ _ Hv)).
  fold (prunable_total W v). fold (prunable_records W v).
  destruct (prunable_total W v <? HYSTERESIS_THRESHOLD) eqn:E; [lia|]. clear E.
  rewrite (bind_ok _ _ _ _ _ (emit_log _ _)).
  set (s1 := log _ (log _ s)).
  assert (st_heap s1 !! history = Some (CHistory ts)) as Hts1 by done.
  rewrite (bind_ok _ _ _ _ _ (read_history_ok s1 _ _ Hts1)).
  rewrite (bind_ok _ _ _ _ _ (alloc_eq _ _)).
  set (h := st_heap s) in *. change (st_heap s1) with h.
  set (nh := List.length h). set (s2 := with_heap _ s1).
  fold (observation_dir W cfg).
  assert (history_view (h ++ [CHistory ts]) nh = Some v) as Hv2.
  { unfold history_view. rewrite (list_lookup_middle h [] _ nh) by done.
    apply mapM_Some. eapply Forall2_impl; [exact Hall|].
    intros c ps Hc. simpl in Hc. apply (turn_view_stable h); [|done].
    intros l x Hx _. by apply lookup_app_l_Some. }
  assert (agree_below nh h (h ++ [CHistory ts])) as Hagree2.
  { intros l Hl. by apply lookup_app_l. }
  destruct (fs_succeeds W (st_tick s2)) eqn:Hok.
  - rewrite (bind_ok _ _ _ _ _ (mkdir_ok W _ _ Hok)).
    set (s3 := log _ (bump 1 s2)).
    destruct (mask_items_spec (observation_dir W cfg) nh nh (prunable_records W v) 0 s3 v
                (le_n _) Hv2 (NoDup_prunable_records v) (prunable_records_valid v))
      as (s4 & Hagree4 & [(paths & Hpl & Hrun & Hv4 & Htr4)|(evs & Hrun & Htr4)]).
    + eexists. split; [|left; exists paths; split; [done|]].
      2:{ rewrite (bind_ok _ _ _ _ _ Hrun).
          rewrite (bind_ok _ _ _ _ _ (emit_log _ _)).
          rewrite (bind_ok _ _ _ _ _ (emit_log _ _)).
          split; [reflexivity|]. split; [exact Hv4|].
          simpl. rewrite Htr4. unfold masking_run_events. simpl.
          rewrite <- !app_assoc. reflexivity. }
      simpl. by eapply agree_below_trans.
    + exists s4. split; [by eapply agree_below_trans|]. right. eexists.
      rewrite (bind_throw _ _ _ _ _ Hrun). split; [done|].
      rewrite Htr4. simpl. rewrite <- !app_assoc. reflexivity.
  - rewrite (bind_throw _ _ _ _ _ (mkdir_fail W _ _ Hok)).
    eexists. split; [|right; eexists; split; [reflexivity|]].
    + exact Hagree2.
    + simpl. rewrite <- !app_assoc. reflexivity.
Qed.

End MaskLoop.

(** ** The masked history *)

Lemma masked_view_cons v rp done :
  masked_view v (rp :: done) = masked_view (mask_at v rp) done.
Proof. reflexivity. Qed.

(** Positions that no record names are left alone. *)
Lemma masked_view_other done : ∀ v pos,
  pos ∉ position <$> done.*1 →
  part_at (masked_view v done) pos = part_at v pos.
Proof.
  induction done as [|rp done IH]; intros v pos Hpos; [done|].
  rewrite masked_view_cons. simpl in Hpos.
  apply not_elem_of_cons in Hpos as [Hne Hpos].
  rewrite IH by done. by apply part_at_mask_other.
Qed.

(** Every record's part is replaced by its masked part, also when several
    records lie in one turn. *)
Lemma masked_view_at done : ∀ v r path p,
  NoDup (position <$> done.*1) →
  (r, path) ∈ done →
  part_at v (position r) = Some p →
  part_at (masked_view v done) (position r) = Some (masked_part p r path).
Proof.
  induction done as [|rp done IH]; intros v r path p Hnd Hin Hp.
  - by apply elem_of_nil in Hin.
  - rewrite masked_view_cons. simpl in Hnd. apply NoDup_cons in Hnd as [Hrp Hnd].
    apply elem_of_cons in Hin as [<-|Hin].
    + rewrite masked_view_other by done.
      unfold mask_at. simpl. rewrite Hp. by eapply part_at_set_same.
    + apply IH; [done..|]. rewrite part_at_mask_other; [done|].
      intros Heq. apply Hrp. rewrite <- Heq.
      apply list_elem_of_fmap. exists r. split; [done|].
      apply list_elem_of_fmap. by exists (r, path).
Qed.

Lemma written_app evs evs' : written (evs ++ evs') = written evs ++ written evs'.
Proof. apply omap_app. Qed.

(** The files written by the loop are the texts of the records, in order. *)
Lemma written_masking_events done : ∀ v,
  NoDup (position <$> done.*1) →
  Forall (fun rp => is_Some (part_at v (position rp.1))) done →
  written (masking_events v done) = (fun rp => (rp.2, content rp.1)) <$> done.
Proof.
  induction done as [|rp done IH]; intros v Hnd Hvalid; [done|].
  simpl in Hnd. apply NoDup_cons in Hnd as [Hrp Hnd].
  apply Forall_cons in Hvalid as [[p Hp] Hvalid].
  simpl. rewrite Hp, written_app. simpl. f_equal.
  apply IH; [done|]. apply Forall_forall. intros rp' Hin.
  rewrite part_at_mask_other; [by apply (proj1 (Forall_forall _ _) Hvalid)|].
  intros Heq. apply Hrp. rewrite <- Heq.
  apply list_elem_of_fmap. exists rp'.1. split; [done|].
  by apply list_elem_of_fmap_2.
Qed.

Lemma io_failed_app evs evs' :
  io_failed (evs ++ evs') ↔ io_failed evs ∨ io_failed evs'.
Proof.
  unfold io_failed. setoid_rewrite elem_of_app. split.
  - intros [[dir [H|H]]|[path [text [H|H]]]]; eauto 6.
  - intros [[[dir H]|[path [text H]]]|[[dir H]|[path [text H]]]]; eauto 6.
Qed.

Lemma masking_events_ok done : ∀ v, ¬ io_failed (masking_events v done).
Proof.
  induction done as [|rp done IH]; intros v.
  - intros [[dir H]|[path [text H]]]; by apply elem_of_nil in H.
  - simpl. rewrite io_failed_app. intros [H|H]; [|by apply (IH _ H)].
    destruct (part_at v (position rp.1)).
    + destruct H as [[dir H]|[path [text H]]];
        repeat (apply elem_of_cons in H as [H|H]; [done|]); by apply elem_of_nil in H.
    + destruct H as [[dir H]|[path [text H]]]; by apply elem_of_nil in H.
Qed.

Lemma estimates_ok v : ¬ io_failed (estimates v).
Proof.
  pose proof (estimates_only v) as Hall.
  intros [[dir H]|[path [text H]]];
    destruct (proj1 (Forall_forall _ _) Hall _ H) as [ps Hps]; done.
Qed.

Lemma masking_run_events_ok W cfg v paths : ¬ io_failed (masking_run_events W cfg v paths).
Proof.
  unfold masking_run_events. rewrite !io_failed_app.
  intros [H|[H|[H|H]]].
  - by apply (estimates_ok v).
  - destruct H as [[dir H]|[path [text H]]];
      repeat (apply elem_of_cons in H as [H|H]; [done|]); by apply elem_of_nil in H.
  - by apply (masking_events_ok _ _ H).
  - destruct H as [[dir H]|[path [text H]]];
      repeat (apply elem_of_cons in H as [H|H]; [done|]); by apply elem_of_nil in H.
Qed.

Lemma written_estimates v : written (estimates v) = [].
Proof.
  pose proof (estimates_only v) as Hall.
  induction Hall as [|e evs [ps ->] _ IH]; [done|]. simpl. apply IH.
Qed.

(** The files written by a run are the texts of the prunable records. *)
Lemma written_masking_run W cfg v paths :
  List.length paths = List.length (prunable_records W v) →
  written (masking_run_events W cfg v paths)
  = (fun rp => (rp.2, content rp.1)) <$> zip (prunable_records W v) paths.
Proof.
  intros Hlen. unfold masking_run_events.
  rewrite !written_app, written_estimates. simpl.
  rewrite written_masking_events.
  - by rewrite app_nil_r.
  - rewrite fst_zip by lia. apply NoDup_prunable_records.
  - apply Forall_forall. intros [r path] Hin. simpl.
    apply elem_of_zip_l in Hin.
    destruct (proj1 (Forall_forall _ _) (prunable_records_valid W v) r Hin)
      as (p & -> & _). done.
Qed.

(** ** Failures of the file system *)

(** C7. Whatever a run of [mask] does, on a store that holds a history at
    [history]: every cell the store had before the call is the same after
    it, so the caller's history array, turns and parts arrays are never
    written to and the history reads as before; and if making the
    directory or writing a file failed during the run, [mask] throws the
    error: no result, and so no history with some parts masked, is
    returned. *)
Theorem mask_atomic (W : World) (cfg : Config) (s s' : state) (history : loc)
    (v : list (list Part)) (r : outcome MaskingResult) :
  history_view (st_heap s) history = Some v →
  mask W history cfg s = (r, s') →
  (∀ l c, st_heap s !! l = Some c → st_heap s' !! l = Some c) ∧
  history_view (st_heap s') history = Some v ∧
  ∃ evs, st_trace s' = st_trace s ++ evs ∧ (io_failed evs → r = Throw IOError).
Proof.
  intros Hv Hrun.
  assert (agree_below (List.length (st_heap s)) (st_heap s) (st_heap s') ∧
          ∃ evs, st_trace s' = st_trace s ++ evs ∧ (io_failed evs → r = Throw IOError))
    as [Hagree Hevs].
  { destruct (decide (prunable_total W v < HYSTERESIS_THRESHOLD)) as [Hlt|Hge].
    - rewrite (mask_no_trigger W cfg s history v Hv Hlt) in Hrun.
      injection Hrun as <- <-. split; [done|].
      exists (estimates v). split; [done|]. intros H. by apply estimates_ok in H.
    - destruct (mask_trigger W cfg s history v Hv ltac:(lia))
        as (s1 & Hagree & [(paths & _ & Hrun1 & _ & Htr)|(evs & Hrun1 & Htr)]);
        rewrite Hrun1 in Hrun; injection Hrun as <- <-; (split; [done|]).
      + eexists. split; [exact Htr|]. intros H. by apply masking_run_events_ok in H.
      + by exists evs. }
  split; [|split; [|done]].
  - intros l c Hl. rewrite Hagree; [done|]. by apply lookup_lt_Some in Hl.
  - by apply (history_view_agree (st_heap s)).
Qed.

(** C7 on three turns with a file system whose second write fails. *)
Lemma mask_atomic_witness :
  (∀ l c,
     Examples.three_turns !! l = Some c →
     st_heap (mask (Examples.world Examples.second_write_fails) 6%nat Examples.config
                (Examples.start Examples.three_turns)).2 !! l = Some c) ∧
  history_view
    (st_heap (mask (Examples.world Examples.second_write_fails) 6%nat Examples.config
                (Examples.start Examples.three_turns)).2) 6%nat
  = Some Examples.three_turns_view ∧
  ∃ evs,
    st_trace (mask (Examples.world Examples.second_write_fails) 6%nat Examples.config
                (Examples.start Examples.three_turns)).2 = [] ++ evs ∧
    (io_failed evs → @Throw MaskingResult IOError = Throw IOError).
Proof.
  apply (mask_atomic (Examples.world Examples.second_write_fails) Examples.config
           (Examples.start Examples.three_turns) _ 6%nat Examples.three_turns_view
           (Throw IOError)).
  - reflexivity.
  - vm_compute. reflexivity.
Defined.

(** ** The key that is replaced *)

Lemma newResponse_record m snippet :
  newResponse (PRecord m) snippet = PRecord (<[replaced_key m := JString snippet]> m).
Proof. unfold newResponse, replaced_key. by repeat case_decide. Qed.

Lemma string_at_Some m k text : string_at m k = Some text ↔ m !! k = Some (JString text).
Proof.
  unfold string_at. destruct (m !! k) as [[]|]; simpl; split; intros; by simplify_eq.
Qed.

Lemma getObservationContent_record p fr m :
  functionResponse p = Some fr → fr_response fr = PRecord m →
  getObservationContent p = text_key m ≫= string_at m.
Proof.
  intros Hfr Hm. unfold getObservationContent, text_key. rewrite Hfr, Hm.
  destruct (string_at m "output") eqn:E1.
  { rewrite decide_True by done. simpl. by rewrite E1. }
  rewrite decide_False by (by intros [? ?]).
  destruct (string_at m "result") eqn:E2.
  { rewrite decide_True by done. simpl. by rewrite E2. }
  rewrite decide_False by (by intros [? ?]).
  destruct (string_at m "stdout") eqn:E3.
  { rewrite decide_True by done. simpl. by rewrite E3. }
  rewrite decide_False by (by intros [? ?]).
  destruct (string_at m "content") eqn:E4.
  { rewrite decide_True by done. simpl. by rewrite E4. }
  by rewrite decide_False by (by intros [? ?]).
Qed.

(** After the replacement, the text of the part is the snippet, whatever
    key was replaced: the replaced key is the first that is present, and it
    now holds a string. *)
Lemma getObservationContent_masked p r path fr :
  functionResponse p = Some fr →
  getObservationContent p = Some (content r) →
  content r ≠ EmptyString →
  formatMaskedSnippet (content r) path (tool_or_unknown (fr_name fr)) (tokens r)
    ≠ EmptyString →
  getObservationContent (masked_part p r path)
  = Some (formatMaskedSnippet (content r) path (tool_or_unknown (fr_name fr)) (tokens r)).
Proof.
  intros Hfr Hget Hne Hsn. unfold masked_part. rewrite Hfr.
  set (snippet := formatMaskedSnippet _ _ _ _) in *.
  unfold getObservationContent in *. rewrite Hfr in Hget. simpl.
  destruct (fr_response fr) as [|t|m] eqn:Hresp; [done| |].
  - simpl. destruct (decide (t = EmptyString)); [done|]. simpl.
    by rewrite decide_False.
  - unfold response_or_empty. rewrite newResponse_record.
    unfold replaced_key, string_at.
    destruct (decide (is_Some (m !! "output"))) as [H1|H1].
    { by rewrite lookup_insert_eq. }
    apply eq_None_not_Some in H1.
    destruct (decide (is_Some (m !! "result"))) as [H2|H2].
    { rewrite lookup_insert_ne, H1 by done. simpl. by rewrite lookup_insert_eq. }
    apply eq_None_not_Some in H2.
    destruct (decide (is_Some (m !! "stdout"))) as [H3|H3].
    { rewrite lookup_insert_ne, H1 by done. simpl.
      rewrite lookup_insert_ne, H2 by done. simpl. by rewrite lookup_insert_eq. }
    apply eq_None_not_Some in H3.
    destruct (decide (is_Some (m !! "content"))) as [H4|H4].
    { rewrite lookup_insert_ne, H1 by done. simpl.
      rewrite lookup_insert_ne, H2 by done. simpl.
      rewrite lookup_insert_ne, H3 by done. simpl. by rewrite lookup_insert_eq. }
    by rewrite lookup_insert_eq.
Qed.

(** When the text is under the replaced key and the snippet is the text,
    the new part is the old one. *)
Lemma masked_part_same p r path fr :
  functionResponse p = Some fr →
  getObservationContent p = Some (content r) →
  text_under_replaced_key p →
  formatMaskedSnippet (content r) path (tool_or_unknown (fr_name fr)) (tokens r)
  = content r →
  masked_part p r path = p.
Proof.
  intros Hfr Hget Hkey Hsn. unfold masked_part. rewrite Hfr, Hsn.
  unfold text_under_replaced_key in Hkey. rewrite Hfr in Hkey.
  destruct p as [fr' rest]. simpl in *. subst fr'.
  destruct fr as [name resp frest]. unfold with_response. simpl in *.
  do 3 f_equal.
  destruct resp as [|t|m]; [done| |].
  - unfold getObservationContent in Hget. simpl in Hget.
    destruct (decide (t = EmptyString)) as [->|Hne]; [done|].
    simpl. rewrite decide_False by done. simpl. congruence.
  - unfold response_or_empty. rewrite newResponse_record. f_equal. apply insert_id.
    erewrite getObservationContent_record in Hget; [|simpl; reflexivity..].
    rewrite Hkey in Hget. simpl in Hget. by apply string_at_Some.
Qed.

(** ** Runs that mask *)

Section Triggered.

Variable W : World.

(** A run over the threshold that returns has masked every prunable
    record. *)
Lemma mask_trigger_ok cfg s s' history v res :
  history_view (st_heap s) history = Some v →
  HYSTERESIS_THRESHOLD ≤ prunable_total W v →
  mask W history cfg s = (Ok res, s') →
  ∃ paths,
    List.length paths = List.length (prunable_records W v) ∧
    res = masking_result W v paths (List.length (st_heap s)) ∧
    history_view (st_heap s') (newHistory res)
    = Some (masked_view v (zip (prunable_records W v) paths)) ∧
    st_trace s' = st_trace s ++ masking_run_events W cfg v paths.
Proof.
  intros Hv Hge Hrun.
  destruct (mask_trigger W cfg s history v Hv Hge)
    as (s1 & _ & [(paths & Hlen & Hrun1 & Hv1 & Htr)|(evs & Hrun1 & _)]);
    rewrite Hrun1 in Hrun; [|done].
  injection Hrun as <- <-. by exists paths.
Qed.

Lemma zip_records v (paths : list string) :
  List.length paths = List.length (prunable_records W v) →
  (zip (prunable_records W v) paths).*1 = prunable_records W v.
Proof. intros Hlen. apply fst_zip. lia. Qed.

Lemma record_has_path v (paths : list string) r :
  List.length paths = List.length (prunable_records W v) →
  r ∈ prunable_records W v → ∃ path, (r, path) ∈ zip (prunable_records W v) paths.
Proof.
  intros Hlen Hr. rewrite <- (zip_records v paths Hlen) in Hr.
  apply list_elem_of_fmap in Hr as ([r' path] & -> & Hin). by exists path.
Qed.

(** The part of a prunable record in the returned history. *)
Lemma masked_record v (paths : list string) r path :
  List.length paths = List.length (prunable_records W v) →
  (r, path) ∈ zip (prunable_records W v) paths →
  ∃ p fr,
    part_at v (position r) = Some p ∧
    functionResponse p = Some fr ∧
    getObservationContent p = Some (content r) ∧
    content r ≠ EmptyString ∧
    tokens r = estimateTokenCountSync W [p] ∧
    part_at (masked_view v (zip (prunable_records W v) paths)) (position r)
    = Some (masked_part p r path).
Proof.
  intros Hlen Hin. pose proof (elem_of_zip_l _ _ _ _ Hin) as Hr.
  apply elem_of_prunable_records, elem_of_observations in Hr as (p & Hp & Ho & Ht).
  pose proof Ho as Ho'. apply observation_functionResponse in Ho' as [Hget [fr Hfr]].
  exists p, fr. repeat split; try done.
  - unfold observation in Ho. rewrite Hget in Ho. by destruct (decide _).
  - apply masked_view_at; [|done..]. rewrite zip_records by done.
    apply NoDup_prunable_records.
Qed.

Lemma sumZ_app l l' : sumZ (l ++ l') = sumZ l + sumZ l'.
Proof. induction l as [|x l IH]; simpl; lia. Qed.

(** [tokensSaved] is the sum of what the records add to it. *)
Lemma savings_sum done : ∀ v,
  NoDup (position <$> done.*1) →
  Forall (fun rp => is_Some (part_at v (position rp.1))) done →
  savings W v done = sumZ (contribution W (masked_view v done) <$> done.*1).
Proof.
  induction done as [|rp done IH]; intros v Hnd Hvalid; [done|].
  simpl in Hnd. apply NoDup_cons in Hnd as [Hrp Hnd].
  apply Forall_cons in Hvalid as [[p Hp] Hvalid].
  rewrite masked_view_cons, !fmap_cons. cbn [savings sumZ foldr]. rewrite Hp.
  fold (sumZ (contribution W (masked_view (mask_at v rp) done) <$> done.*1)). f_equal.
  - unfold contribution. rewrite masked_view_other by done.
    unfold mask_at. rewrite Hp. by erewrite part_at_set_same.
  - apply IH; [done|]. apply Forall_forall. intros rp' Hin.
    rewrite part_at_mask_other; [by apply (proj1 (Forall_forall _ _) Hvalid)|].
    intros Heq. apply Hrp. rewrite <- Heq.
    apply list_elem_of_fmap. exists rp'.1. split; [done|].
    by apply list_elem_of_fmap_2.
Qed.

End Triggered.

(** C10. In the history a masking run returns, the part of every prunable
    record is the masked part made from the original part and the record's
    offload file, and every other part is the one the caller's history has
    at that position.  This holds for all the records of a turn at once:
    masking one part of a turn does not undo the masking of another. *)
Theorem maskings_survive (W : World) (cfg : Config) (s s' : state) (history : loc)
    (v : list (list Part)) (res : MaskingResult) :
  history_view (st_heap s) history = Some v →
  HYSTERESIS_THRESHOLD ≤ prunable_total W v →
  mask W history cfg s = (Ok res, s') →
  ∃ v' paths,
    history_view (st_heap s') (newHistory res) = Some v' ∧
    List.length paths = List.length (prunable_records W v) ∧
    (∀ r path, (r, path) ∈ zip (prunable_records W v) paths →
       ∃ p, part_at v (position r) = Some p ∧
            part_at v' (position r) = Some (masked_part p r path) ∧
            (path, content r) ∈ written (drop (List.length (st_trace s)) (st_trace s'))) ∧
    (∀ r1 r2, r1 ∈ prunable_records W v → r2 ∈ prunable_records W v →
       contentIndex r1 = contentIndex r2 → partIndex r1 ≠ partIndex r2 →
       ∃ p1 p2 path1 path2,
         part_at v (position r1) = Some p1 ∧ part_at v (position r2) = Some p2 ∧
         part_at v' (position r1) = Some (masked_part p1 r1 path1) ∧
         part_at v' (position r2) = Some (masked_part p2 r2 path2)) ∧
    (∀ pos, pos ∉ position <$> prunable_records W v → part_at v' pos = part_at v pos).
Proof.
  intros Hv Hge Hrun.
  destruct (mask_trigger_ok W cfg s s' history v res Hv Hge Hrun)
    as (paths & Hlen & -> & Hv' & Htr).
  eexists _, paths. split; [exact Hv'|]. split; [done|].
  assert (∀ r path, (r, path) ∈ zip (prunable_records W v) paths →
    ∃ p, part_at v (position r) = Some p ∧
         part_at (masked_view v (zip (prunable_records W v) paths)) (position r)
         = Some (masked_part p r path)) as Hmasked.
  { intros r path Hin.
    destruct (masked_record W v paths r path Hlen Hin) as (p & fr & Hp & _ & _ & _ & _ & Hp').
    by exists p. }
  split; [|split].
  - intros r path Hin. destruct (Hmasked r path Hin) as (p & Hp & Hp').
    exists p. split; [done|]. split; [done|].
    rewrite Htr, drop_app_length, written_masking_run by done.
    apply list_elem_of_fmap. by exists (r, path).
  - intros r1 r2 Hr1 Hr2 _ _.
    destruct (record_has_path W v paths r1 Hlen Hr1) as [path1 Hin1].
    destruct (record_has_path W v paths r2 Hlen Hr2) as [path2 Hin2].
    destruct (Hmasked r1 path1 Hin1) as (p1 & Hp1 & Hp1').
    destruct (Hmasked r2 path2 Hin2) as (p2 & Hp2 & Hp2').
    by exists p1, p2, path1, path2.
  - intros pos Hpos. apply masked_view_other. by rewrite zip_records.
Qed.

(** C10 on a turn with two prunable observations. *)
Lemma maskings_survive_witness :
  ∃ v' paths,
    history_view
      (st_heap (mask (Examples.world Examples.always) 4%nat Examples.config
                  (Examples.start Examples.two_in_one_turn)).2) 5%nat = Some v' ∧
    List.length paths
    = List.length (prunable_records (Examples.world Examples.always)
                     Examples.two_in_one_turn_view) ∧
    (∀ r path,
       (r, path) ∈ zip (prunable_records (Examples.world Examples.always)
                          Examples.two_in_one_turn_view) paths →
       ∃ p, part_at Examples.two_in_one_turn_view (position r) = Some p ∧
            part_at v' (position r) = Some (masked_part p r path) ∧
            (path, content r)
            ∈ written (drop (List.length (@nil event))
                         (st_trace (mask (Examples.world Examples.always) 4%nat
                                      Examples.config
                                      (Examples.start Examples.two_in_one_turn)).2))) ∧
    (∀ r1 r2,
       r1 ∈ prunable_records (Examples.world Examples.always) Examples.two_in_one_turn_view →
       r2 ∈ prunable_records (Examples.world Examples.always) Examples.two_in_one_turn_view →
       contentIndex r1 = contentIndex r2 → partIndex r1 ≠ partIndex r2 →
       ∃ p1 p2 path1 path2,
         part_at Examples.two_in_one_turn_view (position r1) = Some p1 ∧
         part_at Examples.two_in_one_turn_view (position r2) = Some p2 ∧
         part_at v' (position r1) = Some (masked_part p1 r1 path1) ∧
         part_at v' (position r2) = Some (masked_part p2 r2 path2)) ∧
    (∀ pos,
       pos ∉ position <$> prunable_records (Examples.world Examples.always)
                            Examples.two_in_one_turn_view →
       part_at v' pos = part_at Examples.two_in_one_turn_view pos).
Proof.
  apply (maskings_survive (Examples.world Examples.always) Examples.config
           (Examples.start Examples.two_in_one_turn) _ 4%nat
           Examples.two_in_one_turn_view
           {| newHistory := 5%nat; maskedCount := 2; tokensSaved := 0 |}).
  - reflexivity.
  - vm_compute. discriminate.
  - vm_compute. reflexivity.
Defined.

(** ** Every prunable record is offloaded and counted *)

(** C4, as amended.  A run over the threshold that returns (no call of
    the file system failed) has processed every record of the prunable
    list: [maskedCount] is the length of the list, and the files written
    during the run hold, in the order of the list, the full texts of the
    records.  This includes a record whose text has at most 50,000
    characters: the part at its position in the returned history still
    reads the same text, and when the text was held by the key that the
    masking step overwrites (or the payload is a string), the part is the
    original one and the record adds nothing to [tokensSaved], which is the
    sum of what the records add. *)
Theorem every_record_offloaded (W : World) (cfg : Config) (s s' : state) (history : loc)
    (v : list (list Part)) (res : MaskingResult) :
  history_view (st_heap s) history = Some v →
  HYSTERESIS_THRESHOLD ≤ prunable_total W v →
  mask W history cfg s = (Ok res, s') →
  maskedCount res = Z.of_nat (List.length (prunable_records W v)) ∧
  ∃ evs v',
    st_trace s' = st_trace s ++ evs ∧
    (written evs).*2 = content <$> prunable_records W v ∧
    history_view (st_heap s') (newHistory res) = Some v' ∧
    tokensSaved res = sumZ (contribution W v' <$> prunable_records W v) ∧
    ∀ r, r ∈ prunable_records W v → JsString.length (content r) ≤ 50000 →
      ∃ p p',
        part_at v (position r) = Some p ∧
        part_at v' (position r) = Some p' ∧
        getObservationContent p' = Some (content r) ∧
        (text_under_replaced_key p → p' = p ∧ contribution W v' r = 0).
Proof.
  intros Hv Hge Hrun.
  destruct (mask_trigger_ok W cfg s s' history v res Hv Hge Hrun)
    as (paths & Hlen & -> & Hv' & Htr).
  split; [done|].
  eexists _, _. split; [exact Htr|]. split; [|split; [exact Hv'|split]].
  - rewrite written_masking_run by done.
    rewrite <- list_fmap_compose.
    rewrite <- (zip_records W v paths Hlen) at 2.
    rewrite <- list_fmap_compose. done.
  - simpl. rewrite savings_sum.
    + by rewrite zip_records.
    + rewrite zip_records by done. apply NoDup_prunable_records.
    + apply Forall_forall. intros [r path] Hin. simpl.
      destruct (masked_record W v paths r path Hlen Hin) as (p & _ & -> & _). done.
  - intros r Hr Hsmall.
    destruct (record_has_path W v paths r Hlen Hr) as [path Hin].
    destruct (masked_record W v paths r path Hlen Hin)
      as (p & fr & Hp & Hfr & Hget & Hne & Htok & Hp').
    pose proof (snippet_short (content r) path (tool_or_unknown (fr_name fr)) (tokens r)
                  Hsmall) as Hsn.
    exists p, (masked_part p r path). split; [done|]. split; [done|]. split.
    + rewrite (getObservationContent_masked p r path fr Hfr Hget Hne)
        by (by rewrite Hsn).
      by rewrite Hsn.
    + intros Hkey.
      pose proof (masked_part_same p r path fr Hfr Hget Hkey Hsn) as Hsame.
      split; [done|]. unfold contribution. rewrite Hp', Hsame, Htok. lia.
Qed.

(** C4 on three turns whose two prunable observations are short. *)
Lemma every_record_offloaded_witness :
  2 = Z.of_nat (List.length (prunable_records (Examples.world Examples.always)
                               Examples.three_turns_view)) ∧
  ∃ evs v',
    st_trace (mask (Examples.world Examples.always) 6%nat Examples.config
                (Examples.start Examples.three_turns)).2 = [] ++ evs ∧
    (written evs).*2
    = content <$> prunable_records (Examples.world Examples.always)
                    Examples.three_turns_view ∧
    history_view
      (st_heap (mask (Examples.world Examples.always) 6%nat Examples.config
                  (Examples.start Examples.three_turns)).2) 7%nat = Some v' ∧
    0 = sumZ (contribution (Examples.world Examples.always) v'
                <$> prunable_records (Examples.world Examples.always)
                      Examples.three_turns_view) ∧
    ∀ r,
      r ∈ prunable_records (Examples.world Examples.always) Examples.three_turns_view →
      JsString.length (content r) ≤ 50000 →
      ∃ p p',
        part_at Examples.three_turns_view (position r) = Some p ∧
        part_at v' (position r) = Some p' ∧
        getObservationContent p' = Some (content r) ∧
        (text_under_replaced_key p →
         p' = p ∧ contribution (Examples.world Examples.always) v' r = 0).
Proof.
  apply (every_record_offloaded (Examples.world Examples.always) Examples.config
           (Examples.start Examples.three_turns) _ 6%nat Examples.three_turns_view
           {| newHistory := 7%nat; maskedCount := 2; tokensSaved := 0 |}).
  - reflexivity.
  - vm_compute. discriminate.
  - vm_compute. reflexivity.
Defined.

(** C4, as stated, fails when a write fails: on three turns with two
    prunable records of 120,000 tokens together, the run triggers, the
    second write fails, [mask] throws, and the text of the second record is
    in no file. *)
Lemma failed_write_leaves_record :
  prunable_total (Examples.world Examples.second_write_fails) Examples.three_turns_view
  = 120000 ∧
  content <$> prunable_records (Examples.world Examples.second_write_fails)
                Examples.three_turns_view = ["BBBBBB"; "AAAAAA"] ∧
  (mask (Examples.world Examples.second_write_fails) 6%nat Examples.config
     (Examples.start Examples.three_turns)).1 = Throw IOError ∧
  (written (st_trace (mask (Examples.world Examples.second_write_fails) 6%nat
                        Examples.config (Examples.start Examples.three_turns)).2)).*2
  = ["BBBBBB"].
Proof. vm_compute. done. Qed.

(** ** A second run *)

Section SecondRun.

Variable W : World.

Lemma observations_unmasked v r :
  r ∈ observations W v → isAlreadyMasked (content r) = false.
Proof.
  intros (p & _ & Ho & _)%elem_of_observations.
  unfold observation in Ho. destruct (getObservationContent p) as [oc|]; [|done].
  destruct (decide _); [done|].
  destruct (isAlreadyMasked oc) eqn:E; [done|]. by injection Ho as <-.
Qed.

(** No run that returns writes a file with a text that carries the
    marker. *)
Lemma written_unmasked cfg s s' history v res path text :
  history_view (st_heap s) history = Some v →
  mask W history cfg s = (Ok res, s') →
  (path, text) ∈ written (drop (List.length (st_trace s)) (st_trace s')) →
  isAlreadyMasked text = false.
Proof.
  intros Hv Hrun Hin.
  destruct (decide (prunable_total W v < HYSTERESIS_THRESHOLD)) as [Hlt|Hge].
  - rewrite (mask_no_trigger W cfg s history v Hv Hlt) in Hrun.
    injection Hrun as _ <-. simpl in Hin.
    rewrite drop_app_length, written_estimates in Hin. by apply elem_of_nil in Hin.
  - destruct (mask_trigger_ok W cfg s s' history v res Hv ltac:(lia) Hrun)
      as (paths & Hlen & _ & _ & Htr).
    rewrite Htr, drop_app_length, written_masking_run in Hin by done.
    apply list_elem_of_fmap in Hin as ([r path'] & [= -> ->] & Hin).
    apply elem_of_zip_l in Hin. simpl.
    by apply (observations_unmasked v), elem_of_prunable_records.
Qed.

End SecondRun.

(** C5, as amended.  After a masking run that returns, every prunable
    record whose text has more than 50,000 characters stands in the
    returned history as a part whose text carries the marker.  A second
    run passes it over: the loop body of the scan leaves the running sum
    and the prunable list as they are and does not ask the estimator; the
    part is not among the records the scan accounts for and not in the
    prunable list; and no run on the returned history that returns writes a
    file with its text.  A prunable record whose text has at most 50,000
    characters stands in the returned history as a part that still reads
    this text, which carries no marker: the scan of a second run accounts
    for it again, as a record at the same position with the same text. *)
Theorem truncated_parts_excluded (W : World) (cfg : Config) (s s1 : state) (history : loc)
    (v : list (list Part)) (res : MaskingResult) :
  history_view (st_heap s) history = Some v →
  HYSTERESIS_THRESHOLD ≤ prunable_total W v →
  mask W history cfg s = (Ok res, s1) →
  ∃ v1,
    history_view (st_heap s1) (newHistory res) = Some v1 ∧
    (∀ r, r ∈ prunable_records W v → 50000 < JsString.length (content r) →
       ∃ p1 text,
         part_at v1 (position r) = Some p1 ∧
         getObservationContent p1 = Some text ∧
         isAlreadyMasked text = true ∧
         (∀ i j st s2, scan_part W i j p1 st s2 = (Ok st, s2)) ∧
         (position r ∉ position <$> observations W v1) ∧
         (position r ∉ position <$> prunable_records W v1) ∧
         (∀ cfg2 s2 s3 res2 path,
            history_view (st_heap s2) (newHistory res) = Some v1 →
            mask W (newHistory res) cfg2 s2 = (Ok res2, s3) →
            (path, text) ∉ written (drop (List.length (st_trace s2)) (st_trace s3)))) ∧
    (∀ r, r ∈ prunable_records W v → JsString.length (content r) ≤ 50000 →
       ∃ p1,
         part_at v1 (position r) = Some p1 ∧
         getObservationContent p1 = Some (content r) ∧
         isAlreadyMasked (content r) = false ∧
         {| contentIndex := contentIndex r; partIndex := partIndex r;
            tokens := estimateTokenCountSync W [p1]; content := content r |}
         ∈ observations W v1).
Proof.
  intros Hv Hge Hrun.
  destruct (mask_trigger_ok W cfg s s1 history v res Hv Hge Hrun)
    as (paths & Hlen & -> & Hv1 & _).
  eexists. split; [exact Hv1|]. split.
  - intros r Hr Hlong.
    destruct (record_has_path W v paths r Hlen Hr) as [path Hin].
    destruct (masked_record W v paths r path Hlen Hin)
      as (p & fr & Hp & Hfr & Hget & Hne & Htok & Hp1).
    set (text := formatMaskedSnippet (content r) path (tool_or_unknown (fr_name fr))
                   (tokens r)).
    assert (getObservationContent (masked_part p r path) = Some text) as Hget1.
    { apply getObservationContent_masked; [done..|]. by apply snippet_nonempty. }
    assert (isAlreadyMasked text = true) as Hmarked by (by apply snippet_marked).
    assert (observation (masked_part p r path) = None) as Hobs.
    { unfold observation. rewrite Hget1, Hmarked. by destruct (decide _). }
    assert (position r ∉ position <$> observations W
              (masked_view v (zip (prunable_records W v) paths))) as Hnot.
    { intros (r' & Heq & Hr')%list_elem_of_fmap.
      apply elem_of_observations in Hr' as (p' & Hp' & Ho & _).
      rewrite <- Heq, Hp1 in Hp'. injection Hp' as <-. by rewrite Hobs in Ho. }
    exists (masked_part p r path), text.
    split; [done|]. split; [done|]. split; [done|]. split; [|split; [done|split]].
    + intros i j st s2. rewrite scan_part_spec.
      unfold scan_step, scan_events, record_of. simpl. rewrite Hobs. simpl.
      by rewrite log_nil.
    + intros Hin'. apply Hnot.
      apply list_elem_of_fmap in Hin' as (r' & Heq & Hr').
      apply list_elem_of_fmap. exists r'. split; [done|].
      by apply elem_of_prunable_records.
    + intros cfg2 s2 s3 res2 path2 Hv2 Hrun2 Hin2.
      pose proof (written_unmasked W cfg2 s2 s3 _ _ res2 path2 text Hv2 Hrun2 Hin2).
      congruence.
  - intros r Hr Hshort.
    destruct (record_has_path W v paths r Hlen Hr) as [path Hin].
    destruct (masked_record W v paths r path Hlen Hin)
      as (p & fr & Hp & Hfr & Hget & Hne & Htok & Hp1).
    assert (getObservationContent (masked_part p r path) = Some (content r)) as Hget1.
    { pose proof (getObservationContent_masked p r path fr Hfr Hget Hne) as Hsnip.
      rewrite snippet_short in Hsnip by done. by apply Hsnip. }
    assert (isAlreadyMasked (content r) = false) as Hplain.
    { by apply (observations_unmasked W v), elem_of_prunable_records. }
    exists (masked_part p r path).
    split; [done|]. split; [done|]. split; [done|].
    apply elem_of_observations. exists (masked_part p r path).
    split; [exact Hp1|]. split; [|done]. simpl.
    unfold observation. rewrite Hget1, Hplain. by destruct (decide _).
Qed.

(** C5 on a history with a prunable observation of 60,000 characters and
    an older one of six. *)
Lemma truncated_parts_excluded_witness :
  ∃ v1,
    history_view
      (st_heap (mask (Examples.world Examples.always) 6%nat Examples.config
                  (Examples.start Examples.short_and_long)).2) 7%nat = Some v1 ∧
    (∀ r,
       r ∈ prunable_records (Examples.world Examples.always) Examples.short_and_long_view →
       50000 < JsString.length (content r) →
       ∃ p1 text,
         part_at v1 (position r) = Some p1 ∧
         getObservationContent p1 = Some text ∧
         isAlreadyMasked text = true ∧
         (∀ i j st s2,
            scan_part (Examples.world Examples.always) i j p1 st s2 = (Ok st, s2)) ∧
         (position r ∉ position <$> observations (Examples.world Examples.always) v1) ∧
         (position r ∉ position <$> prunable_records (Examples.world Examples.always) v1) ∧
         (∀ cfg2 s2 s3 res2 path,
            history_view (st_heap s2) 7%nat = Some v1 →
            mask (Examples.world Examples.always) 7%nat cfg2 s2 = (Ok res2, s3) →
            (path, text) ∉ written (drop (List.length (st_trace s2)) (st_trace s3)))) ∧
    (∀ r,
       r ∈ prunable_records (Examples.world Examples.always) Examples.short_and_long_view →
       JsString.length (content r) ≤ 50000 →
       ∃ p1,
         part_at v1 (position r) = Some p1 ∧
         getObservationContent p1 = Some (content r) ∧
         isAlreadyMasked (content r) = false ∧
         {| contentIndex := contentIndex r; partIndex := partIndex r;
            tokens := estimateTokenCountSync (Examples.world Examples.always) [p1];
            content := content r |}
         ∈ observations (Examples.world Examples.always) v1).
Proof.
  apply (truncated_parts_excluded (Examples.world Examples.always) Examples.config
           (Examples.start Examples.short_and_long) _ 6%nat
           Examples.short_and_long_view
           {| newHistory := 7%nat; maskedCount := 2; tokensSaved := 192900000 |}).
  - reflexivity.
  - vm_compute. discriminate.
  - apply run_returns. vm_compute. reflexivity.
Defined.

(** C5, as stated, fails for records that are too small to truncate: on
    three turns with short texts the first run masks the observations at
    (1, 0) and (0, 0) and returns the history at location 7; their texts are
    unchanged, so the second run finds both prunable once more and writes
    both files a second time. *)
Lemma short_records_masked_again :
  Examples.first_run.1 = Ok {| newHistory := 7%nat; maskedCount := 2; tokensSaved := 0 |} ∧
  position <$> prunable_records (Examples.world Examples.always) Examples.three_turns_view
  = [(1, 0); (0, 0)]%nat ∧
  (prunable_records (Examples.world Examples.always)
   <$> history_view (st_heap Examples.first_run.2) 7%nat)
  = Some (prunable_records (Examples.world Examples.always) Examples.three_turns_view) ∧
  Examples.second_run.1
  = Ok {| newHistory := 12%nat; maskedCount := 2; tokensSaved := 0 |} ∧
  (written (st_trace Examples.second_run.2)).*2 = ["BBBBBB"; "AAAAAA"; "BBBBBB"; "AAAAAA"].
Proof. vm_compute. done. Qed.

(** ** The key that held the text *)

(** C6 at a payload [{ output: 42, result: "AAAAAA" }].  The text of the
    observation is taken from [result], the first key that holds a string;
    the masking step overwrites [output], the first key that is present.
    After the run the payload is [{ output: "AAAAAA", result: "AAAAAA" }]:
    the key that held the text is not the one replaced, and another key of
    the payload has changed.  The text is short, so the snippet is the
    text, and yet the record takes 60,000 tokens off [tokensSaved]. *)
Lemma wrong_key_replaced :
  getObservationContent (Examples.tool_part "tool1" Examples.numeric_output)
  = Some "AAAAAA" ∧
  text_key {[ "output" := JNumber 42; "result" := JString "AAAAAA" ]} = Some "result" ∧
  replaced_key {[ "output" := JNumber 42; "result" := JString "AAAAAA" ]} = "output" ∧
  (mask (Examples.world Examples.always) 4%nat Examples.config
     (Examples.start Examples.text_under_result)).1
  = Ok {| newHistory := 5%nat; maskedCount := 1; tokensSaved := -60000 |} ∧
  (Examples.payloads
   <$> history_view
         (st_heap (mask (Examples.world Examples.always) 4%nat Examples.config
                     (Examples.start Examples.text_under_result)).2) 5%nat)
  = Some [[("output", JString "AAAAAA"); ("result", JString "AAAAAA")];
          [("output", JString "CC")]].
Proof. vm_compute. done. Qed.

(** What the masking step keeps of a part, whatever the payload: the
    fields of the part and of the function response outside the payload,
    and every key of a record payload but the one it overwrites. *)
Lemma masked_part_frame (p : Part) (fr : FunctionResponse) (r : PrunablePart)
    (path : string) :
  functionResponse p = Some fr →
  ∃ fr',
    functionResponse (masked_part p r path) = Some fr' ∧
    part_rest (masked_part p r path) = part_rest p ∧
    fr_name fr' = fr_name fr ∧
    fr_rest fr' = fr_rest fr ∧
    ∀ m, fr_response fr = PRecord m →
      ∃ m', fr_response fr' = PRecord m' ∧
            ∀ k, k ≠ replaced_key m → m' !! k = m !! k.
Proof.
  intros Hfr. unfold masked_part. rewrite Hfr. unfold with_response. simpl.
  eexists. split; [reflexivity|]. simpl. repeat split.
  intros m ->. unfold response_or_empty. rewrite newResponse_record.
  eexists. split; [reflexivity|]. intros k Hk. by apply lookup_insert_ne.
Qed.

(** When the text of the observation is under the key that the masking
    step overwrites, the step replaces the value of exactly that key by the
    snippet (the whole payload when it is a string). *)
Lemma masked_part_text_key (p : Part) (fr : FunctionResponse) (r : PrunablePart)
    (path : string) :
  functionResponse p = Some fr →
  getObservationContent p = Some (content r) →
  text_under_replaced_key p →
  match fr_response fr with
  | PString text =>
      text = content r ∧
      functionResponse (masked_part p r path)
      = Some {| fr_name := fr_name fr;
                fr_response := PString (formatMaskedSnippet (content r) path
                                          (tool_or_unknown (fr_name fr)) (tokens r));
                fr_rest := fr_rest fr |}
  | PRecord m =>
      ∃ k, text_key m = Some k ∧ m !! k = Some (JString (content r)) ∧
           functionResponse (masked_part p r path)
           = Some {| fr_name := fr_name fr;
                     fr_response :=
                       PRecord (<[k := JString (formatMaskedSnippet (content r) path
                                                 (tool_or_unknown (fr_name fr))
                                                 (tokens r))]> m);
                     fr_rest := fr_rest fr |}
  | PAbsent => False
  end.
Proof.
  intros Hfr Hget Hkey. unfold text_under_replaced_key in Hkey. rewrite Hfr in Hkey.
  unfold masked_part. rewrite Hfr. unfold with_response. simpl.
  destruct (fr_response fr) as [|text|m] eqn:Hresp; [done| |].
  - unfold getObservationContent in Hget. rewrite Hfr, Hresp in Hget.
    destruct (decide (text = EmptyString)) as [|Hne]; [done|].
    injection Hget as ->. split; [done|].
    unfold response_or_empty. by rewrite decide_False.
  - exists (replaced_key m). split; [done|].
    erewrite getObservationContent_record in Hget by done.
    rewrite Hkey in Hget. simpl in Hget. apply string_at_Some in Hget.
    split; [done|]. unfold response_or_empty. by rewrite newResponse_record.
Qed.

(** The masking step at the payload [{ output: "AAAAAA" }]. *)
Lemma masked_part_frame_witness :
  ∃ fr',
    functionResponse
      (masked_part (Examples.tool_part "tool1" (Examples.output "AAAAAA"))
         Examples.short_record "/h/observations/tool1_1_r.txt") = Some fr' ∧
    part_rest
      (masked_part (Examples.tool_part "tool1" (Examples.output "AAAAAA"))
         Examples.short_record "/h/observations/tool1_1_r.txt")
    = part_rest (Examples.tool_part "tool1" (Examples.output "AAAAAA")) ∧
    fr_name fr' = Some "tool1" ∧
    fr_rest fr' = ∅ ∧
    ∀ m, Examples.output "AAAAAA" = PRecord m →
      ∃ m', fr_response fr' = PRecord m' ∧
            ∀ k, k ≠ replaced_key m → m' !! k = m !! k.
Proof.
  apply (masked_part_frame (Examples.tool_part "tool1" (Examples.output "AAAAAA"))
           {| fr_name := Some "tool1"; fr_response := Examples.output "AAAAAA";
              fr_rest := ∅ |}
           Examples.short_record "/h/observations/tool1_1_r.txt").
  reflexivity.
Defined.

Lemma masked_part_text_key_witness :
  ∃ k,
    text_key {[ "output" := JString "AAAAAA" ]} = Some k ∧
    ({[ "output" := JString "AAAAAA" ]} : gmap string jsval) !! k
    = Some (JString "AAAAAA") ∧
    functionResponse
      (masked_part (Examples.tool_part "tool1" (Examples.output "AAAAAA"))
         Examples.short_record "/h/observations/tool1_1_r.txt")
    = Some {| fr_name := Some "tool1";
              fr_response :=
                PRecord (<[k := JString (formatMaskedSnippet "AAAAAA"
                                          "/h/observations/tool1_1_r.txt"
                                          (tool_or_unknown (Some "tool1")) 60000)]>
                           {[ "output" := JString "AAAAAA" ]});
              fr_rest := ∅ |}.
Proof.
  apply (masked_part_text_key (Examples.tool_part "tool1" (Examples.output "AAAAAA"))
           {| fr_name := Some "tool1"; fr_response := Examples.output "AAAAAA";
              fr_rest := ∅ |}
           Examples.short_record "/h/observations/tool1_1_r.txt").
  - reflexivity.
  - reflexivity.
  - reflexivity.
Defined.

(** ** The summary sent to telemetry *)

Lemma masking_events_no_telemetry done : ∀ v,
  Forall (fun e => ¬ is_telemetry e) (masking_events v done).
Proof.
  induction done as [|rp done IH]; intros v; [constructor|].
  simpl. apply Forall_app. split; [|apply IH].
  destruct (part_at v (position rp.1)); [|constructor].
  apply Forall_cons. split; [intros (? & ? & ? & ? & ?); done|].
  apply Forall_cons. split; [intros (? & ? & ? & ? & ?); done|constructor].
Qed.

(** A masking run that returns sends one summary to telemetry, as the last
    thing it does: the prunable total before, the prunable total less the
    tokens saved after, the masked count and the prunable total. *)
Theorem telemetry_summary (W : World) (cfg : Config) (s s' : state) (history : loc)
    (v : list (list Part)) (res : MaskingResult) :
  history_view (st_heap s) history = Some v →
  HYSTERESIS_THRESHOLD ≤ prunable_total W v →
  mask W history cfg s = (Ok res, s') →
  ∃ evs,
    st_trace s' = st_trace s ++ evs
                  ++ [EvTelemetry (prunable_total W v)
                        (prunable_total W v - tokensSaved res)
                        (maskedCount res) (prunable_total W v)] ∧
    Forall (fun e => ¬ is_telemetry e) evs.
Proof.
  intros Hv Hge Hrun.
  destruct (mask_trigger_ok W cfg s s' history v res Hv Hge Hrun)
    as (paths & Hlen & -> & _ & Htr).
  unfold masking_run_events in Htr. simpl.
  exists (estimates v
          ++ [EvDebugLog (trigger_message (prunable_total W v));
              EvMkdir (observation_dir W cfg) true]
          ++ masking_events v (zip (prunable_records W v) paths)
          ++ [EvDebugLog
                (summary_message (Z.of_nat (List.length (prunable_records W v)))
                   (savings W v (zip (prunable_records W v) paths)))]).
  split.
  { rewrite Htr. rewrite <- !app_assoc. reflexivity. }
  assert (∀ msg, ¬ is_telemetry (EvDebugLog msg)) as Hdebug
    by (intros msg (? & ? & ? & ? & ?); done).
  rewrite !Forall_app. repeat split.
  - eapply Forall_impl; [apply estimates_only|].
    intros e [ps ->] (? & ? & ? & ? & ?). done.
  - apply Forall_cons. split; [apply Hdebug|]. apply Forall_cons. split; [|constructor].
    intros (? & ? & ? & ? & ?). done.
  - apply masking_events_no_telemetry.
  - apply Forall_cons. split; [apply Hdebug|constructor].
Qed.

Lemma telemetry_summary_witness :
  ∃ evs,
    st_trace (mask (Examples.world Examples.always) 6%nat Examples.config
                (Examples.start Examples.three_turns)).2
    = [] ++ evs
      ++ [EvTelemetry
            (prunable_total (Examples.world Examples.always) Examples.three_turns_view)
            (prunable_total (Examples.world Examples.always) Examples.three_turns_view - 0)
            2 (prunable_total (Examples.world Examples.always) Examples.three_turns_view)] ∧
    Forall (fun e => ¬ is_telemetry e) evs.
Proof.
  apply (telemetry_summary (Examples.world Examples.always) Examples.config
           (Examples.start Examples.three_turns) _ 6%nat Examples.three_turns_view
           {| newHistory := 7%nat; maskedCount := 2; tokensSaved := 0 |}).
  - reflexivity.
  - vm_compute. discriminate.
  - vm_compute. reflexivity.
Defined.

(** ** The masking loop, round by round *)

Section Rounds.

Variable W : World.

(** The path of the offload file, and the questions asked for it. *)
Lemma offload_path_eq dir fr s :
  ∃ k, offload_path W dir fr s = (Ok (path_at W dir fr (st_tick s)), bump k s) ∧
       (st_tick s + k)%nat = write_tick fr (st_tick s).
Proof.
  unfold offload_path, path_at, write_tick, call_id_of.
  destruct (opt_toString _) as [id|]; [destruct (decide (id = EmptyString))|].
  - exists 2%nat. rewrite (bind_ok _ _ _ _ _ (tick_then _ s)).
    rewrite (tick_then _ (bump 1 s)). rewrite bump_bump. simpl.
    rewrite Nat.add_1_r. split; [done|lia].
  - exists 1%nat. rewrite (bind_ok _ _ _ _ _ (ret_eq id s)).
    rewrite (tick_then _ s). split; [done|lia].
  - exists 2%nat. rewrite (bind_ok _ _ _ _ _ (tick_then _ s)).
    rewrite (tick_then _ (bump 1 s)). rewrite bump_bump. simpl.
    rewrite Nat.add_1_r. split; [done|lia].
Qed.

(** One round of the loop in full: the path, the question that the write
    is, and on success the cells that the round allocates and the one it
    overwrites. *)
Lemma mask_item_run dir nh r saved s v p fr :
  history_view (st_heap s) nh = Some v →
  part_at v (position r) = Some p →
  functionResponse p = Some fr →
  let path := path_at W dir fr (st_tick s) in
  let tw := write_tick fr (st_tick s) in
  let n := List.length (st_heap s) in
  ∃ s',
    if fs_succeeds W tw then
      mask_item W dir nh r saved s
      = (Ok (saved + (tokens r - estimateTokenCountSync W [masked_part p r path])), s') ∧
      history_view (st_heap s') nh = Some (mask_at v (r, path)) ∧
      st_trace s' = st_trace s ++ [EvWriteFile path (content r) true;
                                   EvEstimate [masked_part p r path]] ∧
      st_tick s' = S tw ∧
      List.length (st_heap s') = S (S n) ∧
      (∀ l, (l < n)%nat → l ≠ nh → st_heap s' !! l = st_heap s !! l) ∧
      ∃ ts c t,
        st_heap s !! nh = Some (CHistory ts) ∧
        ts !! contentIndex r = Some c ∧
        st_heap s !! c = Some (CContent t) ∧
        st_heap s' !! nh = Some (CHistory (<[contentIndex r := S n]> ts)) ∧
        st_heap s' !! S n = Some (CContent {| role := role t; parts := Some n |})
    else
      mask_item W dir nh r saved s = (Throw IOError, s') ∧
      st_trace s' = st_trace s ++ [EvWriteFile path (content r) false].
Proof.
  intros Hv Hp Hfr path tw n.
  destruct (history_view_inv _ _ _ Hv) as (ts & Hts & Hall).
  unfold part_at, position in Hp. simpl in Hp.
  destruct (v !! contentIndex r) as [ps|] eqn:Hps; [|done]. simpl in Hp.
  destruct (Forall2_lookup_r _ _ _ _ _ Hall Hps) as (c & Hc & Hview).
  destruct (turn_view_parts _ _ _ _ _ Hview Hp) as (t & pl & Hct & Hpl & Hplps).
  destruct (offload_path_eq dir fr s) as (k & Hpath & Hk).
  fold path in Hpath. fold tw in Hk.
  assert (st_tick (bump k s) = tw) as Htw by done.
  unfold mask_item.
  rewrite (bind_ok _ _ _ _ _ (read_history_ok _ _ _ Hts)).
  rewrite (bind_ok _ _ _ _ _ (index_ok _ _ _ _ Hc)).
  rewrite (bind_ok _ _ _ _ _ (read_content_ok _ _ _ Hct)).
  rewrite Hpl, (bind_ok _ _ _ _ _ (nonnull_ok _ _)).
  rewrite (bind_ok _ _ _ _ _ (read_parts_ok _ _ _ Hplps)).
  rewrite (bind_ok _ _ _ _ _ (index_ok _ _ _ _ Hp)).
  rewrite Hfr.
  rewrite (bind_ok _ _ _ _ _ Hpath).
  destruct (fs_succeeds W tw) eqn:Hok.
  - rewrite <- Htw in Hok.
    rewrite (bind_ok _ _ _ _ _ (writeFile_ok W _ _ _ Hok)).
    set (s1 := log _ (bump 1 (bump k s))).
    assert (st_heap s1 = st_heap s) as Hs1 by done.
    rewrite (bind_ok _ _ s1 _ _ (read_parts_ok s1 _ _ Hplps)).
    rewrite (bind_ok _ _ _ _ _ (alloc_eq _ _)).
    rewrite Hs1. set (h := st_heap s) in *. fold n.
    set (newp := with_response p fr _).
    assert (newp = masked_part p r path) as Hnewp.
    { unfold masked_part. by rewrite Hfr. }
    assert (nh < n)%nat as Hnh by (by apply lookup_lt_Some in Hts).
    assert (st_heap (with_heap (h ++ [CParts ps]) s1) !! n = Some (CParts ps)) as Hn1.
    { simpl. by apply list_lookup_middle. }
    rewrite (bind_ok _ _ _ _ _ (set_part_eq n (partIndex r) newp ps _ Hn1)).
    simpl st_heap. rewrite (insert_app_r_alt h _ n) by done.
    rewrite Nat.sub_diag. simpl (<[0%nat := _]> _).
    rewrite (bind_ok _ _ _ _ _ (alloc_eq _ _)).
    simpl st_heap. rewrite length_app. simpl List.length. fold n.
    rewrite Nat.add_1_r. rewrite <- app_assoc. simpl ([_] ++ [_]).
    set (h3 := h ++ [_; _]).
    assert (h3 !! nh = Some (CHistory ts)) as Hts3.
    { unfold h3. by rewrite lookup_app_l. }
    rewrite (bind_ok _ _ _ _ _ (set_turn_eq nh (contentIndex r) _ ts (with_heap h3 _) Hts3)).
    simpl st_heap.
    set (h4 := <[nh := _]> h3).
    assert (h4 !! n = Some (CParts (<[partIndex r := newp]> ps))) as Hn4.
    { unfold h4. rewrite list_lookup_insert_ne by lia.
      unfold h3. by rewrite (list_lookup_middle h _ _ n). }
    rewrite (bind_ok _ _ _ _ _ (read_parts_ok (with_heap h4 _) _ _ Hn4)).
    assert (<[partIndex r := newp]> ps !! partIndex r = Some newp) as Hread.
    { apply list_lookup_insert_eq. by apply lookup_lt_Some in Hp. }
    rewrite (bind_ok _ _ _ _ _ (index_ok _ _ _ _ Hread)).
    rewrite (bind_ok _ _ _ _ _ (estimate_spec W _ _)).
    rewrite <- Hnewp.
    assert (∀ l x, h !! l = Some x → (∀ ts, x ≠ CHistory ts) → h4 !! l = Some x) as Hkeep.
    { intros l x Hx Hnot. unfold h4, h3.
      rewrite list_lookup_insert_ne; [by apply lookup_app_l_Some|].
      intros <-. rewrite Hts in Hx. injection Hx as <-. by apply (Hnot ts). }
    assert (h4 !! nh = Some (CHistory (<[contentIndex r := S n]> ts))) as Hnh4.
    { unfold h4. apply list_lookup_insert_eq. unfold h3. rewrite length_app. lia. }
    assert (h4 !! S n = Some (CContent {| role := role t; parts := Some n |})) as HSn4.
    { unfold h4, h3. rewrite list_lookup_insert_ne by lia.
      rewrite lookup_app_r by (fold n; lia). fold n.
      by replace (S n - n)%nat with 1%nat by lia. }
    eexists. split; [reflexivity|]. simpl.
    split; [|split; [by rewrite <- app_assoc|split; [lia|split; [|split]]]].
    + unfold history_view. rewrite Hnh4.
      apply mapM_Some. unfold mask_at, part_at, set_part_at, position. simpl.
      rewrite Hps. simpl. rewrite Hp, <- Hnewp.
      apply Forall2_insert.
      * eapply Forall2_impl; [exact Hall|]. intros c' ps' Hc'. simpl in Hc'.
        by apply (turn_view_stable h h4).
      * unfold turn_view. rewrite HSn4. simpl. by rewrite Hn4.
    + unfold h4, h3. rewrite length_insert, length_app. simpl. fold n. lia.
    + intros l Hl Hne. unfold h4, h3.
      rewrite list_lookup_insert_ne by done. apply lookup_app_l. by fold n.
    + by exists ts, c, t.
  - rewrite <- Htw in Hok.
    rewrite (bind_throw _ _ _ _ _ (writeFile_fail W _ _ _ Hok)).
    eexists. split; [reflexivity|]. done.
Qed.


(** Masking a part does not change the rounds of the records at other
    positions. *)
Lemma rounds_mask_other dir v rp items : ∀ t,
  position rp.1 ∉ position <$> items →
  rounds W dir (mask_at v rp) items t = rounds W dir v items t.
Proof.
  induction items as [|r items IH]; intros t Hnot; [done|].
  simpl in Hnot. apply not_elem_of_cons in Hnot as [Hne Hnot].
  simpl. rewrite part_at_mask_other by done.
  destruct (part_at v (position r) ≫= functionResponse) as [fr|]; [|done].
  simpl. by rewrite IH.
Qed.

Lemma rounds_cons dir v r items t p fr :
  part_at v (position r) = Some p → functionResponse p = Some fr →
  rounds W dir v (r :: items) t
  = (r, path_at W dir fr t, fs_succeeds W (write_tick fr t))
    :: (if fs_succeeds W (write_tick fr t)
        then rounds W dir v items (S (write_tick fr t)) else []).
Proof. intros Hp Hfr. simpl. rewrite Hp. simpl. by rewrite Hfr. Qed.

(** The loop in full on records that point at distinct tool observations
    of the working copy. *)
Lemma mask_items_run dir nh items : ∀ saved s v ts,
  history_view (st_heap s) nh = Some v →
  st_heap s !! nh = Some (CHistory ts) →
  NoDup (position <$> items) →
  Forall (points_at_observation v) items →
  ∃ s',
    st_trace s' = st_trace s ++ round_events v (rounds W dir v items (st_tick s)) ∧
    if forallb snd (rounds W dir v items (st_tick s)) then
      for_each items (mask_item W dir nh) saved s
      = (Ok (saved + savings W v (offloaded (rounds W dir v items (st_tick s)))), s') ∧
      history_view (st_heap s') nh
      = Some (masked_view v (offloaded (rounds W dir v items (st_tick s)))) ∧
      (List.length (st_heap s) ≤ List.length (st_heap s'))%nat ∧
      (∀ l, (l < List.length (st_heap s))%nat → l ≠ nh →
         st_heap s' !! l = st_heap s !! l) ∧
      ∃ ts',
        st_heap s' !! nh = Some (CHistory ts') ∧
        List.length ts' = List.length ts ∧
        (∀ i, i ∉ contentIndex <$> items → ts' !! i = ts !! i) ∧
        (∀ i, i ∈ contentIndex <$> items →
           ∃ c c' t t' pl,
             ts !! i = Some c ∧ ts' !! i = Some c' ∧
             (List.length (st_heap s) ≤ c')%nat ∧
             st_heap s !! c = Some (CContent t) ∧
             st_heap s' !! c' = Some (CContent t') ∧
             role t' = role t ∧ parts t' = Some pl ∧
             (List.length (st_heap s) ≤ pl)%nat)
    else
      for_each items (mask_item W dir nh) saved s = (Throw IOError, s').
Proof.
  induction items as [|r items IH]; intros saved s v ts Hv Hts Hnd Hvalid.
  - exists s. simpl. unfold round_events. simpl. rewrite app_nil_r, Z.add_0_r.
    split; [done|]. split; [done|]. split; [done|]. split; [done|]. split; [done|].
    exists ts. split; [done|]. split; [done|]. split; [done|].
    intros i Hi. by apply elem_of_nil in Hi.
  - simpl in Hnd. apply NoDup_cons in Hnd as [Hr Hnd].
    apply Forall_cons in Hvalid as [(p & Hp & [fr Hfr]) Hvalid].
    rewrite (rounds_cons dir v r items _ p fr Hp Hfr).
    destruct (mask_item_run dir nh r saved s v p fr Hv Hp Hfr) as (s1 & Hitem).
    set (path := path_at W dir fr (st_tick s)) in *.
    set (tw := write_tick fr (st_tick s)) in *.
    destruct (fs_succeeds W tw) eqn:Hok.
    + destruct Hitem as (Hrun & Hv1 & Htr1 & Htick1 & Hlen1 & Hkeep1 & Hcells).
      destruct Hcells as (ts0 & c & t & Hts0 & Hc & Hct & Hnh1 & HSn1).
      rewrite Hts in Hts0. injection Hts0 as <-.
      assert (Forall (points_at_observation (mask_at v (r, path))) items) as Hvalid1.
      { apply Forall_forall. intros r' Hr'.
        destruct (proj1 (Forall_forall _ _) Hvalid r' Hr') as (p' & Hp' & Hfr').
        exists p'. split; [|done]. rewrite part_at_mask_other; [done|].
        simpl. intros Heq. apply Hr. rewrite <- Heq. by apply list_elem_of_fmap_2. }
      destruct (IH (saved + (tokens r - estimateTokenCountSync W [masked_part p r path]))
                  s1 (mask_at v (r, path)) _ Hv1 Hnh1 Hnd Hvalid1) as (s' & Htr' & Hrest).
      rewrite Htick1 in Htr', Hrest.
      rewrite (rounds_mask_other dir v (r, path)) in Htr', Hrest by done.
      set (rs := rounds W dir v items (S tw)) in *.
      exists s'. split.
      { rewrite Htr', Htr1. unfold round_events. simpl. rewrite Hp.
        by rewrite <- !app_assoc. }
      simpl forallb. destruct (forallb snd rs) eqn:Hall.
      * destruct Hrest as (Hrun' & Hv' & Hlen' & Hkeep' & ts' & Hnh' & Hlts' & Hsame & Hnew).
        simpl for_each. rewrite (bind_ok _ _ _ _ _ Hrun). rewrite Hrun'.
        simpl offloaded. simpl savings. rewrite Hp.
        split; [f_equal; f_equal; lia|]. split; [done|]. split; [lia|].
        split.
        { intros l Hl Hne. rewrite Hkeep' by (done || lia). by apply Hkeep1. }
        exists ts'. split; [done|]. split; [by rewrite Hlts', length_insert|].
        destruct (history_view_inv _ _ _ Hv) as (ts0 & Hts0 & Hturns).
        rewrite Hts in Hts0. injection Hts0 as <-.
        assert (∀ i c0, ts !! i = Some c0 →
                  ∃ t0, st_heap s !! c0 = Some (CContent t0) ∧ c0 ≠ nh) as Hturn.
        { intros i c0 Hc0.
          destruct (Forall2_lookup_l _ _ _ _ _ Hturns Hc0) as (ps0 & _ & Hview0).
          unfold turn_view in Hview0.
          destruct (st_heap s !! c0) as [[|t0|]|] eqn:Hc0'; try done.
          exists t0. split; [done|]. intros ->. by rewrite Hts in Hc0'. }
        split.
        { intros i Hi. simpl in Hi. apply not_elem_of_cons in Hi as [Hne Hi].
          rewrite Hsame by done. by apply list_lookup_insert_ne. }
        intros i Hi.
        destruct (decide (i ∈ contentIndex <$> items)) as [Hin|Hnin].
        -- destruct (Hnew i Hin) as (c1 & c' & t1 & t' & pl & Hc1 & Hc' & Hfresh & Hct1 & Hct' & Hrole & Hpl & Hplf).
           destruct (decide (i = contentIndex r)) as [->|Hne].
           ++ rewrite list_lookup_insert_eq in Hc1 by (by apply lookup_lt_Some in Hc).
              injection Hc1 as <-. rewrite HSn1 in Hct1. injection Hct1 as <-.
              exists c, c', t, t', pl. repeat split; try done; lia.
           ++ rewrite list_lookup_insert_ne in Hc1 by done.
              destruct (Hturn i c1 Hc1) as (t0 & Hct0 & Hcne).
              rewrite Hkeep1 in Hct1 by (done || by apply lookup_lt_Some in Hct0).
              exists c1, c', t1, t', pl. repeat split; try done; lia.
        -- simpl in Hi. apply elem_of_cons in Hi as [->|Hi]; [|done].
           exists c, (S (List.length (st_heap s))), t,
             {| role := role t; parts := Some (List.length (st_heap s)) |},
             (List.length (st_heap s)).
           rewrite Hsame by done.
           rewrite list_lookup_insert_eq by (by apply lookup_lt_Some in Hc).
           rewrite Hkeep' by (rewrite ?Hlen1; try lia; apply lookup_lt_Some in Hts; lia).
           repeat split; try done; lia.
      * simpl for_each. by rewrite (bind_ok _ _ _ _ _ Hrun).
    + destruct Hitem as (Hrun & Htr1).
      exists s1. split.
      { rewrite Htr1. unfold round_events. by simpl. }
      simpl. by rewrite (bind_throw _ _ _ _ _ Hrun).
Qed.

End Rounds.

Section Runs.

Variable W : World.

Lemma offloaded_cons r path ok rs :
  offloaded ((r, path, ok) :: rs) = (if ok then [(r, path)] else []) ++ offloaded rs.
Proof. by destruct ok. Qed.

Lemma failed_writes_cons r path ok rs :
  failed_writes ((r, path, ok) :: rs)
  = (if ok then [] else [EvWriteFile path (content r) false]) ++ failed_writes rs.
Proof. by destruct ok. Qed.

(** When every write succeeds the loop has come to every record. *)
Lemma rounds_done dir v items : ∀ t,
  Forall (points_at_observation v) items →
  forallb snd (rounds W dir v items t) = true →
  (offloaded (rounds W dir v items t)).*1 = items ∧
  failed_writes (rounds W dir v items t) = [].
Proof.
  induction items as [|r items IH]; intros t Hvalid Hall; [done|].
  apply Forall_cons in Hvalid as [(p & Hp & [fr Hfr]) Hvalid].
  rewrite (rounds_cons W dir v r items t p fr Hp Hfr) in Hall |- *.
  simpl in Hall. apply andb_true_iff in Hall as [Hok Hall]. rewrite Hok in Hall |- *.
  destruct (IH _ Hvalid Hall) as [Hfst Hfail].
  by rewrite offloaded_cons, failed_writes_cons, fmap_app, Hfst, Hfail.
Qed.

(** When a write fails, it is the write of some record of the list, the
    files of the records before it have been written, and the loop has not
    come to the records after it. *)
Lemma rounds_failed dir v items : ∀ t,
  Forall (points_at_observation v) items →
  forallb snd (rounds W dir v items t) = false →
  ∃ j r path,
    items !! j = Some r ∧
    (offloaded (rounds W dir v items t)).*1 = take j items ∧
    failed_writes (rounds W dir v items t) = [EvWriteFile path (content r) false].
Proof.
  induction items as [|r items IH]; intros t Hvalid Hall; [done|].
  apply Forall_cons in Hvalid as [(p & Hp & [fr Hfr]) Hvalid].
  rewrite (rounds_cons W dir v r items t p fr Hp Hfr) in Hall |- *.
  simpl in Hall. destruct (fs_succeeds W (write_tick fr t)) eqn:Hok.
  - simpl in Hall. destruct (IH _ Hvalid Hall) as (j & r' & path & Hj & Hfst & Hfail).
    exists (S j), r', path.
    by rewrite offloaded_cons, failed_writes_cons, fmap_app, Hfst, Hfail.
  - exists 0%nat, r, (path_at W dir fr t). done.
Qed.

(** The path of every round is the path chosen for the function response
    of its record. *)
Lemma rounds_path dir v items : ∀ t r path ok,
  (r, path, ok) ∈ rounds W dir v items t →
  r ∈ items ∧
  ∃ p fr t', part_at v (position r) = Some p ∧ functionResponse p = Some fr ∧
             path = path_at W dir fr t'.
Proof.
  induction items as [|r0 items IH]; intros t r path ok Hin.
  { by apply elem_of_nil in Hin. }
  simpl in Hin.
  destruct (part_at v (position r0)) as [p|] eqn:Hp; [|by apply elem_of_nil in Hin].
  simpl in Hin.
  destruct (functionResponse p) as [fr|] eqn:Hfr; [|by apply elem_of_nil in Hin].
  apply elem_of_cons in Hin as [Heq|Hin].
  - injection Heq as -> -> ->. split; [by left|]. by exists p, fr, t.
  - destruct (fs_succeeds W (write_tick fr t)); [|by apply elem_of_nil in Hin].
    destruct (IH _ _ _ _ Hin) as [Hr Hrest]. split; [by right|done].
Qed.

(** The events of the rounds are writes and calls of the estimator. *)
Lemma elem_of_masking_events done : ∀ v e,
  e ∈ masking_events v done →
  (∃ r path, (r, path) ∈ done ∧ e = EvWriteFile path (content r) true) ∨ is_estimate e.
Proof.
  induction done as [|[r path] done IH]; intros v e He.
  { by apply elem_of_nil in He. }
  simpl in He. apply elem_of_app in He as [He|He].
  - destruct (part_at v (position r)) as [p|]; [|by apply elem_of_nil in He].
    apply elem_of_cons in He as [->|He]; [left; exists r, path; split; [by left|done]|].
    apply list_elem_of_singleton in He as ->. right. by eexists.
  - destruct (IH _ _ He) as [(r' & path' & Hin & ->)|Hest]; [|by right].
    left. exists r', path'. split; [by right|done].
Qed.

Lemma elem_of_offloaded rs r path :
  (r, path) ∈ offloaded rs ↔ (r, path, true) ∈ rs.
Proof.
  unfold offloaded. rewrite list_elem_of_omap. split.
  - intros ([[r' path'] ok] & Hin & Heq). simpl in Heq. destruct ok; [|done].
    by injection Heq as -> ->.
  - intros Hin. by exists (r, path, true).
Qed.

Lemma elem_of_failed_writes rs e :
  e ∈ failed_writes rs ↔
  ∃ r path, (r, path, false) ∈ rs ∧ e = EvWriteFile path (content r) false.
Proof.
  unfold failed_writes. rewrite list_elem_of_omap. split.
  - intros ([[r' path'] ok] & Hin & Heq). simpl in Heq. destruct ok; [done|].
    injection Heq as <-. by exists r', path'.
  - intros (r & path & Hin & ->). by exists (r, path, false).
Qed.

(** A history over the hysteresis threshold has a prunable record. *)
Lemma scan_records_total rs :
  totalPrunableTokens (scan_records rs) = total_tokens (prunableParts (scan_records rs)).
Proof.
  destruct (scan_before_boundary rs scan_init eq_refl) as (pro & pru & _ & _ & Hp & Ht & _).
  { by vm_compute. }
  unfold scan_records. rewrite Hp, Ht. done.
Qed.

Lemma triggered_nonempty v :
  HYSTERESIS_THRESHOLD ≤ prunable_total W v → prunable_records W v ≠ [].
Proof.
  unfold prunable_total, prunable_records. rewrite scan_records_total.
  intros Hge Hnil. rewrite Hnil in Hge. by vm_compute in Hge.
Qed.

(** A run over the hysteresis threshold in full. *)
Lemma mask_run cfg s history v :
  history_view (st_heap s) history = Some v →
  HYSTERESIS_THRESHOLD ≤ prunable_total W v →
  ∃ s',
    if fs_succeeds W (st_tick s) then
      st_trace s'
      = st_trace s ++ estimates v
        ++ [EvDebugLog (trigger_message (prunable_total W v));
            EvMkdir (observation_dir W cfg) true]
        ++ round_events v
             (rounds W (observation_dir W cfg) v (prunable_records W v) (S (st_tick s)))
        ++ (if forallb snd
                 (rounds W (observation_dir W cfg) v (prunable_records W v) (S (st_tick s)))
            then
              [EvDebugLog
                 (summary_message (Z.of_nat (List.length (prunable_records W v)))
                    (savings W v
                       (offloaded (rounds W (observation_dir W cfg) v (prunable_records W v)
                                     (S (st_tick s))))));
               EvTelemetry (prunable_total W v)
                 (prunable_total W v
                  - savings W v
                      (offloaded (rounds W (observation_dir W cfg) v (prunable_records W v)
                                    (S (st_tick s)))))
                 (Z.of_nat (List.length (prunable_records W v))) (prunable_total W v)]
            else []) ∧
      if forallb snd
           (rounds W (observation_dir W cfg) v (prunable_records W v) (S (st_tick s)))
      then
        mask W history cfg s
        = (Ok {| newHistory := List.length (st_heap s);
                 maskedCount := Z.of_nat (List.length (prunable_records W v));
                 tokensSaved :=
                   savings W v
                     (offloaded (rounds W (observation_dir W cfg) v (prunable_records W v)
                                   (S (st_tick s)))) |}, s') ∧
        history_view (st_heap s') (List.length (st_heap s))
        = Some (masked_view v
                  (offloaded (rounds W (observation_dir W cfg) v (prunable_records W v)
                                (S (st_tick s))))) ∧
        (∀ l, (l < List.length (st_heap s))%nat → st_heap s' !! l = st_heap s !! l) ∧
        ∃ ts ts',
          st_heap s !! history = Some (CHistory ts) ∧
          st_heap s' !! List.length (st_heap s) = Some (CHistory ts') ∧
          List.length ts' = List.length ts ∧
          (∀ i, i ∉ contentIndex <$> prunable_records W v → ts' !! i = ts !! i) ∧
          (∀ i, i ∈ contentIndex <$> prunable_records W v →
             ∃ c c' t t' pl,
               ts !! i = Some c ∧ ts' !! i = Some c' ∧
               (List.length (st_heap s) < c')%nat ∧
               st_heap s !! c = Some (CContent t) ∧
               st_heap s' !! c' = Some (CContent t') ∧
               role t' = role t ∧ parts t' = Some pl ∧
               (List.length (st_heap s) < pl)%nat)
      else
        mask W history cfg s = (Throw IOError, s')
    else
      mask W history cfg s = (Throw IOError, s') ∧
      st_trace s'
      = st_trace s ++ estimates v
        ++ [EvDebugLog (trigger_message (prunable_total W v));
            EvMkdir (observation_dir W cfg) false].
Proof.
  intros Hv Hge. destruct (history_view_inv _ _ _ Hv) as (ts & Hts & Hall).
  pose proof (Forall2_length _ _ _ Hall) as Hlen.
  unfold mask. rewrite (bind_ok _ _ _ _ _ (read_history_ok _ _ _ Hts)).
  destruct (decide (List.length ts = 0%nat)) as [Hz|Hnz].
  { destruct v; [|simpl in Hlen; lia]. by vm_compute in Hge. }
  rewrite Hlen. rewrite (bind_ok _ _ _ _ _ (scan_spec W _ _ _ Hv)).
  fold (prunable_total W v). fold (prunable_records W v).
  destruct (prunable_total W v <? HYSTERESIS_THRESHOLD) eqn:E; [lia|]. clear E.
  rewrite (bind_ok _ _ _ _ _ (emit_log _ _)).
  set (s1 := log _ (log _ s)).
  assert (st_heap s1 !! history = Some (CHistory ts)) as Hts1 by done.
  rewrite (bind_ok _ _ _ _ _ (read_history_ok s1 _ _ Hts1)).
  rewrite (bind_ok _ _ _ _ _ (alloc_eq _ _)).
  set (h := st_heap s) in *. change (st_heap s1) with h.
  set (nh := List.length h). set (s2 := with_heap _ s1).
  fold (observation_dir W cfg). set (dir := observation_dir W cfg).
  assert (history_view (h ++ [CHistory ts]) nh = Some v) as Hv2.
  { unfold history_view. rewrite (list_lookup_middle h [] _ nh) by done.
    apply mapM_Some. eapply Forall2_impl; [exact Hall|].
    intros c ps Hc. simpl in Hc. apply (turn_view_stable h); [|done].
    intros l x Hx _. by apply lookup_app_l_Some. }
  change (st_tick s) with (st_tick s2).
  destruct (fs_succeeds W (st_tick s2)) eqn:Hok.
  - rewrite (bind_ok _ _ _ _ _ (mkdir_ok W _ _ Hok)).
    set (s3 := log _ (bump 1 s2)).
    assert (st_tick s3 = S (st_tick s2)) as Htick3 by (simpl; lia).
    assert (st_heap s3 !! nh = Some (CHistory ts)) as Hnh3.
    { simpl. by apply list_lookup_middle. }
    destruct (mask_items_run W dir nh (prunable_records W v) 0 s3 v ts
                Hv2 Hnh3 (NoDup_prunable_records W v) (prunable_records_valid W v))
      as (s4 & Htr4 & Hrest).
    rewrite Htick3 in Htr4, Hrest.
    set (rs := rounds W dir v (prunable_records W v) (S (st_tick s2))) in *.
    destruct (forallb snd rs) eqn:Hdone.
    + destruct Hrest as (Hrun & Hv4 & Hlen4 & Hkeep4 & ts' & Hnh4 & Hlts & Hsame & Hnew).
      rewrite (bind_ok _ _ _ _ _ Hrun).
      rewrite (bind_ok _ _ _ _ _ (emit_log _ _)).
      rewrite (bind_ok _ _ _ _ _ (emit_log _ _)).
      rewrite Z.add_0_l.
      eexists. split; [|split; [reflexivity|]].
      { simpl. rewrite Htr4. simpl. rewrite <- !app_assoc. reflexivity. }
      simpl. split; [exact Hv4|]. split.
      { intros l Hl. rewrite Hkeep4; simpl; rewrite ?length_app; simpl; try lia.
        by apply lookup_app_l. }
      exists ts, ts'. split; [done|]. split; [done|]. split; [done|]. split; [done|].
      intros i Hi.
      destruct (Hnew i Hi) as (c & c' & t & t' & pl & Hc & Hc' & Hfresh & Hct & Hct' & Hrole & Hpl & Hplf).
      simpl in Hfresh, Hplf, Hct. rewrite length_app in Hfresh, Hplf. simpl in Hfresh, Hplf.
      exists c, c', t, t', pl. repeat split; try done; try (fold nh; lia).
      destruct (Forall2_lookup_l _ _ _ _ _ Hall Hc) as (ps0 & _ & Hview0).
      unfold turn_view in Hview0.
      destruct (h !! c) as [[|t0|]|] eqn:Hc0; try done.
      rewrite (lookup_app_l_Some _ _ _ _ Hc0) in Hct. by injection Hct as ->.
    + rewrite (bind_throw _ _ _ _ _ Hrest).
      eexists. split; [|reflexivity].
      rewrite Htr4. simpl. rewrite <- !app_assoc. simpl. by rewrite app_nil_r.
  - rewrite (bind_throw _ _ _ _ _ (mkdir_fail W _ _ Hok)).
    eexists. split; [reflexivity|]. simpl. by rewrite <- !app_assoc.
Qed.

End Runs.

Section RunCases.

Variable W : World.

(** The three ways a run over the threshold ends. *)
Lemma mask_run_inv cfg s s' history v r :
  history_view (st_heap s) history = Some v →
  HYSTERESIS_THRESHOLD ≤ prunable_total W v →
  mask W history cfg s = (r, s') →
  ∃ rs,
    rs = rounds W (observation_dir W cfg) v (prunable_records W v) (S (st_tick s)) ∧
    ((r = Throw IOError ∧
      st_trace s'
      = st_trace s
        ++ (estimates v ++ [EvDebugLog (trigger_message (prunable_total W v))])
        ++ [EvMkdir (observation_dir W cfg) false])
     ∨
     (r = Throw IOError ∧
      forallb snd rs = false ∧
      st_trace s'
      = st_trace s ++ estimates v
        ++ [EvDebugLog (trigger_message (prunable_total W v));
            EvMkdir (observation_dir W cfg) true]
        ++ masking_events v (offloaded rs) ++ failed_writes rs)
     ∨
     (r = Ok (masking_result W v (offloaded rs).*2 (List.length (st_heap s))) ∧
      forallb snd rs = true ∧
      (offloaded rs).*1 = prunable_records W v ∧
      offloaded rs = zip (prunable_records W v) (offloaded rs).*2 ∧
      st_trace s' = st_trace s ++ masking_run_events W cfg v (offloaded rs).*2 ∧
      history_view (st_heap s') (List.length (st_heap s))
      = Some (masked_view v (offloaded rs)))).
Proof.
  intros Hv Hge Hrun.
  destruct (mask_run W cfg s history v Hv Hge) as (s'' & Hcases).
  eexists. split; [reflexivity|].
  set (rs := rounds _ _ _ _ _) in *.
  destruct (fs_succeeds W (st_tick s)).
  - destruct Hcases as [Htr Hcases]. destruct (forallb snd rs) eqn:Hdone.
    + destruct Hcases as (Hrun' & Hv' & _).
      rewrite Hrun in Hrun'. injection Hrun' as -> ->.
      destruct (rounds_done W _ _ _ _ (prunable_records_valid W v) Hdone) as [Hfst Hfail].
      fold rs in Hfst, Hfail.
      assert (offloaded rs = zip (prunable_records W v) (offloaded rs).*2) as Hzip.
      { rewrite <- Hfst at 1. by rewrite zip_fst_snd. }
      right. right. split; [|split; [done|split; [done|split; [done|split; [|done]]]]].
      * unfold masking_result. by rewrite <- Hzip.
      * rewrite Htr. unfold masking_run_events, round_events.
        rewrite <- Hzip, Hfail. simpl. by rewrite <- !app_assoc.
    + rewrite Hrun in Hcases. injection Hcases as -> ->.
      right. left. split; [done|]. split; [done|].
      rewrite Htr. unfold round_events. by rewrite <- !app_assoc, app_nil_r.
  - destruct Hcases as [Hrun' Htr]. rewrite Hrun in Hrun'. injection Hrun' as -> ->.
    left. split; [done|]. rewrite Htr. by rewrite <- !app_assoc.
Qed.

Lemma offloaded_valid v rs :
  Forall (points_at_observation v) (offloaded rs).*1 →
  Forall (fun rp => is_Some (part_at v (position rp.1))) (offloaded rs).
Proof.
  intros H. apply Forall_forall. intros rp Hin.
  assert (rp.1 ∈ (offloaded rs).*1) as Hin1 by (by apply list_elem_of_fmap_2).
  destruct (proj1 (Forall_forall _ _) H _ Hin1) as (p & Hp & _). by exists p.
Qed.

End RunCases.

(** ** What a run can end with *)

(** On a store that holds a history, [mask] raises no type error: the
    indices and the turn records that the scan and the masking loop read
    are always there.  It returns when no call of the file system failed,
    and when it throws, the failed call is the last thing the run did. *)
Theorem mask_fails_only_on_io (W : World) (cfg : Config) (s s' : state) (history : loc)
    (v : list (list Part)) (r : outcome MaskingResult) :
  history_view (st_heap s) history = Some v →
  mask W history cfg s = (r, s') →
  ∃ evs,
    st_trace s' = st_trace s ++ evs ∧
    match r with
    | Ok _ => ¬ io_failed evs
    | Throw e =>
        e = IOError ∧
        ∃ evs' ev, evs = evs' ++ [ev] ∧ ¬ io_failed evs' ∧ io_failed [ev]
    end.
Proof.
  intros Hv Hrun.
  destruct (Z.lt_ge_cases (prunable_total W v) HYSTERESIS_THRESHOLD) as [Hlt|Hge].
  - rewrite (mask_no_trigger W cfg s history v Hv Hlt) in Hrun.
    injection Hrun as <- <-. exists (estimates v). split; [done|]. apply estimates_ok.
  - destruct (mask_run_inv W cfg s s' history v r Hv Hge Hrun)
      as (rs & Hrs & [(-> & Htr)|[(-> & Hdone & Htr)|(-> & Hdone & _ & Hzip & Htr & _)]]).
    + eexists. split; [exact Htr|]. split; [done|].
      eexists _, _. split; [reflexivity|]. split.
      * rewrite io_failed_app. intros [H|H]; [by apply estimates_ok in H|].
        destruct H as [(dir & Hin)|(path & text & Hin)];
          apply list_elem_of_singleton in Hin; done.
      * left. eexists. by apply list_elem_of_singleton.
    + destruct (rounds_failed W _ _ _ _ (prunable_records_valid W v)
                  ltac:(rewrite <- Hrs; exact Hdone)) as (j & rj & path & Hj & Hfst & Hfail).
      rewrite <- Hrs in Hfail. rewrite Hfail in Htr.
      exists ((estimates v
               ++ [EvDebugLog (trigger_message (prunable_total W v));
                   EvMkdir (observation_dir W cfg) true]
               ++ masking_events v (offloaded rs))
              ++ [EvWriteFile path (content rj) false]).
      split; [by rewrite Htr, <- !app_assoc|]. split; [done|].
      eexists _, _. split; [reflexivity|]. split.
      * rewrite !io_failed_app. intros [H|[H|H]].
        -- by apply estimates_ok in H.
        -- destruct H as [(dir & Hin)|(p & text & Hin)];
             repeat (apply elem_of_cons in Hin as [Hin|Hin]; [done|]);
             by apply elem_of_nil in Hin.
        -- by apply masking_events_ok in H.
      * right. eexists _, _. by apply list_elem_of_singleton.
    + eexists. split; [exact Htr|]. apply masking_run_events_ok.
Qed.

(** The run on three turns whose second write fails. *)
Lemma mask_fails_only_on_io_witness :
  ∃ evs,
    st_trace (mask (Examples.world Examples.second_write_fails) 6%nat Examples.config
                (Examples.start Examples.three_turns)).2 = [] ++ evs ∧
    IOError = IOError ∧
    ∃ evs' ev, evs = evs' ++ [ev] ∧ ¬ io_failed evs' ∧ io_failed [ev].
Proof.
  apply (mask_fails_only_on_io (Examples.world Examples.second_write_fails) Examples.config
           (Examples.start Examples.three_turns) _ 6%nat Examples.three_turns_view
           (Throw IOError)).
  - reflexivity.
  - vm_compute. reflexivity.
Defined.

(** ** The files of a run that throws *)

(** When a run throws, the files of the records that come before the
    failed call in the prunable list have been written, each with the full
    text of its record, and nothing removes them; the record at which the
    run failed and the records after it have no file.  When it is the
    making of the directory that failed, no file was written. *)
Theorem failed_run_leaves_files (W : World) (cfg : Config) (s s' : state) (history : loc)
    (v : list (list Part)) (e : error) :
  history_view (st_heap s) history = Some v →
  mask W history cfg s = (Throw e, s') →
  ∃ evs j r,
    st_trace s' = st_trace s ++ evs ∧
    prunable_records W v !! j = Some r ∧
    (written evs).*2 = content <$> take j (prunable_records W v) ∧
    ((j = 0%nat ∧ last evs = Some (EvMkdir (observation_dir W cfg) false)) ∨
     (∃ path, last evs = Some (EvWriteFile path (content r) false))).
Proof.
  intros Hv Hrun.
  destruct (Z.lt_ge_cases (prunable_total W v) HYSTERESIS_THRESHOLD) as [Hlt|Hge].
  { by rewrite (mask_no_trigger W cfg s history v Hv Hlt) in Hrun. }
  destruct (mask_run_inv W cfg s s' history v _ Hv Hge Hrun)
    as (rs & Hrs & [(_ & Htr)|[(_ & Hdone & Htr)|(? & _)]]); [| |done].
  - pose proof (triggered_nonempty W v Hge) as Hne.
    destruct (prunable_records W v) as [|r0 rest] eqn:Hrecs; [done|].
    eexists _, 0%nat, r0. split; [exact Htr|]. split; [done|]. split.
    + rewrite !written_app, written_estimates. done.
    + left. split; [done|]. by rewrite last_snoc.
  - destruct (rounds_failed W _ _ _ _ (prunable_records_valid W v)
                ltac:(rewrite <- Hrs; exact Hdone)) as (j & rj & path & Hj & Hfst & Hfail).
    rewrite <- Hrs in Hfail, Hfst. rewrite Hfail in Htr.
    eexists _, j, rj. split; [exact Htr|]. split; [done|]. split.
    + rewrite !written_app, written_estimates. simpl. rewrite app_nil_r.
      rewrite written_masking_events.
      * rewrite <- Hfst. rewrite <- !list_fmap_compose. done.
      * rewrite Hfst. rewrite fmap_take.
        pose proof (NoDup_prunable_records W v) as Hnd.
        rewrite <- (take_drop j (position <$> prunable_records W v)) in Hnd.
        by apply NoDup_app in Hnd as (Hnd & _).
      * apply offloaded_valid. rewrite Hfst. apply Forall_take.
        apply prunable_records_valid.
    + right. exists path. rewrite !app_assoc. by rewrite last_snoc.
Qed.

(** On three turns whose second write fails, the file of the first record
    stays. *)
Lemma failed_run_leaves_files_witness :
  ∃ evs j r,
    st_trace (mask (Examples.world Examples.second_write_fails) 6%nat Examples.config
                (Examples.start Examples.three_turns)).2 = [] ++ evs ∧
    prunable_records (Examples.world Examples.second_write_fails) Examples.three_turns_view
      !! j = Some r ∧
    (written evs).*2
    = content <$> take j (prunable_records (Examples.world Examples.second_write_fails)
                            Examples.three_turns_view) ∧
    ((j = 0%nat ∧
      last evs = Some (EvMkdir (observation_dir (Examples.world Examples.second_write_fails)
                                  Examples.config) false)) ∨
     (∃ path, last evs = Some (EvWriteFile path (content r) false))).
Proof.
  apply (failed_run_leaves_files (Examples.world Examples.second_write_fails)
           Examples.config (Examples.start Examples.three_turns) _ 6%nat
           Examples.three_turns_view IOError).
  - vm_compute. reflexivity.
  - vm_compute. reflexivity.
Defined.

(** ** The result and the caller's array *)

(** A run that returns either hands back the caller's array, with
    [maskedCount] 0 and [tokensSaved] 0 and the store as it was, or an array
    that the caller's store did not hold, with a [maskedCount] of at least
    one; the first happens exactly when the prunable total is below the
    hysteresis threshold.  So [newHistory] is the caller's array exactly
    when [maskedCount] is 0. *)
Theorem untouched_iff_nothing_masked (W : World) (cfg : Config) (s s' : state)
    (history : loc) (v : list (list Part)) (res : MaskingResult) :
  history_view (st_heap s) history = Some v →
  mask W history cfg s = (Ok res, s') →
  (newHistory res = history ↔ maskedCount res = 0) ∧
  (maskedCount res = 0 ↔ prunable_total W v < HYSTERESIS_THRESHOLD) ∧
  (maskedCount res = 0 → tokensSaved res = 0 ∧ st_heap s' = st_heap s) ∧
  (maskedCount res ≠ 0 → 1 ≤ maskedCount res ∧ st_heap s !! newHistory res = None).
Proof.
  intros Hv Hrun.
  destruct (Z.lt_ge_cases (prunable_total W v) HYSTERESIS_THRESHOLD) as [Hlt|Hge].
  - rewrite (mask_no_trigger W cfg s history v Hv Hlt) in Hrun.
    injection Hrun as <- <-. simpl. repeat split; try done.
  - destruct (mask_run_inv W cfg s s' history v _ Hv Hge Hrun)
      as (rs & Hrs & [(? & _)|[(? & _)|(Hres & _)]]); [done|done|].
    injection Hres as ->. simpl.
    pose proof (triggered_nonempty W v Hge) as Hne.
    assert (1 ≤ Z.of_nat (List.length (prunable_records W v))) as Hpos.
    { destruct (prunable_records W v); [done|]. simpl List.length. lia. }
    assert (history < List.length (st_heap s))%nat as Hlt.
    { destruct (history_view_inv _ _ _ Hv) as (ts & Hts & _).
      by apply lookup_lt_Some in Hts. }
    repeat split; try lia. by apply lookup_ge_None.
Qed.

(** The run on three turns: a new array, two records masked. *)
Lemma untouched_iff_nothing_masked_witness :
  (7%nat = 6%nat ↔ (2 : Z) = 0) ∧
  ((2 : Z) = 0
   ↔ prunable_total (Examples.world Examples.always) Examples.three_turns_view
     < HYSTERESIS_THRESHOLD) ∧
  ((2 : Z) = 0 →
   (0 : Z) = 0 ∧
   st_heap (mask (Examples.world Examples.always) 6%nat Examples.config
              (Examples.start Examples.three_turns)).2 = Examples.three_turns) ∧
  ((2 : Z) ≠ 0 → 1 ≤ 2 ∧ Examples.three_turns !! 7%nat = None).
Proof.
  apply (untouched_iff_nothing_masked (Examples.world Examples.always) Examples.config
           (Examples.start Examples.three_turns) _ 6%nat Examples.three_turns_view
           {| newHistory := 7%nat; maskedCount := 2; tokensSaved := 0 |}).
  - reflexivity.
  - apply run_returns. vm_compute. reflexivity.
Defined.

(** ** The names of the offload files *)

(** Every file a run writes, or tries to write, is the file of a prunable
    record and takes the text of that record.  Its path is [path.join] of
    the observations directory of the history directory and the name
    [<tool>_<callId>_<suffix>.txt]: the tool is the name of the function
    response, [undefined] when it has none; the call id is the [callId] of
    the payload when [toString] gives it a text that is not empty, and the
    time otherwise; the suffix is random. *)
Theorem offload_file_names (W : World) (cfg : Config) (s s' : state) (history : loc)
    (v : list (list Part)) (r0 : outcome MaskingResult) (path text : string) (ok : bool) :
  history_view (st_heap s) history = Some v →
  mask W history cfg s = (r0, s') →
  EvWriteFile path text ok ∈ drop (List.length (st_trace s)) (st_trace s') →
  ∃ r p fr callId suffix,
    r ∈ prunable_records W v ∧
    text = content r ∧
    part_at v (position r) = Some p ∧
    functionResponse p = Some fr ∧
    path = path_join W (path_join W (historyDir cfg) OBSERVATION_DIR)
             (file_name (fr_name fr) callId suffix) ∧
    (∃ t, suffix = Math_random_suffix W t) ∧
    match call_id_of (fr_response fr) with
    | Some id => callId = id
    | None => ∃ t, callId = JsString.toString (Date_now W t)
    end.
Proof.
  intros Hv Hrun Hin.
  assert (∀ rs r path ok,
            rs = rounds W (observation_dir W cfg) v (prunable_records W v) (S (st_tick s)) →
            (r, path, ok) ∈ rs →
            ∃ p fr callId suffix,
              r ∈ prunable_records W v ∧
              part_at v (position r) = Some p ∧
              functionResponse p = Some fr ∧
              path = path_join W (path_join W (historyDir cfg) OBSERVATION_DIR)
                       (file_name (fr_name fr) callId suffix) ∧
              (∃ t, suffix = Math_random_suffix W t) ∧
              match call_id_of (fr_response fr) with
              | Some id => callId = id
              | None => ∃ t, callId = JsString.toString (Date_now W t)
              end) as Hround.
  { intros rs r path' ok' -> Hr.
    destruct (rounds_path W _ _ _ _ _ _ _ Hr) as (Hrin & p & fr & t & Hp & Hfr & ->).
    unfold path_at, observation_dir.
    destruct (call_id_of (fr_response fr)) as [id|] eqn:Hid.
    - exists p, fr, id, (Math_random_suffix W t). rewrite Hid. eauto 10.
    - exists p, fr, (JsString.toString (Date_now W t)), (Math_random_suffix W (S t)).
      rewrite Hid. eauto 10. }
  assert (∀ rs, rs = rounds W (observation_dir W cfg) v (prunable_records W v)
                       (S (st_tick s)) →
            EvWriteFile path text ok ∈ masking_events v (offloaded rs) →
            ∃ r, (r, path, ok) ∈ rs ∧ text = content r) as Hmasked.
  { intros rs Hrs He.
    destruct (elem_of_masking_events _ _ _ He) as [(r & path' & Hr & Heq)|[ps Hest]];
      [|done].
    injection Heq as -> -> ->. exists r. split; [|done]. by apply elem_of_offloaded. }
  destruct (Z.lt_ge_cases (prunable_total W v) HYSTERESIS_THRESHOLD) as [Hlt|Hge].
  { rewrite (mask_no_trigger W cfg s history v Hv Hlt) in Hrun.
    injection Hrun as <- <-. simpl in Hin. rewrite drop_app_length in Hin.
    pose proof (estimates_only v) as Hest.
    destruct (proj1 (Forall_forall _ _) Hest _ Hin) as [ps Heq]. done. }
  destruct (mask_run_inv W cfg s s' history v _ Hv Hge Hrun)
    as (rs & Hrs & [(_ & Htr)|[(_ & _ & Htr)|(_ & _ & _ & Hzip & Htr & _)]]);
    rewrite Htr, drop_app_length in Hin.
  - apply elem_of_app in Hin as [Hin|Hin].
    + apply elem_of_app in Hin as [Hin|Hin].
      * pose proof (estimates_only v) as Hest.
        destruct (proj1 (Forall_forall _ _) Hest _ Hin) as [ps Heq]. done.
      * by apply list_elem_of_singleton in Hin.
    + by apply list_elem_of_singleton in Hin.
  - apply elem_of_app in Hin as [Hin|Hin].
    { pose proof (estimates_only v) as Hest.
      destruct (proj1 (Forall_forall _ _) Hest _ Hin) as [ps Heq]. done. }
    apply elem_of_cons in Hin as [Hin|Hin]; [done|].
    apply elem_of_cons in Hin as [Hin|Hin]; [done|].
    apply elem_of_app in Hin as [Hin|Hin].
    + destruct (Hmasked rs Hrs Hin) as (r & Hr & ->).
      destruct (Hround rs r path ok Hrs Hr) as (p & fr & cid & sfx & H).
      exists r, p, fr, cid, sfx. tauto.
    + apply elem_of_failed_writes in Hin as (r & path' & Hr & Heq).
      injection Heq as <- -> ->.
      destruct (Hround rs r path false Hrs Hr) as (p & fr & cid & sfx & H).
      exists r, p, fr, cid, sfx. tauto.
  - unfold masking_run_events in Hin. rewrite <- Hzip in Hin.
    apply elem_of_app in Hin as [Hin|Hin].
    { pose proof (estimates_only v) as Hest.
      destruct (proj1 (Forall_forall _ _) Hest _ Hin) as [ps Heq]. done. }
    apply elem_of_app in Hin as [Hin|Hin].
    { apply elem_of_cons in Hin as [Hin|Hin]; [done|].
      by apply list_elem_of_singleton in Hin. }
    apply elem_of_app in Hin as [Hin|Hin].
    + destruct (Hmasked rs Hrs Hin) as (r & Hr & ->).
      destruct (Hround rs r path ok Hrs Hr) as (p & fr & cid & sfx & H).
      exists r, p, fr, cid, sfx. tauto.
    + apply elem_of_cons in Hin as [Hin|Hin]; [done|].
      by apply list_elem_of_singleton in Hin.
Qed.

(** The first file of the run on three turns: the record of [tool2] has no
    call id, so the name carries the time. *)
Lemma offload_file_names_witness :
  ∃ r p fr callId suffix,
    r ∈ prunable_records (Examples.world Examples.always) Examples.three_turns_view ∧
    "BBBBBB" = content r ∧
    part_at Examples.three_turns_view (position r) = Some p ∧
    functionResponse p = Some fr ∧
    "/h/observations/tool2_1700000000001_r2.txt"
    = path_join (Examples.world Examples.always)
        (path_join (Examples.world Examples.always) (historyDir Examples.config)
           OBSERVATION_DIR)
        (file_name (fr_name fr) callId suffix) ∧
    (∃ t, suffix = Math_random_suffix (Examples.world Examples.always) t) ∧
    match call_id_of (fr_response fr) with
    | Some id => callId = id
    | None => ∃ t, callId = JsString.toString (Date_now (Examples.world Examples.always) t)
    end.
Proof.
  apply (offload_file_names (Examples.world Examples.always) Examples.config
           (Examples.start Examples.three_turns)
           (mask (Examples.world Examples.always) 6%nat Examples.config
              (Examples.start Examples.three_turns)).2 6%nat Examples.three_turns_view
           (Ok {| newHistory := 7%nat; maskedCount := 2; tokensSaved := 0 |})
           "/h/observations/tool2_1700000000001_r2.txt" "BBBBBB" true).
  - reflexivity.
  - apply run_returns. vm_compute. reflexivity.
  - apply (list_elem_of_lookup_2 _ 5%nat). vm_compute. reflexivity.
Defined.

(** ** What telemetry is told *)

Lemma total_tokens_sum rs : total_tokens rs = sumZ (tokens <$> rs).
Proof. induction rs as [|r rs IH]; [done|]. rewrite fmap_cons. simpl. by rewrite IH. Qed.

Lemma contribution_sum W v' rs :
  Forall (fun r => is_Some (part_at v' (position r))) rs →
  sumZ (contribution W v' <$> rs) = total_tokens rs - sumZ (estimate_at W v' <$> rs).
Proof.
  induction 1 as [|r rs [p Hp] _ IH]; [done|].
  rewrite !fmap_cons. simpl. rewrite IH. unfold contribution, estimate_at. rewrite Hp. lia.
Qed.

Lemma sumZ_nonneg l : Forall (fun x => 0 ≤ x) l → 0 ≤ sumZ l.
Proof. induction 1; simpl; [done|lia]. Qed.

(** The tokens a masking run saves are the prunable total, which is the
    sum of the tokens of the prunable records, less what the estimator says
    of the parts that stand at the positions of the records in the returned
    history.  So the [tokens_after] of the summary sent to telemetry, the
    last thing the run does, is the estimate of the masked parts; with token
    counts that are never negative, no run saves more than the prunable
    total. *)
Theorem tokens_after_is_estimate (W : World) (cfg : Config) (s s' : state) (history : loc)
    (v : list (list Part)) (res : MaskingResult) :
  history_view (st_heap s) history = Some v →
  HYSTERESIS_THRESHOLD ≤ prunable_total W v →
  mask W history cfg s = (Ok res, s') →
  ∃ v',
    history_view (st_heap s') (newHistory res) = Some v' ∧
    prunable_total W v = sumZ (tokens <$> prunable_records W v) ∧
    tokensSaved res
    = prunable_total W v - sumZ (estimate_at W v' <$> prunable_records W v) ∧
    last (st_trace s')
    = Some (EvTelemetry (prunable_total W v)
              (sumZ (estimate_at W v' <$> prunable_records W v))
              (maskedCount res) (prunable_total W v)) ∧
    ((∀ ps, 0 ≤ estimateTokenCountSync W ps) → tokensSaved res ≤ prunable_total W v).
Proof.
  intros Hv Hge Hrun.
  destruct (mask_run_inv W cfg s s' history v _ Hv Hge Hrun)
    as (rs & Hrs & [(? & _)|[(? & _)|(Hres & _ & Hfst & Hzip & Htr & Hv')]]);
    [done|done|].
  injection Hres as ->. simpl.
  exists (masked_view v (offloaded rs)). split; [done|].
  assert (prunable_total W v = total_tokens (prunable_records W v)) as Htotal.
  { unfold prunable_total, prunable_records. apply scan_records_total. }
  pose proof (NoDup_prunable_records W v) as Hnd.
  pose proof (prunable_records_valid W v) as Hvalid.
  assert (Forall (fun r => is_Some (part_at (masked_view v (offloaded rs)) (position r)))
            (prunable_records W v)) as Hsome.
  { apply Forall_forall. intros r Hr.
    destruct (proj1 (Forall_forall _ _) Hvalid r Hr) as (p & Hp & _).
    assert (∃ path, (r, path) ∈ offloaded rs) as [path Hin].
    { rewrite <- Hfst in Hr. apply list_elem_of_fmap in Hr as ([r' path] & -> & Hin).
      by exists path. }
    exists (masked_part p r path). apply masked_view_at; [by rewrite Hfst|done|done]. }
  assert (savings W v (offloaded rs)
          = prunable_total W v
            - sumZ (estimate_at W (masked_view v (offloaded rs)) <$> prunable_records W v))
    as Hsav.
  { rewrite (savings_sum W); [|by rewrite Hfst|].
    - rewrite Hfst, contribution_sum by done. by rewrite Htotal.
    - apply offloaded_valid. by rewrite Hfst. }
  rewrite <- Hzip. split; [by rewrite Htotal, total_tokens_sum|]. split; [done|]. split.
  - rewrite Htr. unfold masking_run_events. rewrite <- Hzip.
    rewrite (app_assoc (estimates v)), (app_assoc (estimates v ++ _)).
    rewrite (app_assoc (st_trace s)).
    change [?x; ?y] with ([x] ++ [y]). rewrite !app_assoc, last_snoc.
    by rewrite Hsav, Z.sub_sub_distr, Z.sub_diag.
  - intros Hnn. rewrite Hsav.
    assert (0 ≤ sumZ (estimate_at W (masked_view v (offloaded rs)) <$> prunable_records W v)).
    { apply sumZ_nonneg. apply Forall_fmap, Forall_forall. intros r _.
      unfold estimate_at. simpl. by destruct (part_at _ _). }
    lia.
Qed.

(** The run on three turns saves nothing: the texts are short, so the
    masked parts are the original ones. *)
Lemma tokens_after_is_estimate_witness :
  ∃ v',
    history_view
      (st_heap (mask (Examples.world Examples.always) 6%nat Examples.config
                  (Examples.start Examples.three_turns)).2) 7%nat = Some v' ∧
    prunable_total (Examples.world Examples.always) Examples.three_turns_view
    = sumZ (tokens <$> prunable_records (Examples.world Examples.always)
                         Examples.three_turns_view) ∧
    0 = prunable_total (Examples.world Examples.always) Examples.three_turns_view
        - sumZ (estimate_at (Examples.world Examples.always) v'
                  <$> prunable_records (Examples.world Examples.always)
                        Examples.three_turns_view) ∧
    last (st_trace (mask (Examples.world Examples.always) 6%nat Examples.config
                      (Examples.start Examples.three_turns)).2)
    = Some (EvTelemetry
              (prunable_total (Examples.world Examples.always) Examples.three_turns_view)
              (sumZ (estimate_at (Examples.world Examples.always) v'
                       <$> prunable_records (Examples.world Examples.always)
                             Examples.three_turns_view))
              2 (prunable_total (Examples.world Examples.always) Examples.three_turns_view)) ∧
    ((∀ ps, 0 ≤ estimateTokenCountSync (Examples.world Examples.always) ps) →
     0 ≤ prunable_total (Examples.world Examples.always) Examples.three_turns_view).
Proof.
  apply (tokens_after_is_estimate (Examples.world Examples.always) Examples.config
           (Examples.start Examples.three_turns) _ 6%nat Examples.three_turns_view
           {| newHistory := 7%nat; maskedCount := 2; tokensSaved := 0 |}).
  - reflexivity.
  - vm_compute. discriminate.
  - apply run_returns. vm_compute. reflexivity.
Defined.

(** ** What the returned history shares with the caller's *)

Lemma mask_at_shape v rp : List.length <$> mask_at v rp = List.length <$> v.
Proof.
  unfold mask_at. destruct (part_at v (position rp.1)) as [p|]; [|done].
  unfold set_part_at. destruct (v !! (position rp.1).1) as [ps|] eqn:Hps; [|done].
  rewrite list_fmap_insert, length_insert. apply list_insert_id.
  by rewrite list_lookup_fmap, Hps.
Qed.

Lemma masked_view_shape done : ∀ v,
  List.length <$> masked_view v done = List.length <$> v.
Proof.
  induction done as [|rp done IH]; intros v; [done|].
  by rewrite masked_view_cons, IH, mask_at_shape.
Qed.

(** The array a masking run returns is a new one: the caller's store did
    not hold it.  It has as many turns as the caller's array, every turn
    with the role it had and with as many parts.  A turn without a prunable
    record is the caller's own turn record, the same object; a turn with a
    prunable record is a new record with a new parts array, so nothing the
    caller holds has changed. *)
Theorem returned_history_shares_turns (W : World) (cfg : Config) (s s' : state)
    (history : loc) (v : list (list Part)) (res : MaskingResult) :
  history_view (st_heap s) history = Some v →
  HYSTERESIS_THRESHOLD ≤ prunable_total W v →
  mask W history cfg s = (Ok res, s') →
  ∃ ts ts' v',
    st_heap s !! history = Some (CHistory ts) ∧
    st_heap s !! newHistory res = None ∧
    st_heap s' !! newHistory res = Some (CHistory ts') ∧
    history_view (st_heap s') (newHistory res) = Some v' ∧
    List.length ts' = List.length ts ∧
    List.length <$> v' = List.length <$> v ∧
    ∀ i c, ts !! i = Some c →
      ∃ c' t t',
        ts' !! i = Some c' ∧
        st_heap s !! c = Some (CContent t) ∧
        st_heap s' !! c' = Some (CContent t') ∧
        role t' = role t ∧
        if decide (i ∈ contentIndex <$> prunable_records W v)
        then st_heap s !! c' = None ∧ ∃ pl, parts t' = Some pl ∧ st_heap s !! pl = None
        else c' = c ∧ t' = t.
Proof.
  intros Hv Hge Hrun.
  destruct (mask_run W cfg s history v Hv Hge) as (s'' & Hcases).
  destruct (fs_succeeds W (st_tick s)); [|by rewrite Hrun in Hcases; destruct Hcases].
  destruct Hcases as [_ Hcases].
  destruct (forallb snd _); [|by rewrite Hrun in Hcases].
  destruct Hcases as (Hrun' & Hv' & Hkeep & ts & ts' & Hts & Hts' & Hlen & Hsame & Hnew).
  rewrite Hrun in Hrun'. injection Hrun' as -> ->. simpl.
  exists ts, ts'. eexists. split; [done|]. split; [by apply lookup_ge_None|].
  split; [done|]. split; [exact Hv'|]. split; [done|].
  split; [apply masked_view_shape|].
  intros i c Hc.
  destruct (history_view_inv _ _ _ Hv) as (ts0 & Hts0 & Hturns).
  rewrite Hts in Hts0. injection Hts0 as <-.
  destruct (Forall2_lookup_l _ _ _ _ _ Hturns Hc) as (ps0 & _ & Hview0).
  unfold turn_view in Hview0.
  destruct (st_heap s !! c) as [[|t0|]|] eqn:Hc0; try done.
  destruct (decide (i ∈ contentIndex <$> prunable_records W v)) as [Hin|Hnin].
  - destruct (Hnew i Hin) as (c1 & c' & t & t' & pl & Hc1 & Hc' & Hfresh & Hct & Hct' & Hrole & Hpl & Hplf).
    rewrite Hc in Hc1. injection Hc1 as <-. rewrite Hc0 in Hct. injection Hct as <-.
    exists c', t0, t'. split; [done|]. split; [done|]. split; [done|]. split; [done|].
    split; [apply lookup_ge_None; lia|]. exists pl. split; [done|].
    apply lookup_ge_None. lia.
  - exists c, t0, t0. rewrite Hsame by done. split; [done|]. split; [done|].
    rewrite Hkeep by (by apply lookup_lt_Some in Hc0). done.
Qed.

(** The run on a history whose older turn holds both prunable records:
    the newer turn is shared. *)
Lemma returned_history_shares_turns_witness :
  ∃ ts ts' v',
    Examples.two_in_one_turn !! 4%nat = Some (CHistory ts) ∧
    Examples.two_in_one_turn !! 5%nat = None ∧
    st_heap (mask (Examples.world Examples.always) 4%nat Examples.config
               (Examples.start Examples.two_in_one_turn)).2 !! 5%nat
    = Some (CHistory ts') ∧
    history_view
      (st_heap (mask (Examples.world Examples.always) 4%nat Examples.config
                  (Examples.start Examples.two_in_one_turn)).2) 5%nat = Some v' ∧
    List.length ts' = List.length ts ∧
    List.length <$> v' = List.length <$> Examples.two_in_one_turn_view ∧
    ∀ i c, ts !! i = Some c →
      ∃ c' t t',
        ts' !! i = Some c' ∧
        Examples.two_in_one_turn !! c = Some (CContent t) ∧
        st_heap (mask (Examples.world Examples.always) 4%nat Examples.config
                   (Examples.start Examples.two_in_one_turn)).2 !! c'
        = Some (CContent t') ∧
        role t' = role t ∧
        if decide (i ∈ contentIndex
                       <$> prunable_records (Examples.world Examples.always)
                             Examples.two_in_one_turn_view)
        then Examples.two_in_one_turn !! c' = None ∧
             ∃ pl, parts t' = Some pl ∧ Examples.two_in_one_turn !! pl = None
        else c' = c ∧ t' = t.
Proof.
  apply (returned_history_shares_turns (Examples.world Examples.always) Examples.config
           (Examples.start Examples.two_in_one_turn) _ 4%nat
           Examples.two_in_one_turn_view
           {| newHistory := 5%nat; maskedCount := 2; tokensSaved := 0 |}).
  - reflexivity.
  - vm_compute. discriminate.
  - apply run_returns. vm_compute. reflexivity.
Defined.

(** ** A second run after every prunable record was truncated *)

Lemma turn_positions i (l : list (nat * Part)) :
  position_of <$> (l ≫= (fun '(j, p) => [(i, j, p)])) = (fun j => (i, j)) <$> l.*1.
Proof.
  induction l as [|[j p] l IH]; [done|].
  change (mbind ?k ((j, p) :: l)) with (k (j, p) ++ (l ≫= k)).
  rewrite fmap_app, IH. done.
Qed.

(** The positions the scan goes through depend on the numbers of parts of
    the turns only. *)
Lemma scan_positions v :
  position_of <$> scan_order v
  = backwards (List.length <$> v)
    ≫= (fun '(i, n) => (fun j => (i, j)) <$> reverse (seq 0 n)).
Proof.
  induction v as [|ps v IH] using rev_ind; [done|].
  unfold scan_order in *. rewrite fmap_app. simpl (List.length <$> [ps]).
  rewrite !backwards_snoc.
  change (mbind ?k ((List.length v, ps) :: ?l)) with (k (List.length v, ps) ++ (l ≫= k)).
  change (mbind ?k ((List.length (List.length <$> v), List.length ps) :: ?l))
    with (k (List.length (List.length <$> v), List.length ps) ++ (l ≫= k)).
  rewrite fmap_app, IH, turn_positions, backwards_fst, length_fmap. done.
Qed.

Lemma scan_order_positions v v1 :
  List.length <$> v1 = List.length <$> v →
  position_of <$> scan_order v1 = position_of <$> scan_order v.
Proof. intros H. by rewrite !scan_positions, H. Qed.

Section Masked.

Variable W : World.

(** The records of a history whose parts at the positions [P] have been
    replaced by parts that do not qualify are the records of the original
    history at the other positions. *)
Lemma observations_masked v v1 (P : list (nat * nat)) :
  List.length <$> v1 = List.length <$> v →
  (∀ pos, pos ∉ P → part_at v1 pos = part_at v pos) →
  (∀ pos p1, pos ∈ P → part_at v1 pos = Some p1 → observation p1 = None) →
  observations W v1 = filter (fun r => position r ∉ P) (observations W v).
Proof.
  intros Hshape Hother Hmasked. unfold observations.
  pose proof (scan_order_positions v v1 Hshape) as Hpos.
  assert (Forall2 (fun x y => (position_of x ∉ P → y = x) ∧
                              (position_of x ∈ P → record_of W y = None))
            (scan_order v) (scan_order v1)) as Hrel.
  { apply Forall2_same_length_lookup_2.
    { apply (f_equal List.length) in Hpos. by rewrite !length_fmap in Hpos. }
    intros k [[i j] p] [[i1 j1] p1] Hx Hy.
    assert (position_of (i1, j1, p1) = position_of (i, j, p)) as Heq.
    { apply (f_equal (fun l => l !! k)) in Hpos.
      rewrite !list_lookup_fmap, Hx, Hy in Hpos. simpl in Hpos. congruence. }
    unfold position_of in Heq. simpl in Heq. injection Heq as -> ->.
    apply list_elem_of_lookup_2, elem_of_scan_order in Hx, Hy.
    unfold position_of. simpl. split.
    - intros Hnot. rewrite (Hother _ Hnot), Hx in Hy. by injection Hy as ->.
    - intros Hin. unfold record_of. by rewrite (Hmasked _ _ Hin Hy). }
  clear Hpos. induction Hrel as [|x y l l1 [Hout Hin] _ IH]; [done|].
  simpl. destruct (decide (position_of x ∈ P)) as [HP|HP].
  - rewrite (Hin HP). destruct (record_of W x) as [r|] eqn:Hr; [|apply IH].
    rewrite filter_cons_False; [apply IH|].
    rewrite (record_of_position W _ _ Hr). by intros H.
  - rewrite (Hout HP). destruct (record_of W x) as [r|] eqn:Hr; [|apply IH].
    rewrite filter_cons_True; [f_equal; apply IH|].
    by rewrite (record_of_position W _ _ Hr).
Qed.

Lemma filter_all {A} (P : A → Prop) `{∀ x, Decision (P x)} (l : list A) :
  Forall P l → filter P l = l.
Proof.
  induction 1 as [|x l Hx _ IH]; [done|]. by rewrite filter_cons_True, IH.
Qed.

Lemma filter_none {A} (P : A → Prop) `{∀ x, Decision (P x)} (l : list A) :
  Forall (fun x => ¬ P x) l → filter P l = [].
Proof.
  induction 1 as [|x l Hx _ IH]; [done|]. by rewrite filter_cons_False.
Qed.

Lemma filter_protected (protected prunable : list PrunablePart) :
  NoDup (position <$> (protected ++ prunable)) →
  filter (fun r => position r ∉ position <$> prunable) (protected ++ prunable) = protected.
Proof.
  intros Hnd. rewrite fmap_app in Hnd. apply NoDup_app in Hnd as (_ & Hdisj & _).
  rewrite filter_app, filter_all, filter_none; [by rewrite app_nil_r| |].
  - apply Forall_forall. intros r Hr Hnot. apply Hnot. by apply list_elem_of_fmap_2.
  - apply Forall_forall. intros r Hr. apply Hdisj. by apply list_elem_of_fmap_2.
Qed.

(** Records whose running sums stay within the threshold leave the
    prunable list and the prunable total as they are. *)
Lemma scan_protected_only rs : ∀ st,
  protectionBoundaryReached st = false →
  (∀ k, cumulativeToolTokens st + total_tokens (take k rs) ≤ TOOL_PROTECTION_THRESHOLD) →
  prunableParts (foldl account_record st rs) = prunableParts st ∧
  totalPrunableTokens (foldl account_record st rs) = totalPrunableTokens st.
Proof.
  induction rs as [|r rs IH]; intros st Hb Hsum; [done|].
  simpl. pose proof (Hsum 1%nat) as H1. simpl in H1. rewrite ?take_0 in H1. simpl in H1.
  rewrite (account_record_under st r Hb) by lia.
  destruct (IH {| cumulativeToolTokens := cumulativeToolTokens st + tokens r;
                  protectionBoundaryReached := false;
                  totalPrunableTokens := totalPrunableTokens st;
                  prunableParts := prunableParts st |}) as [Hp Ht]; [done| |done].
  intros k. simpl. specialize (Hsum (S k)). simpl in Hsum. lia.
Qed.

(** The records of a history split into the protected ones, which scanned
    alone give nothing prunable, and the prunable list. *)
Lemma observations_split v :
  ∃ protected,
    observations W v = protected ++ prunable_records W v ∧
    prunableParts (scan_records protected) = [] ∧
    totalPrunableTokens (scan_records protected) = 0.
Proof.
  destruct (scan_before_boundary (observations W v) scan_init eq_refl)
    as (protected & prunable & Hsplit & Hsum & Hp & _); [by vm_compute|].
  exists protected. unfold prunable_records, scan_records. rewrite Hp. simpl.
  split; [done|]. by apply (scan_protected_only protected scan_init).
Qed.

End Masked.

(** When every prunable record of a masking run has more than 50,000
    characters, the parts that stand for them in the returned history all
    carry the marker: a second run, on the returned history, scans the
    records that the first run protected and no others, finds nothing
    prunable, and returns the array it was given without writing a file,
    leaving the store as it is. *)
Theorem second_run_untouched (W : World) (cfg cfg2 : Config) (s s1 : state) (history : loc)
    (v : list (list Part)) (res : MaskingResult) :
  history_view (st_heap s) history = Some v →
  HYSTERESIS_THRESHOLD ≤ prunable_total W v →
  Forall (fun r => 50000 < JsString.length (content r)) (prunable_records W v) →
  mask W history cfg s = (Ok res, s1) →
  ∃ v1 s2 evs,
    history_view (st_heap s1) (newHistory res) = Some v1 ∧
    observations W v = observations W v1 ++ prunable_records W v ∧
    prunable_records W v1 = [] ∧
    mask W (newHistory res) cfg2 s1
    = (Ok {| newHistory := newHistory res; maskedCount := 0; tokensSaved := 0 |}, s2) ∧
    st_heap s2 = st_heap s1 ∧
    st_trace s2 = st_trace s1 ++ evs ∧
    Forall is_estimate evs.
Proof.
  intros Hv Hge Hlong Hrun.
  destruct (mask_run_inv W cfg s s1 history v _ Hv Hge Hrun)
    as (rs & Hrs & [(? & _)|[(? & _)|(Hres & _ & Hfst & Hzip & _ & Hv1)]]);
    [done|done|].
  injection Hres as ->. simpl.
  set (v1 := masked_view v (offloaded rs)) in *.
  assert (List.length (offloaded rs).*2 = List.length (prunable_records W v)) as Hlen.
  { by rewrite <- Hfst, !length_fmap. }
  destruct (observations_split W v) as (protected & Hsplit & Hnone & Hzero).
  assert (observations W v1 = protected) as Hobs.
  { rewrite (observations_masked W v v1 (position <$> prunable_records W v)).
    - rewrite Hsplit. apply filter_protected. rewrite <- Hsplit. apply NoDup_observations.
    - apply masked_view_shape.
    - intros pos Hpos. apply masked_view_other. by rewrite Hfst.
    - intros pos p1 Hpos Hp1.
      apply list_elem_of_fmap in Hpos as (r & -> & Hr).
      destruct (record_has_path W v _ r Hlen Hr) as [path Hin].
      destruct (masked_record W v _ r path Hlen Hin)
        as (p & fr & Hp & Hfr & Hoc & Hne & _ & Hp1').
      rewrite <- Hzip in Hp1'. fold v1 in Hp1'. rewrite Hp1 in Hp1'. injection Hp1' as ->.
      pose proof (proj1 (Forall_forall _ _) Hlong r Hr) as Hr50.
      unfold observation.
      rewrite (getObservationContent_masked p r path fr Hfr Hoc Hne)
        by (by apply snippet_nonempty).
      destruct (decide _); [done|]. by rewrite snippet_marked. }
  assert (prunable_records W v1 = []) as Hrec1.
  { unfold prunable_records. by rewrite Hobs. }
  assert (prunable_total W v1 < HYSTERESIS_THRESHOLD) as Hlt.
  { unfold prunable_total. rewrite Hobs, Hzero. by vm_compute. }
  exists v1, (log (estimates v1) s1), (estimates v1).
  split; [done|]. split; [by rewrite Hobs|]. split; [done|].
  split; [by apply mask_no_trigger|]. split; [done|]. split; [done|].
  apply estimates_only.
Qed.

Lemma all_long (rs : list PrunablePart) :
  forallb (fun r => 50000 <? JsString.length (content r)) rs = true →
  Forall (fun r => 50000 < JsString.length (content r)) rs.
Proof.
  induction rs as [|r rs IH]; [constructor|].
  simpl. intros [Hr Hrs]%andb_true_iff. constructor; [lia|by apply IH].
Qed.

(** The second run after the masking of an observation of 60,000
    characters. *)
Lemma second_run_untouched_witness :
  ∃ v1 s2 evs,
    history_view
      (st_heap (mask (Examples.world Examples.always) 4%nat Examples.config
                  (Examples.start Examples.long_observation)).2) 5%nat = Some v1 ∧
    observations (Examples.world Examples.always) Examples.long_observation_view
    = observations (Examples.world Examples.always) v1
      ++ prunable_records (Examples.world Examples.always) Examples.long_observation_view ∧
    prunable_records (Examples.world Examples.always) v1 = [] ∧
    mask (Examples.world Examples.always) 5%nat Examples.config
      (mask (Examples.world Examples.always) 4%nat Examples.config
         (Examples.start Examples.long_observation)).2
    = (Ok {| newHistory := 5%nat; maskedCount := 0; tokensSaved := 0 |}, s2) ∧
    st_heap s2
    = st_heap (mask (Examples.world Examples.always) 4%nat Examples.config
                 (Examples.start Examples.long_observation)).2 ∧
    st_trace s2
    = st_trace (mask (Examples.world Examples.always) 4%nat Examples.config
                  (Examples.start Examples.long_observation)).2 ++ evs ∧
    Forall is_estimate evs.
Proof.
  apply (second_run_untouched (Examples.world Examples.always) Examples.config
           Examples.config (Examples.start Examples.long_observation) _ 4%nat
           Examples.long_observation_view
           {| newHistory := 5%nat; maskedCount := 1; tokensSaved := 192900000 |}).
  - reflexivity.
  - vm_compute. discriminate.
  - apply all_long. vm_compute. reflexivity.
  - apply run_returns. vm_compute. reflexivity.
Defined.

(** ** The keys of the payloads *)

(** The key that the masking step overwrites is a key of the payload
    whenever the payload gave a text. *)
Lemma replaced_key_present p fr m text :
  functionResponse p = Some fr → fr_response fr = PRecord m →
  getObservationContent p = Some text → is_Some (m !! replaced_key m).
Proof.
  intros Hfr Hm Hoc. rewrite (getObservationContent_record p fr m Hfr Hm) in Hoc.
  destruct (text_key m) as [k|] eqn:Hk; [|done]. simpl in Hoc.
  apply string_at_Some in Hoc.
  unfold replaced_key. repeat case_decide; try done.
  unfold text_key in Hk. repeat case_decide; simplify_eq; exfalso; eauto.
Qed.

(** A masking run adds no key to a payload and takes none away, and a
    payload that was a string is a string afterwards: in the returned
    history every part without a function response is the part it was, and
    every function response has its name, its other fields, and a payload
    of the same kind with the same keys.  So the branch of the masking step
    that sets [output] on a payload without a recognised key is never
    taken. *)
Theorem masking_keeps_payload_keys (W : World) (cfg : Config) (s s' : state)
    (history : loc) (v : list (list Part)) (res : MaskingResult) :
  history_view (st_heap s) history = Some v →
  HYSTERESIS_THRESHOLD ≤ prunable_total W v →
  mask W history cfg s = (Ok res, s') →
  ∃ v',
    history_view (st_heap s') (newHistory res) = Some v' ∧
    ∀ pos p, part_at v pos = Some p →
      ∃ p',
        part_at v' pos = Some p' ∧
        part_rest p' = part_rest p ∧
        match functionResponse p with
        | None => functionResponse p' = None
        | Some fr =>
            ∃ fr',
              functionResponse p' = Some fr' ∧
              fr_name fr' = fr_name fr ∧
              fr_rest fr' = fr_rest fr ∧
              match fr_response fr with
              | PAbsent => fr_response fr' = PAbsent
              | PString _ => ∃ text, fr_response fr' = PString text
              | PRecord m =>
                  ∃ m', fr_response fr' = PRecord m' ∧
                        ∀ k, is_Some (m' !! k) ↔ is_Some (m !! k)
              end
        end.
Proof.
  intros Hv Hge Hrun.
  destruct (mask_run_inv W cfg s s' history v _ Hv Hge Hrun)
    as (rs & Hrs & [(? & _)|[(? & _)|(Hres & _ & Hfst & Hzip & _ & Hv')]]);
    [done|done|].
  injection Hres as ->. simpl.
  exists (masked_view v (offloaded rs)). split; [done|].
  assert (List.length (offloaded rs).*2 = List.length (prunable_records W v)) as Hlen.
  { by rewrite <- Hfst, !length_fmap. }
  intros pos p Hp.
  destruct (decide (pos ∈ position <$> prunable_records W v)) as [Hin|Hnin].
  - apply list_elem_of_fmap in Hin as (r & -> & Hr).
    destruct (record_has_path W v _ r Hlen Hr) as [path Hpath].
    destruct (masked_record W v _ r path Hlen Hpath)
      as (p0 & fr & Hp0 & Hfr & Hoc & Hne & _ & Hp').
    rewrite Hp in Hp0. injection Hp0 as <-. rewrite <- Hzip in Hp'.
    exists (masked_part p r path). split; [done|].
    unfold masked_part. rewrite Hfr. simpl. split; [done|].
    eexists. split; [reflexivity|]. simpl. split; [done|]. split; [done|].
    unfold getObservationContent in Hoc. rewrite Hfr in Hoc.
    destruct (fr_response fr) as [|text|m] eqn:Hresp; [done| |].
    + unfold response_or_empty. destruct (decide (text = EmptyString)); [done|].
      by eexists.
    + unfold response_or_empty. rewrite newResponse_record.
      eexists. split; [reflexivity|].
      intros k. rewrite lookup_insert_is_Some.
      assert (is_Some (m !! replaced_key m)) as Hpresent.
      { apply (replaced_key_present p fr m (content r)); [done|done|].
        unfold getObservationContent. by rewrite Hfr, Hresp. }
      split; [by intros [<-|[_ H]]|].
      intros H. destruct (decide (replaced_key m = k)); [by left|by right].
  - exists p. rewrite masked_view_other by (by rewrite Hfst).
    split; [done|]. split; [done|].
    destruct (functionResponse p) as [fr|]; [|done].
    exists fr. split; [done|]. split; [done|]. split; [done|].
    destruct (fr_response fr) as [|text|m]; [done|by eexists|by exists m].
Qed.

(** The run on the payload [{ output: 42, result: "AAAAAA" }]. *)
Lemma masking_keeps_payload_keys_witness :
  ∃ v',
    history_view
      (st_heap (mask (Examples.world Examples.always) 4%nat Examples.config
                  (Examples.start Examples.text_under_result)).2) 5%nat = Some v' ∧
    ∀ pos p, part_at Examples.text_under_result_view pos = Some p →
      ∃ p',
        part_at v' pos = Some p' ∧
        part_rest p' = part_rest p ∧
        match functionResponse p with
        | None => functionResponse p' = None
        | Some fr =>
            ∃ fr',
              functionResponse p' = Some fr' ∧
              fr_name fr' = fr_name fr ∧
              fr_rest fr' = fr_rest fr ∧
              match fr_response fr with
              | PAbsent => fr_response fr' = PAbsent
              | PString _ => ∃ text, fr_response fr' = PString text
              | PRecord m =>
                  ∃ m', fr_response fr' = PRecord m' ∧
                        ∀ k, is_Some (m' !! k) ↔ is_Some (m !! k)
              end
        end.
Proof.
  apply (masking_keeps_payload_keys (Examples.world Examples.always) Examples.config
           (Examples.start Examples.text_under_result) _ 4%nat
           Examples.text_under_result_view
           {| newHistory := 5%nat; maskedCount := 1; tokensSaved := -60000 |}).
  - reflexivity.
  - vm_compute. discriminate.
  - apply run_returns. vm_compute. reflexivity.
Defined.

(** ** The snippet and the file *)

Lemma includes_middle a p q r rest :
  JsString.includes (a +:+ (p +:+ (q +:+ (r +:+ rest)))) (p +:+ q +:+ r) = true.
Proof.
  apply StringFacts.includes_app_r.
  replace (p +:+ (q +:+ (r +:+ rest))) with ((p +:+ q +:+ r) +:+ rest)
    by (by rewrite !StringFacts.app_assoc).
  apply StringFacts.includes_prefix.
Qed.

Lemma guidance_file_path toolName filePath lines size toks :
  JsString.includes (guidance toolName filePath lines size toks)
    ("<file_path>" +:+ filePath +:+ "</file_path>") = true.
Proof.
  unfold guidance. do 18 apply StringFacts.includes_app_r.
  change ("    <file_path>" +:+ ?x) with ("    " +:+ ("<file_path>" +:+ x)).
  apply includes_middle.
Qed.

(** The snippet that stands for a truncated record names, in its
    [file_path] element, the file that the run wrote with the full text of
    the record: what the snippet leaves out can be read back from there. *)
Theorem snippet_points_at_file (W : World) (cfg : Config) (s s' : state) (history : loc)
    (v : list (list Part)) (res : MaskingResult) :
  history_view (st_heap s) history = Some v →
  HYSTERESIS_THRESHOLD ≤ prunable_total W v →
  mask W history cfg s = (Ok res, s') →
  ∃ v',
    history_view (st_heap s') (newHistory res) = Some v' ∧
    ∀ r, r ∈ prunable_records W v → 50000 < JsString.length (content r) →
      ∃ p' text path,
        part_at v' (position r) = Some p' ∧
        getObservationContent p' = Some text ∧
        JsString.includes text ("<file_path>" +:+ path +:+ "</file_path>") = true ∧
        (path, content r) ∈ written (drop (List.length (st_trace s)) (st_trace s')).
Proof.
  intros Hv Hge Hrun.
  destruct (mask_run_inv W cfg s s' history v _ Hv Hge Hrun)
    as (rs & Hrs & [(? & _)|[(? & _)|(Hres & _ & Hfst & Hzip & Htr & Hv')]]);
    [done|done|].
  injection Hres as ->. simpl.
  exists (masked_view v (offloaded rs)). split; [done|].
  assert (List.length (offloaded rs).*2 = List.length (prunable_records W v)) as Hlen.
  { by rewrite <- Hfst, !length_fmap. }
  intros r Hr Hlong.
  destruct (record_has_path W v _ r Hlen Hr) as [path Hpath].
  destruct (masked_record W v _ r path Hlen Hpath)
    as (p & fr & Hp & Hfr & Hoc & Hne & _ & Hp').
  rewrite <- Hzip in Hp'.
  exists (masked_part p r path). eexists _, path. split; [done|]. split.
  { apply (getObservationContent_masked p r path fr Hfr Hoc Hne).
    by apply snippet_nonempty. }
  split.
  - rewrite snippet_long by done.
    do 9 apply StringFacts.includes_app_r. apply guidance_file_path.
  - rewrite Htr, drop_app_length, (written_masking_run W cfg v _ Hlen).
    apply list_elem_of_fmap. by exists (r, path).
Qed.

(** The run on an observation of 60,000 characters. *)
Lemma snippet_points_at_file_witness :
  ∃ v',
    history_view
      (st_heap (mask (Examples.world Examples.always) 4%nat Examples.config
                  (Examples.start Examples.long_observation)).2) 5%nat = Some v' ∧
    ∀ r,
      r ∈ prunable_records (Examples.world Examples.always) Examples.long_observation_view →
      50000 < JsString.length (content r) →
      ∃ p' text path,
        part_at v' (position r) = Some p' ∧
        getObservationContent p' = Some text ∧
        JsString.includes text ("<file_path>" +:+ path +:+ "</file_path>") = true ∧
        (path, content r)
        ∈ written (drop (List.length (@nil event))
                     (st_trace (mask (Examples.world Examples.always) 4%nat Examples.config
                                  (Examples.start Examples.long_observation)).2)).
Proof.
  apply (snippet_points_at_file (Examples.world Examples.always) Examples.config
           (Examples.start Examples.long_observation) _ 4%nat
           Examples.long_observation_view
           {| newHistory := 5%nat; maskedCount := 1; tokensSaved := 192900000 |}).
  - reflexivity.
  - vm_compute. discriminate.
  - apply run_returns. vm_compute. reflexivity.
Defined.

(** ** The snippet and the marker *)

(** What [isAlreadyMasked] says of a snippet: a truncated snippet always
    carries the marker, and a text that was too small to truncate carries
    it exactly when it did before.  So a record is passed over by later
    scans when, and only when, its text was truncated. *)
Theorem snippet_masked_iff_truncated (content filePath toolName : string)
    (totalTokens : Z) :
  isAlreadyMasked (formatMaskedSnippet content filePath toolName totalTokens)
  = (50000 <? JsString.length content) || isAlreadyMasked content.
Proof.
  destruct (50000 <? JsString.length content) eqn:E.
  - apply snippet_marked. lia.
  - rewrite snippet_short by lia. done.
Qed.

(** ** A newest observation over the budget *)

(** When the most recent qualifying observation alone has more than 50,000
    tokens, nothing is protected: it crosses the boundary itself, so it and
    every older qualifying observation are prunable.  With token counts that
    are never negative the run then masks. *)
Theorem newest_over_budget_is_prunable (W : World) (v : list (list Part))
    (r : PrunablePart) (rest : list PrunablePart) :
  observations W v = r :: rest →
  TOOL_PROTECTION_THRESHOLD < tokens r →
  prunable_records W v = observations W v ∧
  prunable_total W v = total_tokens (observations W v) ∧
  ((∀ ps, 0 ≤ estimateTokenCountSync W ps) → HYSTERESIS_THRESHOLD ≤ prunable_total W v).
Proof.
  intros Hobs Hover.
  assert (scan_records (r :: rest)
          = {| cumulativeToolTokens := tokens r;
               protectionBoundaryReached := true;
               totalPrunableTokens := tokens r + total_tokens rest;
               prunableParts := r :: rest |}) as Hscan.
  { unfold scan_records. simpl.
    rewrite (account_record_over scan_init r eq_refl) by (simpl; lia).
    rewrite scan_past_boundary by done. done. }
  unfold prunable_records, prunable_total. rewrite Hobs, Hscan. simpl.
  split; [done|]. split; [done|].
  intros Hnn. pose proof (observations_nonneg W v Hnn) as Hall. rewrite Hobs in Hall.
  apply Forall_cons in Hall as [_ Hrest].
  pose proof (total_tokens_nonneg rest Hrest).
  unfold TOOL_PROTECTION_THRESHOLD in Hover. unfold HYSTERESIS_THRESHOLD. lia.
Qed.

(** A history whose only observation has 60,000 tokens. *)
Lemma newest_over_budget_is_prunable_witness :
  prunable_records (Examples.world Examples.always)
    [[Examples.tool_part "tool1" (Examples.output "AAAAAA")]]
  = observations (Examples.world Examples.always)
      [[Examples.tool_part "tool1" (Examples.output "AAAAAA")]] ∧
  prunable_total (Examples.world Examples.always)
    [[Examples.tool_part "tool1" (Examples.output "AAAAAA")]]
  = total_tokens (observations (Examples.world Examples.always)
                    [[Examples.tool_part "tool1" (Examples.output "AAAAAA")]]) ∧
  ((∀ ps, 0 ≤ estimateTokenCountSync (Examples.world Examples.always) ps) →
   HYSTERESIS_THRESHOLD
   ≤ prunable_total (Examples.world Examples.always)
       [[Examples.tool_part "tool1" (Examples.output "AAAAAA")]]).
Proof.
  apply (newest_over_budget_is_prunable (Examples.world Examples.always)
           [[Examples.tool_part "tool1" (Examples.output "AAAAAA")]]
           Examples.short_record []).
  - vm_compute. reflexivity.
  - vm_compute. reflexivity.
Defined.

(** ** The file size in the snippet *)

(** The file size that the snippet of a truncated text gives, once in the
    banner and once in the [file_size] element of the guidance block, is
    the UTF-8 byte length of the whole text in units of 2^20 bytes with two
    decimals: [n / 100], a point and the two digits of [n mod 100], where
    [n] is the number of hundredths nearest to [bytes / 2^20], the larger
    one on a tie. *)
Theorem snippet_file_size (content filePath toolName : string) (totalTokens : Z) :
  50000 < JsString.length content →
  ∃ n,
    2 * (1024 * 1024) * n ≤ 200 * JsString.byteLength content + 1024 * 1024
    < 2 * (1024 * 1024) * (n + 1) ∧
    JsString.includes (formatMaskedSnippet content filePath toolName totalTokens)
      ("| " +:+ (JsString.digits (n / 100) +:+ "." +:+ JsString.two_digits (n mod 100))
       +:+ "MB |") = true ∧
    JsString.includes (formatMaskedSnippet content filePath toolName totalTokens)
      ("<file_size>"
       +:+ (JsString.digits (n / 100) +:+ "." +:+ JsString.two_digits (n mod 100))
       +:+ "MB</file_size>") = true.
Proof.
  intros Hlong.
  exists (JsString.hundredths (JsString.byteLength content) (1024 * 1024)).
  split; [apply SnippetFacts.hundredths_nearest; lia|].
  rewrite snippet_long by done. unfold file_size, JsString.toFixed2. cbv zeta.
  set (size := JsString.digits _ +:+ "." +:+ JsString.two_digits _).
  split.
  - do 4 apply StringFacts.includes_app_r. apply StringFacts.includes_app_l.
    unfold banner. do 2 apply StringFacts.includes_app_r.
    change (" LINES | " +:+ ?x) with (" LINES " +:+ ("| " +:+ x)).
    change ("MB | ~" +:+ ?x) with ("MB |" +:+ (" ~" +:+ x)).
    apply includes_middle.
  - do 9 apply StringFacts.includes_app_r.
    unfold guidance. do 26 apply StringFacts.includes_app_r.
    change ("    <file_size>" +:+ ?x) with ("    " +:+ ("<file_size>" +:+ x)).
    apply includes_middle.
Qed.

(** The text of 60,000 characters has 60,000 bytes: 0.06 MB. *)
Lemma snippet_file_size_witness :
  ∃ n,
    2 * (1024 * 1024) * n ≤ 200 * JsString.byteLength Examples.long_text + 1024 * 1024
    < 2 * (1024 * 1024) * (n + 1) ∧
    JsString.includes
      (formatMaskedSnippet Examples.long_text "/h/observations/t_1_x.txt" "t" 60000)
      ("| " +:+ (JsString.digits (n / 100) +:+ "." +:+ JsString.two_digits (n mod 100))
       +:+ "MB |") = true ∧
    JsString.includes
      (formatMaskedSnippet Examples.long_text "/h/observations/t_1_x.txt" "t" 60000)
      ("<file_size>"
       +:+ (JsString.digits (n / 100) +:+ "." +:+ JsString.two_digits (n mod 100))
       +:+ "MB</file_size>") = true.
Proof.
  apply (snippet_file_size Examples.long_text "/h/observations/t_1_x.txt" "t" 60000).
  vm_compute. reflexivity.
Defined.
